(** * libregto: hand model, scenario engine and progress store

    A shallow embedding of the parts of the poker trainer that carry
    invariants:

    - [Hands]        the hand data utilities (RANKS, generateAllHands,
                     parseHand, normalizeHand, PREFLOP_EQUITY, getEquity,
                     getHandFromGrid, getGridPosition);
    - [RangeGrid]    getRangeStats of the range grid component;
    - [BoardTexture] analyzeBoardTexture of the board-texture data;
    - [Storage]      updateDrillProgress and updateScenarioProgress of the
                     storage module, with their helpers and tables;
    - [StorageQueries] the queries of the storage module (isDrillUnlocked,
                     isScenarioUnlocked, getCurrentDrill, getCurrentScenario,
                     checkScenariosUnlock) and the invariants of a document;
    - [Engine]       the ScenarioEngine class;
    - [Session]      what a session of the engine has tallied and written;
    - [Ranges]       the opening ranges and their grids (isInRange,
                     rangeToGrid, handsToGrid, gridToHands,
                     getRangeSimilarity, getRangeDifference);
    - [BoardGen]     the board generators of the board-texture data;
    - [Helpers]      shuffleArray, randomPick and randomPickN;
    - [HandCards]    getCardsForHand, compareHands and sortHandsByEquity.

    JavaScript strings are [string], one-character strings are [ascii];
    numbers that are only compared, added or divided are rationals ([Q]),
    counters are [Z]; objects used as dictionaries are [gmap string _] or,
    for literal tables, association lists. A call that raises a TypeError
    in JavaScript returns [TypeError] here. Wall-clock readings
    ([performance.now()], [new Date().toISOString()]) are arguments of the
    operations that read them, and the readings of [Math.random()] are a
    list that the operations consume. *)

From Stdlib Require Import ZArith QArith Qround Lqa Ascii String List Bool DecimalString Sorted.
From stdpp Require Import base option list gmap strings.
Import ListNotations.

Local Open Scope string_scope.
Local Open Scope Z_scope.

(** ** Outcomes of calls that may throw *)

Inductive outcome (A : Type) : Type :=
| Value (a : A)
| TypeError.
Arguments Value {A} a.
Arguments TypeError {A}.

Definition obind {A B} (o : outcome A) (k : A -> outcome B) : outcome B :=
  match o with
  | Value a => k a
  | TypeError => TypeError
  end.

Fixpoint omapM {A B} (f : A -> outcome B) (l : list A) : outcome (list B) :=
  match l with
  | [] => Value []
  | a :: l' =>
      obind (f a) (fun b => obind (omapM f l') (fun bs => Value (b :: bs)))
  end.

(** ** Characters *)

Definition isLower (c : ascii) : bool :=
  (97 <=? Z.of_N (N_of_ascii c)) && (Z.of_N (N_of_ascii c) <=? 122).

Definition isUpper (c : ascii) : bool :=
  (65 <=? Z.of_N (N_of_ascii c)) && (Z.of_N (N_of_ascii c) <=? 90).

(** [String.prototype.toUpperCase] on a one-character ASCII string; a
    character outside ASCII is left as it is. *)
Definition toUpperCase (c : ascii) : ascii :=
  if isLower c then ascii_of_N (N_of_ascii c - 32) else c.

(** [String.prototype.toLowerCase] on a one-character ASCII string. *)
Definition toLowerCase (c : ascii) : ascii :=
  if isUpper c then ascii_of_N (N_of_ascii c + 32) else c.

(** [s[i]]: [None] stands for [undefined]. *)
Definition charAt (s : string) (i : nat) : option ascii := String.get i s.

(** [Array.prototype.indexOf] on an array of one-character strings. *)
Fixpoint indexOfFrom (c : ascii) (l : list ascii) (i : Z) : Z :=
  match l with
  | [] => -1
  | x :: l' => if Ascii.eqb x c then i else indexOfFrom c l' (i + 1)
  end.

Definition indexOf (l : list ascii) (c : ascii) : Z := indexOfFrom c l 0.

(** [String.prototype.endsWith] for a one-character suffix. *)
Fixpoint endsWith (s : string) (c : ascii) : bool :=
  match s with
  | EmptyString => false
  | String x EmptyString => Ascii.eqb x c
  | String _ s' => endsWith s' c
  end.

(** [obj[key]] on a table written as a literal; [None] is [undefined]. *)
Fixpoint lookupKey {A} (tbl : list (string * A)) (k : string) : option A :=
  match tbl with
  | [] => None
  | (k', v) :: tbl' => if String.eqb k' k then Some v else lookupKey tbl' k
  end.

(** A key used to index an object is converted to a string. *)
Definition keyOf (o : option string) : string :=
  match o with
  | Some s => s
  | None => "null"
  end.

(** [x || d] for a number read from a table: [undefined] and [0] are falsy. *)
Definition orDefault (o : option Q) (d : Q) : Q :=
  match o with
  | Some v => if Qeq_bool v 0 then d else v
  | None => d
  end.

(** The names every plain object inherits from [Object.prototype]:
    [obj[name]] finds a function (for ["__proto__"] the prototype object
    itself), a truthy value, also when [obj] has no key [name] of its
    own. *)
Definition inheritedMember (k : string) : bool :=
  existsb (String.eqb k)
    ["constructor"; "__proto__"; "hasOwnProperty"; "isPrototypeOf";
     "propertyIsEnumerable"; "toLocaleString"; "toString"; "valueOf";
     "__defineGetter__"; "__defineSetter__"; "__lookupGetter__";
     "__lookupSetter__"].

Arguments inheritedMember : simpl never.

(** * Hand data utilities *)

Module Hands.

Definition RANKS : list ascii :=
  ["A"; "K"; "Q"; "J"; "T"; "9"; "8"; "7"; "6"; "5"; "4"; "3"; "2"]%char.

(** [RANKS[i]]; [None] is [undefined]. *)
Definition rankAt (i : Z) : option ascii :=
  if i <? 0 then None else nth_error RANKS (Z.to_nat i).

Definition cat2 (a b : ascii) : string := String a (String b EmptyString).
Definition cat3 (a b c : ascii) : string :=
  String a (String b (String c EmptyString)).

(** The body of the inner loop of [generateAllHands]. *)
Definition handsAt (i j : nat) : list string :=
  match nth_error RANKS i, nth_error RANKS j with
  | Some ri, Some rj =>
      if Nat.eqb i j then [cat2 ri rj]
      else [cat3 ri rj "s"; cat3 ri rj "o"]
  | _, _ => []
  end.

(** [for i in 0..len) for j in i..len)]. *)
Definition generateAllHands : list string :=
  flat_map (fun i => flat_map (fun j => handsAt i j)
                       (seq i (List.length RANKS - i)))
           (seq 0 (List.length RANKS)).

Definition ALL_HANDS : list string := generateAllHands.

Record Hand := mkHand {
  rank1 : ascii;
  rank2 : ascii;
  suited : bool;
  offsuit : bool;
  pair : bool;
  notation : string
}.

Definition optAsciiEqb (o : option ascii) (c : ascii) : bool :=
  match o with
  | Some x => Ascii.eqb x c
  | None => false
  end.

(** [parseHand]: [null] only for an empty notation or one shorter than two
    characters. *)
Definition parseHand (n : string) : option Hand :=
  match charAt n 0, charAt n 1 with
  | Some c0, Some c1 =>
      let rank1 := toUpperCase c0 in
      let rank2 := toUpperCase c1 in
      let suffix := option_map toLowerCase (charAt n 2) in
      Some {| rank1 := rank1;
              rank2 := rank2;
              suited := optAsciiEqb suffix "s";
              offsuit := optAsciiEqb suffix "o";
              pair := Ascii.eqb rank1 rank2;
              notation :=
                if Ascii.eqb rank1 rank2 then cat2 rank1 rank2
                else cat3 rank1 rank2
                       (match suffix with Some c => c | None => "o"%char end) |}
  | _, _ => None
  end.

(** [normalizeHand]: [Value None] is [null] (falsy notation); a one-character
    notation reads [notation[1].toUpperCase()] on [undefined] and throws. *)
Definition normalizeHand (n : string) : outcome (option string) :=
  match charAt n 0 with
  | None => Value None
  | Some c0 =>
      match charAt n 1 with
      | None => TypeError
      | Some c1 =>
          let rank1 := toUpperCase c0 in
          let rank2 := toUpperCase c1 in
          let suffix := option_map toLowerCase (charAt n 2) in
          let r1 := indexOf RANKS rank1 in
          let r2 := indexOf RANKS rank2 in
          let '(rank1, rank2) :=
            if r2 <? r1 then (rank2, rank1) else (rank1, rank2) in
          if Ascii.eqb rank1 rank2 then Value (Some (cat2 rank1 rank2))
          else Value (Some (cat3 rank1 rank2
                 (match suffix with Some c => c | None => "o"%char end)))
      end
  end.

(** Preflop equity against a random hand, in percent. *)
Definition PREFLOP_EQUITY : list (string * Q) :=
  [
   ("AA", 85.0); ("KK", 82.4); ("QQ", 80.0); ("JJ", 77.5); ("TT", 75.1);
   ("99", 72.1); ("88", 69.1); ("77", 66.2); ("66", 63.3); ("55", 60.3);
   ("44", 57.0); ("33", 53.7); ("22", 50.3); ("AKs", 67.0); ("AQs", 66.1);
   ("AJs", 65.4); ("ATs", 64.7); ("A9s", 63.0); ("A8s", 62.1); ("A7s", 61.1);
   ("A6s", 60.0); ("A5s", 60.2); ("A4s", 59.3); ("A3s", 58.5); ("A2s", 57.7);
   ("AKo", 65.3); ("AQo", 64.4); ("AJo", 63.6); ("ATo", 62.8); ("A9o", 60.7);
   ("A8o", 59.7); ("A7o", 58.6); ("A6o", 57.4); ("A5o", 57.6); ("A4o", 56.6);
   ("A3o", 55.8); ("A2o", 55.0); ("KQs", 63.4); ("KJs", 62.6); ("KTs", 61.9);
   ("K9s", 60.0); ("K8s", 58.5); ("K7s", 57.8); ("K6s", 56.8); ("K5s", 55.8);
   ("K4s", 54.9); ("K3s", 54.1); ("K2s", 53.3); ("KQo", 61.4); ("KJo", 60.6);
   ("KTo", 59.8); ("K9o", 57.6); ("K8o", 55.8); ("K7o", 55.0); ("K6o", 53.9);
   ("K5o", 52.9); ("K4o", 51.9); ("K3o", 51.1); ("K2o", 50.2); ("QJs", 60.3);
   ("QTs", 59.5); ("Q9s", 57.9); ("Q8s", 56.2); ("Q7s", 54.6); ("Q6s", 54.0);
   ("Q5s", 53.1); ("Q4s", 52.2); ("Q3s", 51.4); ("Q2s", 50.6); ("QJo", 58.2);
   ("QTo", 57.3); ("Q9o", 55.3); ("Q8o", 53.3); ("Q7o", 51.5); ("Q6o", 50.8);
   ("Q5o", 49.8); ("Q4o", 48.8); ("Q3o", 47.9); ("Q2o", 47.1); ("JTs", 57.5);
   ("J9s", 55.8); ("J8s", 54.2); ("J7s", 52.4); ("J6s", 51.0); ("J5s", 50.4);
   ("J4s", 49.5); ("J3s", 48.7); ("J2s", 47.9); ("JTo", 55.4); ("J9o", 53.4);
   ("J8o", 51.5); ("J7o", 49.5); ("J6o", 47.9); ("J5o", 47.3); ("J4o", 46.3);
   ("J3o", 45.5); ("J2o", 44.6); ("T9s", 54.3); ("T8s", 52.6); ("T7s", 50.9);
   ("T6s", 49.3); ("T5s", 47.8); ("T4s", 47.2); ("T3s", 46.4); ("T2s", 45.6);
   ("T9o", 51.7); ("T8o", 49.8); ("T7o", 47.8); ("T6o", 46.0); ("T5o", 44.4);
   ("T4o", 43.7); ("T3o", 42.8); ("T2o", 42.0); ("98s", 51.1); ("97s", 49.5);
   ("96s", 47.8); ("95s", 46.1); ("94s", 44.7); ("93s", 44.1); ("92s", 43.4);
   ("98o", 48.3); ("97o", 46.5); ("96o", 44.5); ("95o", 42.7); ("94o", 41.2);
   ("93o", 40.5); ("92o", 39.7); ("87s", 48.2); ("86s", 46.5); ("85s", 44.8);
   ("84s", 43.2); ("83s", 41.8); ("82s", 41.2); ("87o", 45.2); ("86o", 43.2);
   ("85o", 41.4); ("84o", 39.6); ("83o", 38.1); ("82o", 37.4); ("76s", 45.7);
   ("75s", 44.0); ("74s", 42.3); ("73s", 40.7); ("72s", 39.4); ("76o", 42.5);
   ("75o", 40.6); ("74o", 38.7); ("73o", 36.9); ("72o", 35.5); ("65s", 43.2);
   ("64s", 41.4); ("63s", 39.8); ("62s", 38.4); ("65o", 39.8); ("64o", 37.8);
   ("63o", 36.0); ("62o", 34.5); ("54s", 41.1); ("53s", 39.4); ("52s", 37.9);
   ("54o", 37.6); ("53o", 35.7); ("52o", 34.2); ("43s", 38.0); ("42s", 36.6);
   ("43o", 34.3); ("42o", 32.7); ("32s", 35.4); ("32o", 31.6)
  ]%Q.

Definition getEquity (n : string) : outcome Q :=
  obind (normalizeHand n) (fun normalized =>
    Value (orDefault (lookupKey PREFLOP_EQUITY (keyOf normalized)) 30)).

(** Hand strength between 0 and 1: [getEquity(notation) / 100]. *)
Definition getHandStrength (n : string) : outcome Q :=
  obind (getEquity n) (fun e => Value (e / 100)%Q).

Record GridPos := mkPos { row : Z; col : Z }.

Definition GridPos_eqb (p q : GridPos) : bool :=
  (row p =? row q) && (col p =? col q).

(** [getHandFromGrid]: [None] outside the 13x13 grid, where the source
    concatenates [undefined]. *)
Definition getHandFromGrid (row col : Z) : option string :=
  match rankAt row, rankAt col with
  | Some rank1, Some rank2 =>
      if row =? col then Some (cat2 rank1 rank2)
      else if row <? col then Some (cat3 rank1 rank2 "s")
      else Some (cat3 rank2 rank1 "o")
  | _, _ => None
  end.

Definition getGridPosition (n : string) : option GridPos :=
  match parseHand n with
  | None => None
  | Some hand =>
      let row := indexOf RANKS (rank1 hand) in
      let col := indexOf RANKS (rank2 hand) in
      if pair hand then Some {| row := row; col := row |}
      else if suited hand then
        Some {| row := Z.min row col; col := Z.max row col |}
      else Some {| row := Z.max row col; col := Z.min row col |}
  end.

(** Hands of [ALL_HANDS] that sit in a given cell. *)
Definition handsInCell (row col : Z) : list string :=
  List.filter (fun h => match getGridPosition h with
                        | Some p => GridPos_eqb p (mkPos row col)
                        | None => false
                        end) ALL_HANDS.

(** A rank letter, in either case: the source upper-cases before use. *)
Definition isRankLetter (c : ascii) : bool :=
  existsb (Ascii.eqb (toUpperCase c)) RANKS.

(** A shape suffix, in either case: the source lower-cases before use. *)
Definition isShapeLetter (c : ascii) : bool :=
  Ascii.eqb (toLowerCase c) "s" || Ascii.eqb (toLowerCase c) "o".

(** A valid notation: two rank letters, then at most one shape suffix. *)
Definition validNotation (n : string) : bool :=
  match n with
  | String a (String b EmptyString) => isRankLetter a && isRankLetter b
  | String a (String b (String c EmptyString)) =>
      isRankLetter a && isRankLetter b && isShapeLetter c
  | _ => false
  end.

(** The two ranks of a notation in the order [normalizeHand] writes them. *)
Definition highRank (a b : ascii) : ascii :=
  if indexOf RANKS (toUpperCase b) <? indexOf RANKS (toUpperCase a)
  then toUpperCase b else toUpperCase a.

Definition lowRank (a b : ascii) : ascii :=
  if indexOf RANKS (toUpperCase b) <? indexOf RANKS (toUpperCase a)
  then toUpperCase a else toUpperCase b.

(** The suffix [normalizeHand] writes for a non-pair. *)
Definition suffixOf (n : string) : ascii :=
  match charAt n 2 with
  | Some c => toLowerCase c
  | None => "o"%char
  end.

End Hands.

(** * Range statistics (RangeGrid component) *)

Module RangeGrid.

Record RangeStats := mkStats {
  hands : Z;
  pairs : Z;
  suited : Z;
  offsuit : Z;
  combos : Z;
  percentage : string
}.

Definition optStringEqb (a b : option string) : bool :=
  match a, b with
  | Some x, Some y => String.eqb x y
  | None, None => true
  | _, _ => false
  end.

(** [new Set(hands)]: elements in order of first insertion. *)
Definition newSet (l : list (option string)) : list (option string) :=
  fold_left (fun acc h => if existsb (optStringEqb h) acc then acc
                          else (acc ++ [h])%list) l [].

Definition decimal (z : Z) : string :=
  NilZero.string_of_uint (N.to_uint (Z.to_N z)).

Fixpoint zeros (n : nat) : string :=
  match n with
  | O => EmptyString
  | S n' => String "0" (zeros n')
  end.

(** [Number.prototype.toFixed(digits)] for a non-negative number: the
    nearest multiple of [10^-digits], the larger one on a tie, printed with
    [digits] fractional digits. The share of 1,326 combos is never within
    floating-point error of a tie at one digit, so rounding the exact
    rational gives the digits the source prints. *)
Definition toFixed (digits : nat) (q : Q) : string :=
  let scale := 10 ^ Z.of_nat digits in
  let t := Qfloor (q * inject_Z scale + (1 # 2))%Q in
  match digits with
  | O => decimal t
  | _ =>
      let frac := decimal (t mod scale) in
      decimal (t / scale) ++ "." ++
      zeros (digits - String.length frac) ++ frac
  end.

(** One step of [uniqueHands.forEach]; [hand.length] on [null] throws. *)
Definition countHand (acc : outcome (Z * Z * Z)) (hand : option string)
  : outcome (Z * Z * Z) :=
  obind acc (fun '(pairs, suited, offsuit) =>
    match hand with
    | None => TypeError
    | Some h =>
        if Nat.eqb (String.length h) 2 then Value (pairs + 1, suited, offsuit)
        else if endsWith h "s" then Value (pairs, suited + 1, offsuit)
        else Value (pairs, suited, offsuit + 1)
    end).

Definition getRangeStats (range : list string) : outcome RangeStats :=
  obind (omapM Hands.normalizeHand range) (fun hands =>
    let uniqueHands := newSet hands in
    obind (fold_left countHand uniqueHands (Value (0, 0, 0)))
      (fun '(pairs, suited, offsuit) =>
         let totalCombos := pairs * 6 + suited * 4 + offsuit * 12 in
         Value {| hands := Z.of_nat (List.length uniqueHands);
                  pairs := pairs;
                  suited := suited;
                  offsuit := offsuit;
                  combos := totalCombos;
                  percentage :=
                    toFixed 1 ((inject_Z totalCombos / 1326) * 100)%Q |})).

(** The shape of a hand, read through [parseHand]. *)
Definition isPairHand (h : string) : bool :=
  match Hands.parseHand h with
  | Some hand => Hands.pair hand
  | None => false
  end.

Definition isSuitedHand (h : string) : bool :=
  match Hands.parseHand h with
  | Some hand => negb (Hands.pair hand) && Hands.suited hand
  | None => false
  end.

(** The number of two-card combinations a hand stands for. *)
Definition comboWeight (h : string) : Z :=
  if isPairHand h then 6 else if isSuitedHand h then 4 else 12.

(** The number of elements of a list that pass a test. *)
Definition countBy {A} (f : A -> bool) (l : list A) : Z :=
  Z.of_nat (List.length (List.filter f l)).

End RangeGrid.

(** * Board texture (board-texture scenario data) *)

Module BoardTexture.

Inductive Rank := RA | RK | RQ | RJ | RT | R9 | R8 | R7 | R6 | R5 | R4 | R3 | R2.
Inductive Suit := Spades | Hearts | Diamonds | Clubs.

#[global] Instance Rank_eq_dec : EqDecision Rank.
Proof. solve_decision. Defined.
#[global] Instance Suit_eq_dec : EqDecision Suit.
Proof. solve_decision. Defined.

Record Card := mkCard { rank : Rank; suit : Suit }.

Inductive Texture := Unknown | Monotone | Paired | Wet | Dry.

(** [getRankValue]: [values[rank] || parseInt(rank)] on the thirteen ranks. *)
Definition getRankValue (r : Rank) : Z :=
  match r with
  | RA => 14 | RK => 13 | RQ => 12 | RJ => 11 | RT => 10
  | R9 => 9 | R8 => 8 | R7 => 7 | R6 => 6 | R5 => 5
  | R4 => 4 | R3 => 3 | R2 => 2
  end.

(** [sort((a, b) => a - b)]: ascending numeric sort. *)
Fixpoint insertSorted (x : Z) (l : list Z) : list Z :=
  match l with
  | [] => [x]
  | y :: l' => if x <=? y then x :: l else y :: insertSorted x l'
  end.

Definition sortAsc (l : list Z) : list Z := fold_right insertSorted [] l.

(** [suitCounts[s] = (suitCounts[s] || 0) + 1]. *)
Fixpoint bump (s : Suit) (counts : list (Suit * Z)) : list (Suit * Z) :=
  match counts with
  | [] => [(s, 1)]
  | (k, v) :: counts' =>
      if bool_decide (k = s) then (k, v + 1) :: counts'
      else (k, v) :: bump s counts'
  end.

(** [rankValues[i + 1] - rankValues[i]] for [i] from 0 to [length - 2]. *)
Fixpoint gapsOf (l : list Z) : list Z :=
  match l with
  | a :: (b :: _) as l' => (b - a) :: gapsOf l'
  | _ => []
  end.

Definition analyzeBoardTexture (board : list Card) : Texture :=
  match board with
  | c0 :: c1 :: c2 :: _ =>
      let suits := map suit board in
      let ranks := map rank board in
      let rankValues := sortAsc (map getRankValue ranks) in
      if bool_decide (suit c0 = suit c1) && bool_decide (suit c1 = suit c2)
      then Monotone
      else if bool_decide (rank c0 = rank c1) || bool_decide (rank c1 = rank c2)
              || bool_decide (rank c0 = rank c2)
      then Paired
      else
        let suitCounts := fold_left (fun acc s => bump s acc) suits [] in
        let hasTwoTone := existsb (fun kv => snd kv =? 2) suitCounts in
        let gaps := gapsOf rankValues in
        let isConnected := forallb (fun g => g <=? 2) gaps in
        if hasTwoTone || isConnected then Wet else Dry
  | _ => Unknown
  end.

(** The classifier as the specification words it, for a board of exactly
    three cards. *)
Definition textureSpec (c0 c1 c2 : Card) : Texture :=
  let v0 := getRankValue (rank c0) in
  let v1 := getRankValue (rank c1) in
  let v2 := getRankValue (rank c2) in
  let lo := Z.min v0 (Z.min v1 v2) in
  let hi := Z.max v0 (Z.max v1 v2) in
  let mid := v0 + v1 + v2 - lo - hi in
  let allSameSuit := bool_decide (suit c0 = suit c1 /\ suit c1 = suit c2) in
  let anyTwoRanks :=
    bool_decide (rank c0 = rank c1 \/ rank c1 = rank c2 \/ rank c0 = rank c2) in
  let twoShareSuit :=
    bool_decide ((suit c0 = suit c1 \/ suit c1 = suit c2 \/ suit c0 = suit c2)
                 /\ ~ (suit c0 = suit c1 /\ suit c1 = suit c2)) in
  let gapsAtMostTwo := (mid - lo <=? 2) && (hi - mid <=? 2) in
  if allSameSuit then Monotone
  else if anyTwoRanks then Paired
  else if twoShareSuit || gapsAtMostTwo then Wet
  else Dry.

End BoardTexture.

(** * Progress store (storage.js) *)

Module Storage.

(** ** JavaScript comparisons on a statistic that may be [undefined] or
    [NaN] ([None]): every comparison with such a value is false. *)

Definition jsGe (a : option Q) (b : Q) : bool :=
  match a with Some x => Qle_bool b x | None => false end.

Definition jsGt (a : option Q) (b : Q) : bool :=
  match a with Some x => negb (Qle_bool x b) | None => false end.

Definition jsLt (a : option Q) (b : Q) : bool :=
  match a with Some x => negb (Qle_bool b x) | None => false end.

Definition jsEq (a : option Q) (b : Q) : bool :=
  match a with Some x => Qeq_bool x b | None => false end.

Definition truthy (a : option Q) : bool :=
  match a with Some x => negb (Qeq_bool x 0) | None => false end.

Arguments jsGe : simpl never.
Arguments jsGt : simpl never.
Arguments jsLt : simpl never.
Arguments jsEq : simpl never.
Arguments truthy : simpl never.

(** The session summary handed to the store. *)
Record Stats := mkStats {
  accuracy : option Q;
  bestStreak : option Q;
  avgTime : option Q
}.

Module Drill.
Record t := mk {
  unlocked : bool;
  completed : bool;
  bestScore : Q;
  bestStreak : Q;
  bestTime : option Q;
  attempts : Z;
  lastAttempt : option string
}.
Definition setUnlocked (r : t) : t :=
  mk true (completed r) (bestScore r) (bestStreak r) (bestTime r)
     (attempts r) (lastAttempt r).
End Drill.

Module Scenario.
Record t := mk {
  unlocked : bool;
  completed : bool;
  bestScore : Q;
  attempts : Z;
  lastAttempt : option string
}.
Definition setUnlocked (r : t) : t :=
  mk true (completed r) (bestScore r) (attempts r) (lastAttempt r).
End Scenario.

Module DrillStage.
Record t := mk {
  unlocked : bool;
  completed : bool;
  modules : gmap string Drill.t;
  totalAttempts : Z;
  achievements : list string
}.
End DrillStage.

Module ScenarioStage.
Record t := mk {
  unlocked : bool;
  completed : bool;
  modules : gmap string Scenario.t;
  achievements : list string
}.
End ScenarioStage.

(** The persisted document, as far as drills and scenarios read or write it;
    [fullHandsUnlocked] is [stages['full-hands'].unlocked]. *)
Record Progress := mkProgress {
  drills : DrillStage.t;
  scenarios : ScenarioStage.t;
  fullHandsUnlocked : bool;
  lastUpdated : option string
}.

Definition DRILL_ORDER : list string :=
  ["hand-ranking"; "open-fold"; "equity-snap"; "range-check"; "position-speed"].

Definition DRILL_THRESHOLDS : list (string * Q) :=
  [("hand-ranking", 80); ("open-fold", 75); ("equity-snap", 70);
   ("range-check", 75); ("position-speed", 80)]%Q.

Definition SCENARIO_ORDER : list string :=
  ["defend-3bet"; "bb-defense"; "3bet-value"; "sb-3bet-fold";
   "cold-4bet"; "board-texture"].

Definition SCENARIO_THRESHOLDS : list (string * Q) :=
  [("defend-3bet", 75); ("bb-defense", 75); ("3bet-value", 75);
   ("sb-3bet-fold", 75); ("cold-4bet", 70); ("board-texture", 80)]%Q.

Definition TIER_1_SCENARIOS : list string :=
  ["defend-3bet"; "bb-defense"; "3bet-value"; "sb-3bet-fold"].

(** [Array.prototype.indexOf] on an array of strings. *)
Fixpoint indexOfStrFrom (k : string) (l : list string) (i : Z) : Z :=
  match l with
  | [] => -1
  | x :: l' => if String.eqb x k then i else indexOfStrFrom k l' (i + 1)
  end.

Definition indexOfStr (l : list string) (k : string) : Z := indexOfStrFrom k l 0.

(** [Array.prototype.includes] on an array of strings. *)
Definition includes (l : list string) (k : string) : bool :=
  existsb (String.eqb k) l.

(** [if (cond && !achievements.includes(id)) achievements.push(id)]. *)
Definition award (cond : bool) (id : string) (achievements : list string)
  : list string :=
  if cond && negb (includes achievements id) then (achievements ++ [id])%list
  else achievements.

(** [saveProgress]: stamps the document and stores it. A failing
    [localStorage.setItem] is outside this model: the second component is
    the [true] of a write that succeeded. *)
Definition saveProgress (now : string) (p : Progress) : Progress * bool :=
  (mkProgress (drills p) (scenarios p) (fullHandsUnlocked p) (Some now), true).

(** [DRILL_ORDER.every(id => modules[id]?.completed)]. *)
Definition allDrillsCompleted (m : gmap string Drill.t) : bool :=
  forallb (fun id => match m !! id with
                     | Some r => Drill.completed r
                     | None => false
                     end) DRILL_ORDER.

Definition checkDrillAchievements (progress : Progress) (drillId : string)
    (stats : Stats) : Progress :=
  let d := drills progress in
  let achievements := DrillStage.achievements d in
  let achievements :=
    award (jsLt (avgTime stats) 2000) "speed-demon" achievements in
  let achievements :=
    award (jsEq (accuracy stats) 100) "perfect-run" achievements in
  let achievements :=
    award (jsGe (bestStreak stats) 25) "on-fire" achievements in
  let allCompleted := allDrillsCompleted (DrillStage.modules d) in
  let achievements := award allCompleted "drill-master" achievements in
  mkProgress
    (DrillStage.mk (DrillStage.unlocked d) (DrillStage.completed d)
       (DrillStage.modules d) (DrillStage.totalAttempts d) achievements)
    (scenarios progress) (fullHandsUnlocked progress) (lastUpdated progress).

(** The counters and bests of one drill record after an attempt. *)
Definition recordDrillStats (now : string) (stats : Stats) (drill : Drill.t)
  : Drill.t :=
  let attempts := Drill.attempts drill + 1 in
  let bestScore :=
    match accuracy stats with
    | Some a => if jsGt (Some a) (Drill.bestScore drill) then a
                else Drill.bestScore drill
    | None => Drill.bestScore drill
    end in
  let bestStreak :=
    match bestStreak stats with
    | Some b => if jsGt (Some b) (Drill.bestStreak drill) then b
                else Drill.bestStreak drill
    | None => Drill.bestStreak drill
    end in
  let bestTime :=
    match avgTime stats with
    | Some t =>
        if truthy (Some t) &&
           match Drill.bestTime drill with
           | None => true
           | Some old => jsLt (Some t) old
           end
        then Some t else Drill.bestTime drill
    | None => Drill.bestTime drill
    end in
  Drill.mk (Drill.unlocked drill) (Drill.completed drill) bestScore bestStreak
    bestTime attempts (Some now).

Definition setDrillCompleted (r : Drill.t) : Drill.t :=
  Drill.mk (Drill.unlocked r) true (Drill.bestScore r) (Drill.bestStreak r)
    (Drill.bestTime r) (Drill.attempts r) (Drill.lastAttempt r).

(** Unlock the drill after [drillId] in [DRILL_ORDER], when there is one. *)
Definition unlockNextDrill (drillId : string) (m : gmap string Drill.t)
  : gmap string Drill.t :=
  let currentIndex := indexOfStr DRILL_ORDER drillId in
  if (0 <=? currentIndex) &&
     (currentIndex <? Z.of_nat (List.length DRILL_ORDER) - 1)
  then
    match nth_error DRILL_ORDER (Z.to_nat (currentIndex + 1)) with
    | Some nextDrillId =>
        match m !! nextDrillId with
        | Some next => <[nextDrillId := Drill.setUnlocked next]> m
        | None => m
        end
    | None => m
    end
  else m.

(** [updateDrillProgress]. The guard [!drillData?.modules[drillId]] reads a
    plain object: an id that names no record but an inherited member passes
    it. The counters of the attempt are then written on that member, which
    is no part of the document; the threshold read for such an id is an
    inherited member too, which no accuracy reaches. The stage's
    [totalAttempts] is counted and the document saved all the same. *)
Definition updateDrillProgress (now : string) (drillId : string)
    (stats : Stats) (progress : Progress) : Progress * bool :=
  let drillData := drills progress in
  match DrillStage.modules drillData !! drillId with
  | None =>
      if inheritedMember drillId then
        saveProgress now
          (mkProgress
             (DrillStage.mk (DrillStage.unlocked drillData)
                (DrillStage.completed drillData) (DrillStage.modules drillData)
                (DrillStage.totalAttempts drillData + 1)
                (DrillStage.achievements drillData))
             (scenarios progress) (fullHandsUnlocked progress)
             (lastUpdated progress))
      else (progress, false)
  | Some drill =>
      let threshold := orDefault (lookupKey DRILL_THRESHOLDS drillId) 70 in
      let passed :=
        negb (inheritedMember drillId) && jsGe (accuracy stats) threshold in
      let drill := recordDrillStats now stats drill in
      let totalAttempts := DrillStage.totalAttempts drillData + 1 in
      let modules := <[drillId := drill]> (DrillStage.modules drillData) in
      if passed && negb (Drill.completed drill) then
        let modules := <[drillId := setDrillCompleted drill]> modules in
        let modules := unlockNextDrill drillId modules in
        let allCompleted := allDrillsCompleted modules in
        let progress :=
          mkProgress
            (DrillStage.mk (DrillStage.unlocked drillData)
               (if allCompleted then true else DrillStage.completed drillData)
               modules totalAttempts (DrillStage.achievements drillData))
            (if allCompleted then
               ScenarioStage.mk true
                 (ScenarioStage.completed (scenarios progress))
                 (ScenarioStage.modules (scenarios progress))
                 (ScenarioStage.achievements (scenarios progress))
             else scenarios progress)
            (fullHandsUnlocked progress) (lastUpdated progress) in
        saveProgress now (checkDrillAchievements progress drillId stats)
      else
        saveProgress now
          (mkProgress
             (DrillStage.mk (DrillStage.unlocked drillData)
                (DrillStage.completed drillData) modules totalAttempts
                (DrillStage.achievements drillData))
             (scenarios progress) (fullHandsUnlocked progress)
             (lastUpdated progress))
  end.

(** [SCENARIO_ORDER.every(id => modules[id]?.completed)] and its variants
    over other lists of ids. *)
Definition everyCompleted (ids : list string) (m : gmap string Scenario.t)
  : bool :=
  forallb (fun id => match m !! id with
                     | Some r => Scenario.completed r
                     | None => false
                     end) ids.

(** [ids.every(id => modules[id]?.bestScore >= floor)]. *)
Definition everyScoreAtLeast (floor : Q) (ids : list string)
    (m : gmap string Scenario.t) : bool :=
  forallb (fun id => match m !! id with
                     | Some r => Qle_bool floor (Scenario.bestScore r)
                     | None => false
                     end) ids.

(** [TIER_1_SCENARIOS.filter(id => modules[id]?.bestScore >= 75).length]. *)
Definition tier1Completed (m : gmap string Scenario.t) : Z :=
  Z.of_nat (List.length
    (List.filter (fun id => match m !! id with
                            | Some r => Qle_bool 75 (Scenario.bestScore r)
                            | None => false
                            end) TIER_1_SCENARIOS)).

Definition checkScenarioAchievements (progress : Progress)
    (scenarioId : string) (stats : Stats) : Progress :=
  let sc := scenarios progress in
  let m := ScenarioStage.modules sc in
  let achievements := ScenarioStage.achievements sc in
  let achievements :=
    award (jsEq (accuracy stats) 100) "perfect-decisions" achievements in
  let allCompleted := everyCompleted SCENARIO_ORDER m in
  let achievements := award allCompleted "scenario-solver" achievements in
  let preflopScenarios :=
    ["defend-3bet"; "bb-defense"; "3bet-value"; "sb-3bet-fold"; "cold-4bet"] in
  let preflopCompleted := everyCompleted preflopScenarios m in
  let achievements := award preflopCompleted "preflop-master" achievements in
  let threeBetScenarios := ["3bet-value"; "sb-3bet-fold"] in
  let threeBetMastered := everyScoreAtLeast 85 threeBetScenarios m in
  let achievements := award threeBetMastered "3bet-specialist" achievements in
  let defenseScenarios := ["defend-3bet"; "bb-defense"] in
  let defenseMastered := everyScoreAtLeast 85 defenseScenarios m in
  let achievements := award defenseMastered "defender" achievements in
  mkProgress (drills progress)
    (ScenarioStage.mk (ScenarioStage.unlocked sc) (ScenarioStage.completed sc)
       m achievements)
    (fullHandsUnlocked progress) (lastUpdated progress).

(** The counters and best score of one scenario record after an attempt. *)
Definition recordScenarioStats (now : string) (stats : Stats)
    (scenario : Scenario.t) : Scenario.t :=
  let attempts := Scenario.attempts scenario + 1 in
  let bestScore :=
    match accuracy stats with
    | Some a => if jsGt (Some a) (Scenario.bestScore scenario) then a
                else Scenario.bestScore scenario
    | None => Scenario.bestScore scenario
    end in
  Scenario.mk (Scenario.unlocked scenario) (Scenario.completed scenario)
    bestScore attempts (Some now).

Definition setScenarioCompleted (r : Scenario.t) : Scenario.t :=
  Scenario.mk (Scenario.unlocked r) true (Scenario.bestScore r)
    (Scenario.attempts r) (Scenario.lastAttempt r).

(** [if (tier1Completed >= 2 && modules['cold-4bet'])
      modules['cold-4bet'].unlocked = true]. *)
Definition unlockCold4bet (m : gmap string Scenario.t)
  : gmap string Scenario.t :=
  if 2 <=? tier1Completed m then
    match m !! "cold-4bet" with
    | Some r => <["cold-4bet" := Scenario.setUnlocked r]> m
    | None => m
    end
  else m.

(** [updateScenarioProgress]; the guard and the threshold read plain
    objects as in [updateDrillProgress]. *)
Definition updateScenarioProgress (now : string) (scenarioId : string)
    (stats : Stats) (progress : Progress) : Progress * bool :=
  let scenarioData := scenarios progress in
  match ScenarioStage.modules scenarioData !! scenarioId with
  | None =>
      if inheritedMember scenarioId then saveProgress now progress
      else (progress, false)
  | Some scenario =>
      let threshold :=
        orDefault (lookupKey SCENARIO_THRESHOLDS scenarioId) 75 in
      let passed :=
        negb (inheritedMember scenarioId)
        && jsGe (accuracy stats) threshold in
      let scenario := recordScenarioStats now stats scenario in
      let modules :=
        <[scenarioId := scenario]> (ScenarioStage.modules scenarioData) in
      if passed && negb (Scenario.completed scenario) then
        let modules :=
          <[scenarioId := setScenarioCompleted scenario]> modules in
        let modules := unlockCold4bet modules in
        let allCompleted := everyCompleted SCENARIO_ORDER modules in
        let progress :=
          mkProgress (drills progress)
            (ScenarioStage.mk (ScenarioStage.unlocked scenarioData)
               (if allCompleted then true
                else ScenarioStage.completed scenarioData)
               modules (ScenarioStage.achievements scenarioData))
            (if allCompleted then true else fullHandsUnlocked progress)
            (lastUpdated progress) in
        saveProgress now (checkScenarioAchievements progress scenarioId stats)
      else
        saveProgress now
          (mkProgress (drills progress)
             (ScenarioStage.mk (ScenarioStage.unlocked scenarioData)
                (ScenarioStage.completed scenarioData) modules
                (ScenarioStage.achievements scenarioData))
             (fullHandsUnlocked progress) (lastUpdated progress))
  end.

(** [getScenarioThreshold], for an id that names no inherited member. *)
Definition getScenarioThreshold (scenarioId : string) : Q :=
  orDefault (lookupKey SCENARIO_THRESHOLDS scenarioId) 75.

(** A call of the store's attempt recorder, for a drill or a scenario. *)
Inductive Attempt :=
| DrillAttempt (now : string) (drillId : string) (stats : Stats)
| ScenarioAttempt (now : string) (scenarioId : string) (stats : Stats).

Definition recordAttempt (a : Attempt) (p : Progress) : Progress :=
  match a with
  | DrillAttempt now id stats => fst (updateDrillProgress now id stats p)
  | ScenarioAttempt now id stats => fst (updateScenarioProgress now id stats p)
  end.

(** The document after a sequence of attempts, first attempt first. *)
Definition recordAttempts (l : list Attempt) (p : Progress) : Progress :=
  fold_left (fun p a => recordAttempt a p) l p.

(** Scenario records of [DEFAULT_PROGRESS]. *)
Definition defaultScenario (unlocked : bool) : Scenario.t :=
  Scenario.mk unlocked false 0 0 None.

Definition defaultDrill (unlocked : bool) : Drill.t :=
  Drill.mk unlocked false 0 0 None 0 None.

Definition DEFAULT_PROGRESS : Progress :=
  mkProgress
    (DrillStage.mk false false
       (list_to_map
          [("hand-ranking", defaultDrill true);
           ("open-fold", defaultDrill false);
           ("equity-snap", defaultDrill false);
           ("range-check", defaultDrill false);
           ("position-speed", defaultDrill false)])
       0 [])
    (ScenarioStage.mk false false
       (list_to_map
          [("defend-3bet", defaultScenario true);
           ("bb-defense", defaultScenario true);
           ("3bet-value", defaultScenario true);
           ("sb-3bet-fold", defaultScenario true);
           ("cold-4bet", defaultScenario false);
           ("board-texture", defaultScenario true)])
       [])
    false None.

Arguments allDrillsCompleted : simpl never.
Arguments everyCompleted : simpl never.
Arguments everyScoreAtLeast : simpl never.
Arguments tier1Completed : simpl never.
Arguments award : simpl never.
Arguments unlockNextDrill : simpl never.
Arguments unlockCold4bet : simpl never.
Arguments recordDrillStats : simpl never.
Arguments recordScenarioStats : simpl never.

(** A sample session summary: 80 percent, 1.5 seconds per question. *)
Definition sampleStats : Stats := mkStats (Some 80%Q) None (Some 1500%Q).

(** ** Orders on progress records, for the monotonicity properties *)

(** [keeps R o o']: a record present before is present after and related. *)
Definition keeps {A} (R : A -> A -> Prop) (o o' : option A) : Prop :=
  match o with
  | Some r => match o' with Some r' => R r r' | None => False end
  | None => True
  end.

(** Maps whose records all stay present and related. *)
Definition mapKeeps {A} (R : A -> A -> Prop) (m m' : gmap string A) : Prop :=
  forall id, keeps R (m !! id) (m' !! id).

(** A best time, once set, stays set and does not increase. *)
Definition timeNotWorse (old new : option Q) : Prop :=
  match old with
  | Some t => match new with Some t' => (t' <= t)%Q | None => False end
  | None => True
  end.

Definition drillNotWorse (r r' : Drill.t) : Prop :=
  (Drill.bestScore r <= Drill.bestScore r')%Q /\
  (Drill.bestStreak r <= Drill.bestStreak r')%Q /\
  timeNotWorse (Drill.bestTime r) (Drill.bestTime r') /\
  Bool.le (Drill.completed r) (Drill.completed r').

Definition scenarioNotWorse (r r' : Scenario.t) : Prop :=
  (Scenario.bestScore r <= Scenario.bestScore r')%Q /\
  Bool.le (Scenario.completed r) (Scenario.completed r').

Definition drillModules (p : Progress) : gmap string Drill.t :=
  DrillStage.modules (drills p).

Definition scenarioModules (p : Progress) : gmap string Scenario.t :=
  ScenarioStage.modules (scenarios p).

(** ['cold-4bet'] is present and unlocked. *)
Definition cold4betUnlocked (p : Progress) : bool :=
  match scenarioModules p !! "cold-4bet" with
  | Some c => Scenario.unlocked c
  | None => false
  end.

(** The attempt turned scenario [id] from not completed to completed. *)
Definition newlyCompleted (id : string) (p p' : Progress) : Prop :=
  exists r r',
    scenarioModules p !! id = Some r /\ Scenario.completed r = false /\
    scenarioModules p' !! id = Some r' /\ Scenario.completed r' = true.

End Storage.

(** * Progress store: queries (storage.js) *)

Module StorageQueries.

Import Storage.

(** [getDrillThreshold], for an id that names no inherited member (for one
    that does, [DRILL_THRESHOLDS[drillId]] is that member, not a number). *)
Definition getDrillThreshold (drillId : string) : Q :=
  orDefault (lookupKey DRILL_THRESHOLDS drillId) 70.

(** [isDrillUnlocked]: [modules[drillId]?.unlocked || false]. *)
Definition isDrillUnlocked (drillId : string) (p : Progress) : bool :=
  match drillModules p !! drillId with
  | Some r => Drill.unlocked r
  | None => false
  end.

(** [isDrillCompleted]. *)
Definition isDrillCompleted (drillId : string) (p : Progress) : bool :=
  match drillModules p !! drillId with
  | Some r => Drill.completed r
  | None => false
  end.

(** [isScenarioUnlocked]: false while the scenarios stage is locked. *)
Definition isScenarioUnlocked (scenarioId : string) (p : Progress) : bool :=
  if negb (ScenarioStage.unlocked (scenarios p)) then false
  else match scenarioModules p !! scenarioId with
       | Some r => Scenario.unlocked r
       | None => false
       end.

(** [modules[scenarioId]?.unlocked], the record's own flag, as
    [getCurrentScenario] reads it. *)
Definition scenarioRecordUnlocked (scenarioId : string) (p : Progress) : bool :=
  match scenarioModules p !! scenarioId with
  | Some r => Scenario.unlocked r
  | None => false
  end.

(** [isScenarioCompleted]. *)
Definition isScenarioCompleted (scenarioId : string) (p : Progress) : bool :=
  match scenarioModules p !! scenarioId with
  | Some r => Scenario.completed r
  | None => false
  end.

(** [getCurrentDrill]: the first drill of [DRILL_ORDER] that is unlocked and
    not completed, else the first unlocked one, else [DRILL_ORDER[0]]. A
    document without a drills stage, for which the source returns [null], is
    not a [Progress]. *)
Definition getCurrentDrill (p : Progress) : string :=
  match List.find (fun drillId =>
                     match drillModules p !! drillId with
                     | Some drill => Drill.unlocked drill
                                     && negb (Drill.completed drill)
                     | None => false
                     end) DRILL_ORDER with
  | Some drillId => drillId
  | None =>
      match List.find (fun drillId =>
                         match drillModules p !! drillId with
                         | Some drill => Drill.unlocked drill
                         | None => false
                         end) DRILL_ORDER with
      | Some drillId => drillId
      | None => "hand-ranking"
      end
  end.

(** [getCurrentScenario]: the same search over [SCENARIO_ORDER]. *)
Definition getCurrentScenario (p : Progress) : string :=
  match List.find (fun scenarioId =>
                     match scenarioModules p !! scenarioId with
                     | Some scenario => Scenario.unlocked scenario
                                        && negb (Scenario.completed scenario)
                     | None => false
                     end) SCENARIO_ORDER with
  | Some scenarioId => scenarioId
  | None =>
      match List.find (fun scenarioId =>
                         match scenarioModules p !! scenarioId with
                         | Some scenario => Scenario.unlocked scenario
                         | None => false
                         end) SCENARIO_ORDER with
      | Some scenarioId => scenarioId
      | None => "defend-3bet"
      end
  end.

(** [checkScenariosUnlock]: at least three drills of [DRILL_ORDER] with a
    best score of 80 or more, or completed. The [false] for a document
    without drill modules does not arise for a [Progress]. *)
Definition checkScenariosUnlock (p : Progress) : bool :=
  (3 <=? List.length
     (List.filter (fun id => match drillModules p !! id with
                             | Some drill => Qle_bool 80 (Drill.bestScore drill)
                                             || Drill.completed drill
                             | None => false
                             end) DRILL_ORDER))%nat.

(** The drill that [updateDrillProgress] unlocks when [drillId] is passed:
    [DRILL_ORDER[currentIndex + 1]], when [currentIndex] is at least 0 and
    below [DRILL_ORDER.length - 1]. *)
Definition followingDrill (drillId : string) : option string :=
  let currentIndex := indexOfStr DRILL_ORDER drillId in
  if (0 <=? currentIndex) &&
     (currentIndex <? Z.of_nat (List.length DRILL_ORDER) - 1)
  then nth_error DRILL_ORDER (Z.to_nat (currentIndex + 1))
  else None.

(** An attempt with these statistics passes the drill's threshold and the
    drill was not completed before. *)
Definition newlyPassesDrill (drillId : string) (stats : Stats) (r : Drill.t)
  : bool :=
  negb (inheritedMember drillId)
  && jsGe (accuracy stats) (getDrillThreshold drillId)
  && negb (Drill.completed r).

Definition newlyPassesScenario (scenarioId : string) (stats : Stats)
    (r : Scenario.t) : bool :=
  negb (inheritedMember scenarioId)
  && jsGe (accuracy stats) (getScenarioThreshold scenarioId)
  && negb (Scenario.completed r).

(** The record of drill [other] after an attempt on drill [id]; [newly]
    says whether the attempt newly completed drill [id]. *)
Definition drillAfter (now id : string) (stats : Stats) (other : string)
    (newly : bool) (r0 : Drill.t) : Drill.t :=
  let r1 :=
    if bool_decide (other = id)
    then (if newly then setDrillCompleted (recordDrillStats now stats r0)
          else recordDrillStats now stats r0)
    else r0 in
  if newly && bool_decide (followingDrill id = Some other)
  then Drill.setUnlocked r1 else r1.

(** The record of scenario [other] after an attempt on scenario [id];
    [unlock] says whether two first-tier scenarios then have a best score of
    75 or more. *)
Definition scenarioAfter (now id : string) (stats : Stats) (other : string)
    (newly unlock : bool) (r0 : Scenario.t) : Scenario.t :=
  let r1 :=
    if bool_decide (other = id)
    then (if newly then setScenarioCompleted (recordScenarioStats now stats r0)
          else recordScenarioStats now stats r0)
    else r0 in
  if newly && unlock && bool_decide ("cold-4bet" = other)
  then Scenario.setUnlocked r1 else r1.

(** A document with other counters: the attempt counter of the drills
    stage and the stamp of the last save. *)
Definition withCounters (total : Z) (stamp : option string) (p : Progress)
  : Progress :=
  mkProgress
    (DrillStage.mk (DrillStage.unlocked (drills p))
       (DrillStage.completed (drills p)) (DrillStage.modules (drills p))
       total (DrillStage.achievements (drills p)))
    (scenarios p) (fullHandsUnlocked p) stamp.

(** The attempt is a drill attempt on an id that names an inherited
    member. *)
Definition namesInherited (a : Attempt) : bool :=
  match a with
  | DrillAttempt _ drillId _ => inheritedMember drillId
  | ScenarioAttempt _ _ _ => false
  end.

(** Every completed unit has a best score at or above its threshold. *)
Definition thresholdsMet (p : Progress) : Prop :=
  (forall id r, drillModules p !! id = Some r -> Drill.completed r = true ->
     (getDrillThreshold id <= Drill.bestScore r)%Q) /\
  (forall id r, scenarioModules p !! id = Some r -> Scenario.completed r = true ->
     (getScenarioThreshold id <= Scenario.bestScore r)%Q).

(** The stage flags say what the records say: a stage is completed exactly
    when all its units are, and the next stage is unlocked exactly then. *)
Definition stagesFollowRecords (p : Progress) : Prop :=
  DrillStage.completed (drills p) = allDrillsCompleted (drillModules p) /\
  ScenarioStage.unlocked (scenarios p) = DrillStage.completed (drills p) /\
  ScenarioStage.completed (scenarios p) =
    everyCompleted SCENARIO_ORDER (scenarioModules p) /\
  fullHandsUnlocked p = ScenarioStage.completed (scenarios p).

(** The store holds a record for exactly the ids of the two order lists. *)
Definition knownIds (p : Progress) : Prop :=
  (forall id, is_Some (drillModules p !! id) <-> In id DRILL_ORDER) /\
  (forall id, is_Some (scenarioModules p !! id) <-> In id SCENARIO_ORDER).

(** Each drill after the first is unlocked exactly when the drill before it
    is completed. *)
Definition curriculumOrder (p : Progress) : Prop :=
  isDrillUnlocked "hand-ranking" p = true /\
  forall id next, followingDrill id = Some next ->
    isDrillUnlocked next p = isDrillCompleted id p.

(** The sum of the attempt counters of the drills of [DRILL_ORDER]. *)
Definition drillAttemptsSum (p : Progress) : Z :=
  fold_right Z.add 0
    (List.map (fun id => match drillModules p !! id with
                         | Some r => Drill.attempts r
                         | None => 0
                         end) DRILL_ORDER).

(** Both achievement lists are free of duplicates. *)
Definition achievementsDistinct (p : Progress) : Prop :=
  List.NoDup (DrillStage.achievements (drills p)) /\
  List.NoDup (ScenarioStage.achievements (scenarios p)).

(** No unlocked flag of [p] is cleared in [p']: not on a drill record, not on
    a scenario record, not on the scenarios stage, not on the full-hands
    stage. *)
Definition unlockedKept (p p' : Progress) : Prop :=
  mapKeeps (fun r r' => Bool.le (Drill.unlocked r) (Drill.unlocked r'))
    (drillModules p) (drillModules p') /\
  mapKeeps (fun r r' => Bool.le (Scenario.unlocked r) (Scenario.unlocked r'))
    (scenarioModules p) (scenarioModules p') /\
  Bool.le (ScenarioStage.unlocked (scenarios p))
          (ScenarioStage.unlocked (scenarios p')) /\
  Bool.le (fullHandsUnlocked p) (fullHandsUnlocked p').

End StorageQueries.

(** * Scenario engine (ScenarioEngine class) *)

Module Engine.

(** [Math.round] on a rational: the nearest integer, the larger on a tie.
    Numbers are exact rationals here, where the code computes with doubles:
    the two can differ where the exact value is a tie (or within a rounding
    error of one), as for 23 of 40, which is 57.5 exactly and
    57.49999999999999 as a double product. No statement below depends on
    the value at such a point. *)
Definition mathRound (q : Q) : Z := Qfloor (q + (1 # 2))%Q.

Section ScenarioEngine.

(** The engine is generic in what a question, an answer, an explanation and
    a range display are. *)
Variables QuestionData Answer Explanation RangeDisplay : Type.

Record Validation := mkValidation {
  valid : bool;               (* validation.correct *)
  validAnswer : Answer        (* validation.correctAnswer *)
}.

Record AnswerRecord := mkAnswerRecord {
  questionNumber : Z;
  questionData : QuestionData;
  playerAnswer : Answer;
  correctAnswer : Answer;
  isCorrect : bool;
  time : Q;
  explanation : Explanation
}.

Record CategoryStat := mkCategoryStat { total : Z; categoryCorrect : Z }.

Record State := mkState {
  active : bool;
  currentQuestion : Z;
  correct : Z;
  currentQuestionData : option QuestionData;
  questionStartTime : Q;
  questionTimes : list Q;
  answers : list AnswerRecord;
  categoryStats : gmap string CategoryStat
}.

(** [this.config]; [category] reads [questionData.category] ([None] when the
    generator sets none). The generator, validator and explainer are taken
    to be pure functions of their arguments. *)
Record Config := mkConfig {
  id : string;
  name : string;
  totalQuestions : Z;
  generateQuestion : State -> QuestionData;
  validateAnswer : Answer -> QuestionData -> Validation;
  getExplanation : QuestionData -> Validation -> Explanation;
  getRangeDisplay : option (QuestionData -> RangeDisplay);
  category : QuestionData -> option string
}.

(** The constructor's [config.totalQuestions || 20]. *)
Definition construct (cfg : Config) : Config :=
  mkConfig (id cfg) (name cfg)
    (if totalQuestions cfg =? 0 then 20 else totalQuestions cfg)
    (generateQuestion cfg) (validateAnswer cfg) (getExplanation cfg)
    (getRangeDisplay cfg) (category cfg).

(** An engine together with the persisted progress document it writes to
    when a scenario ends. The callbacks ([onQuestionReady], [onAnswerResult],
    [onScenarioEnd], [onStatsUpdate]) only notify the page and are left out. *)
Record World := mkWorld {
  state : State;
  store : Storage.Progress
}.

Record StatsView := mkStatsView {
  sv_currentQuestion : Z;
  sv_totalQuestions : Z;
  sv_correct : Z;
  sv_total : Z;
  sv_accuracy : Z
}.

Record Result := mkResult {
  res_isCorrect : bool;
  res_playerAnswer : Answer;
  res_correctAnswer : Answer;
  res_explanation : Explanation;
  res_rangeDisplay : option RangeDisplay;
  res_time : Q;
  res_stats : StatsView
}.

Variable cfg : Config.

Definition initialState : State :=
  mkState false 0 0 None 0 [] [] ∅.

Definition reset (w : World) : World := mkWorld initialState (store w).

Definition setActive (b : bool) (s : State) : State :=
  mkState b (currentQuestion s) (correct s) (currentQuestionData s)
    (questionStartTime s) (questionTimes s) (answers s) (categoryStats s).

Definition stop (w : World) : World :=
  mkWorld (setActive false (state w)) (store w).

Definition getStats (s : State) : StatsView :=
  let total := currentQuestion s in
  let correct := correct s in
  let accuracy :=
    if 0 <? total
    then mathRound ((inject_Z correct / inject_Z total) * 100)%Q
    else 0 in
  mkStatsView (currentQuestion s) (totalQuestions cfg) correct total accuracy.

Definition sumQ (l : list Q) : Q := fold_left Qplus l 0%Q.

(** [Math.min(...times)] for a non-empty list. *)
Definition minQ (x : Q) (l : list Q) : Q :=
  fold_left (fun m y => if Qle_bool y m then y else m) l x.

(** [getFinalStats], as the summary the store reads: [accuracy] and
    [avgTime]; the summary carries no [bestStreak]. The constructor never
    leaves [totalQuestions] at 0; [None] stands for the division by zero
    that a hand-made configuration would cause. The sum and the quotient of
    [avgTime] are exact here and rounded at every step in the code, so the
    value of [avgTime] is that of the code only up to rounding. *)
Definition getFinalStats (s : State) : Storage.Stats :=
  let total := totalQuestions cfg in
  let accuracy :=
    if total =? 0 then None
    else Some (inject_Z
           (mathRound ((inject_Z (correct s) / inject_Z total) * 100)%Q)) in
  let avgTime :=
    if (0 <? List.length (questionTimes s))%nat
    then (sumQ (questionTimes s)
          / inject_Z (Z.of_nat (List.length (questionTimes s))))%Q
    else 0%Q in
  Storage.mkStats accuracy None (Some avgTime).

(** [fastestTime] of [getFinalStats]. *)
Definition fastestTime (s : State) : Q :=
  match questionTimes s with
  | [] => 0%Q
  | x :: l => minQ x l
  end.

(** [endScenario]: the only place that writes the progress store. [stamp] is
    the date string the store records. *)
Definition endScenario (stamp : string) (w : World) : World :=
  let s := setActive false (state w) in
  let stats := getFinalStats s in
  mkWorld s (fst (Storage.updateScenarioProgress stamp (id cfg) stats (store w))).

(** [nextQuestion]; [now] is the reading of [performance.now()]. *)
Definition nextQuestion (now : Q) (stamp : string) (w : World) : World :=
  let s := state w in
  if negb (active s) then w
  else if totalQuestions cfg <=? currentQuestion s then endScenario stamp w
  else
    let s1 :=
      mkState (active s) (currentQuestion s + 1) (correct s)
        (currentQuestionData s) now (questionTimes s) (answers s)
        (categoryStats s) in
    let s2 :=
      mkState (active s1) (currentQuestion s1) (correct s1)
        (Some (generateQuestion cfg s1)) (questionStartTime s1)
        (questionTimes s1) (answers s1) (categoryStats s1) in
    mkWorld s2 (store w).

Definition start (now : Q) (stamp : string) (w : World) : World :=
  let w := reset w in
  let w := mkWorld (setActive true (state w)) (store w) in
  nextQuestion now stamp w.

(** [categoryStats[category].total++] and, for a correct answer,
    [categoryStats[category].correct++] on a counter that exists. *)
Definition countInCategory (cat : string) (isCorrect : bool)
    (m : gmap string CategoryStat) : gmap string CategoryStat :=
  let m := alter (fun c => mkCategoryStat (total c + 1) (categoryCorrect c)) cat m in
  if isCorrect
  then alter (fun c => mkCategoryStat (total c) (categoryCorrect c + 1)) cat m
  else m.

(** [categoryStats[category]] created on first use, then counted. The test
    [!this.state.categoryStats[category]] reads a plain object: for a
    category that has no counter and names an inherited member the test
    finds that member, no counter is created, and the two increments are
    written on the member, which is no part of [categoryStats]. *)
Definition bumpCategory (cat : string) (isCorrect : bool)
    (m : gmap string CategoryStat) : gmap string CategoryStat :=
  match m !! cat with
  | Some _ => countInCategory cat isCorrect m
  | None =>
      if inheritedMember cat then m
      else countInCategory cat isCorrect (<[cat := mkCategoryStat 0 0]> m)
  end.

(** [category || 'default']. *)
Definition categoryOf (q : QuestionData) : string :=
  match category cfg q with
  | Some c => if String.eqb c "" then "default" else c
  | None => "default"
  end.

(** [submitAnswer]; [None] is the [null] result. *)
Definition submitAnswer (now : Q) (answer : Answer) (w : World)
  : World * option Result :=
  let s := state w in
  match active s, currentQuestionData s with
  | true, Some q =>
      let questionTime := (now - questionStartTime s)%Q in
      let questionTimes := (questionTimes s ++ [questionTime])%list in
      let validation := validateAnswer cfg answer q in
      let isCorrect := valid validation in
      let correct := if isCorrect then correct s + 1 else correct s in
      let categoryStats :=
        bumpCategory (categoryOf q) isCorrect (categoryStats s) in
      let explanation := getExplanation cfg q validation in
      let rangeDisplay :=
        match getRangeDisplay cfg with
        | Some f => Some (f q)
        | None => None
        end in
      let answerRecord :=
        mkAnswerRecord (currentQuestion s) q answer (validAnswer validation)
          isCorrect questionTime explanation in
      let s' :=
        mkState (active s) (currentQuestion s) correct (currentQuestionData s)
          (questionStartTime s) questionTimes
          (answers s ++ [answerRecord])%list categoryStats in
      (mkWorld s' (store w),
       Some (mkResult isCorrect answer (validAnswer validation) explanation
               rangeDisplay questionTime (getStats s')))
  | _, _ => (w, None)
  end.

(** Calls a page makes on a running engine. *)
Inductive Call :=
| CallStop
| CallNext (now : Q) (stamp : string)
| CallSubmit (now : Q) (answer : Answer).

Definition call (c : Call) (w : World) : World :=
  match c with
  | CallStop => stop w
  | CallNext now stamp => nextQuestion now stamp w
  | CallSubmit now answer => fst (submitAnswer now answer w)
  end.

Definition calls (l : list Call) (w : World) : World :=
  fold_left (fun w c => call c w) l w.

(** A state in which [submitAnswer] is accepted. *)
Definition answerable (s : State) : bool :=
  active s && match currentQuestionData s with Some _ => true | None => false end.

End ScenarioEngine.

Arguments mkValidation {Answer}.
Arguments valid {Answer}.
Arguments validAnswer {Answer}.
Arguments mkAnswerRecord {QuestionData Answer Explanation}.
Arguments questionNumber {QuestionData Answer Explanation}.
Arguments questionData {QuestionData Answer Explanation}.
Arguments playerAnswer {QuestionData Answer Explanation}.
Arguments correctAnswer {QuestionData Answer Explanation}.
Arguments isCorrect {QuestionData Answer Explanation}.
Arguments time {QuestionData Answer Explanation}.
Arguments explanation {QuestionData Answer Explanation}.
Arguments mkState {QuestionData Answer Explanation}.
Arguments active {QuestionData Answer Explanation}.
Arguments currentQuestion {QuestionData Answer Explanation}.
Arguments correct {QuestionData Answer Explanation}.
Arguments currentQuestionData {QuestionData Answer Explanation}.
Arguments questionStartTime {QuestionData Answer Explanation}.
Arguments questionTimes {QuestionData Answer Explanation}.
Arguments answers {QuestionData Answer Explanation}.
Arguments categoryStats {QuestionData Answer Explanation}.
Arguments mkConfig {QuestionData Answer Explanation RangeDisplay}.
Arguments id {QuestionData Answer Explanation RangeDisplay}.
Arguments name {QuestionData Answer Explanation RangeDisplay}.
Arguments totalQuestions {QuestionData Answer Explanation RangeDisplay}.
Arguments generateQuestion {QuestionData Answer Explanation RangeDisplay}.
Arguments validateAnswer {QuestionData Answer Explanation RangeDisplay}.
Arguments getExplanation {QuestionData Answer Explanation RangeDisplay}.
Arguments getRangeDisplay {QuestionData Answer Explanation RangeDisplay}.
Arguments category {QuestionData Answer Explanation RangeDisplay}.
Arguments construct {QuestionData Answer Explanation RangeDisplay}.
Arguments mkWorld {QuestionData Answer Explanation}.
Arguments state {QuestionData Answer Explanation}.
Arguments store {QuestionData Answer Explanation}.
Arguments mkResult {Answer Explanation RangeDisplay}.
Arguments res_isCorrect {Answer Explanation RangeDisplay}.
Arguments res_playerAnswer {Answer Explanation RangeDisplay}.
Arguments res_correctAnswer {Answer Explanation RangeDisplay}.
Arguments res_explanation {Answer Explanation RangeDisplay}.
Arguments res_rangeDisplay {Answer Explanation RangeDisplay}.
Arguments res_time {Answer Explanation RangeDisplay}.
Arguments res_stats {Answer Explanation RangeDisplay}.
Arguments initialState {QuestionData Answer Explanation}.
Arguments reset {QuestionData Answer Explanation}.
Arguments setActive {QuestionData Answer Explanation}.
Arguments stop {QuestionData Answer Explanation}.
Arguments getStats {QuestionData Answer Explanation RangeDisplay}.
Arguments getFinalStats {QuestionData Answer Explanation RangeDisplay}.
Arguments fastestTime {QuestionData Answer Explanation}.
Arguments endScenario {QuestionData Answer Explanation RangeDisplay}.
Arguments nextQuestion {QuestionData Answer Explanation RangeDisplay}.
Arguments start {QuestionData Answer Explanation RangeDisplay}.
Arguments categoryOf {QuestionData Answer Explanation RangeDisplay}.
Arguments submitAnswer {QuestionData Answer Explanation RangeDisplay}.
Arguments CallStop {Answer}.
Arguments CallNext {Answer}.
Arguments CallSubmit {Answer}.
Arguments call {QuestionData Answer Explanation RangeDisplay}.
Arguments calls {QuestionData Answer Explanation RangeDisplay}.
Arguments answerable {QuestionData Answer Explanation}.

(** The category counters a fresh category starts from. *)
Definition categoryOrZero (o : option CategoryStat) : CategoryStat :=
  match o with
  | Some c => c
  | None => mkCategoryStat 0 0
  end.

(** ** A sample scenario: questions and answers are strings, the right
    answer is always "Fold". *)

Definition sampleConfig : Config string string string string :=
  mkConfig "defend-3bet" "Defending vs 3-Bet" 20
    (fun _ => "BTN vs SB, AKs")
    (fun answer _ => mkValidation (String.eqb answer "Fold") "Fold")
    (fun _ _ => "")
    None
    (fun _ => Some "BTN-SB").

Definition sampleWorld : World string string string :=
  mkWorld initialState Storage.DEFAULT_PROGRESS.

(** The same scenario with two questions per session. *)
Definition shortConfig : Config string string string string :=
  mkConfig (id sampleConfig) (name sampleConfig) 2
    (generateQuestion sampleConfig) (validateAnswer sampleConfig)
    (getExplanation sampleConfig) (getRangeDisplay sampleConfig)
    (category sampleConfig).

(** [attempts] of a scenario's persisted record. *)
Definition attemptsOf (scenarioId : string) (p : Storage.Progress) : option Z :=
  match Storage.scenarioModules p !! scenarioId with
  | Some r => Some (Storage.Scenario.attempts r)
  | None => None
  end.

End Engine.

(** * Scenario engine: what a session has tallied *)

Module Session.

Import Engine.

Section Tallies.

Context {QuestionData Answer Explanation RangeDisplay : Type}.
Variable cfg : Config QuestionData Answer Explanation RangeDisplay.

(** The number of elements of a list that pass a test. *)
Definition countIf {A} (f : A -> bool) (l : list A) : Z :=
  Z.of_nat (List.length (List.filter f l)).

(** The answer was given to a question of category [cat]. *)
Definition inCategory (cat : string)
    (a : AnswerRecord QuestionData Answer Explanation) : bool :=
  String.eqb (categoryOf cfg (questionData a)) cat.

(** The counters of a state agree with its list of answer records; a
    category that names an inherited member has no counter. *)
Definition tallied (s : State QuestionData Answer Explanation) : Prop :=
  questionTimes s = List.map time (answers s) /\
  correct s = countIf isCorrect (answers s) /\
  forall cat,
    if inheritedMember cat then categoryStats s !! cat = None
    else
      categoryOrZero (categoryStats s !! cat) =
      mkCategoryStat (countIf (inCategory cat) (answers s))
        (countIf (fun a => inCategory cat a && isCorrect a) (answers s)).

(** How the store of a session [w] relates to the store [before] the
    session was started: untouched, or written once by [endScenario] with
    the final statistics, after the last question. *)
Definition writtenAtMostOnce (before : Storage.Progress)
    (w : World QuestionData Answer Explanation) : Prop :=
  0 <= currentQuestion (state w) <= Z.max 0 (totalQuestions cfg) /\
  (active (state w) = true -> store w = before) /\
  (store w = before \/
   exists stamp,
     active (state w) = false /\
     currentQuestion (state w) = Z.max 0 (totalQuestions cfg) /\
     store w =
       fst (Storage.updateScenarioProgress stamp (id cfg)
              (getFinalStats cfg (state w)) before)).

End Tallies.

End Session.

(** * Opening ranges (ranges data) *)

Module Ranges.

(** [new Set(array)] of strings: the elements in order of first insertion. *)
Definition setOf (l : list string) : list string :=
  fold_left (fun acc h => if existsb (String.eqb h) acc then acc
                          else (acc ++ [h])%list) l [].

(** [set.has(hand)] on a set of strings. *)
Definition setHas (s : list string) (h : string) : bool :=
  existsb (String.eqb h) s.

(** [userSet.has(hand)] on a set of normalized notations, where [null] may
    be an element. *)
Definition userHas (s : list (option string)) (h : string) : bool :=
  existsb (RangeGrid.optStringEqb (Some h)) s.

(** Opening ranges by position. A position string that names a property
    every object inherits ("constructor", "toString", ...) is outside this
    table's model. *)
Definition OPENING_RANGES : list (string * list string) :=
  [
   ("UTG",
     setOf ["AA"; "KK"; "QQ"; "JJ"; "TT"; "99"; "88"; "77"; "AKs"; "AQs";
      "AJs"; "ATs"; "KQs"; "KJs"; "QJs"; "JTs"; "AKo"; "AQo"; "AJo"; "KQo"]);
   ("MP",
     setOf ["AA"; "KK"; "QQ"; "JJ"; "TT"; "99"; "88"; "77"; "66"; "AKs";
      "AQs"; "AJs"; "ATs"; "A9s"; "KQs"; "KJs"; "KTs"; "QJs"; "QTs"; "JTs";
      "T9s"; "AKo"; "AQo"; "AJo"; "ATo"; "KQo"; "KJo"]);
   ("CO",
     setOf ["AA"; "KK"; "QQ"; "JJ"; "TT"; "99"; "88"; "77"; "66"; "55";
      "44"; "AKs"; "AQs"; "AJs"; "ATs"; "A9s"; "A8s"; "A7s"; "A6s"; "A5s";
      "A4s"; "A3s"; "A2s"; "KQs"; "KJs"; "KTs"; "K9s"; "K8s"; "K7s"; "QJs";
      "QTs"; "Q9s"; "JTs"; "T9s"; "98s"; "87s"; "76s"; "65s"; "AKo"; "AQo";
      "AJo"; "ATo"; "A9o"; "KQo"; "KJo"; "KTo"; "QJo"; "QTo"; "JTo"]);
   ("BTN",
     setOf ["AA"; "KK"; "QQ"; "JJ"; "TT"; "99"; "88"; "77"; "66"; "55";
      "44"; "33"; "22"; "AKs"; "AQs"; "AJs"; "ATs"; "A9s"; "A8s"; "A7s";
      "A6s"; "A5s"; "A4s"; "A3s"; "A2s"; "KQs"; "KJs"; "KTs"; "K9s"; "K8s";
      "K7s"; "K6s"; "K5s"; "K4s"; "K3s"; "K2s"; "QJs"; "QTs"; "Q9s"; "Q8s";
      "Q7s"; "Q6s"; "JTs"; "J9s"; "J8s"; "J7s"; "T9s"; "T8s"; "T7s"; "98s";
      "97s"; "96s"; "87s"; "86s"; "76s"; "75s"; "65s"; "64s"; "54s"; "53s";
      "43s"; "AKo"; "AQo"; "AJo"; "ATo"; "A9o"; "A8o"; "A7o"; "A6o"; "A5o";
      "A4o"; "A3o"; "A2o"; "KQo"; "KJo"; "KTo"; "K9o"; "K8o"; "QJo"; "QTo";
      "Q9o"; "JTo"; "J9o"; "T9o"; "T8o"; "98o"; "87o"]);
   ("SB",
     setOf ["AA"; "KK"; "QQ"; "JJ"; "TT"; "99"; "88"; "77"; "66"; "55";
      "44"; "33"; "22"; "AKs"; "AQs"; "AJs"; "ATs"; "A9s"; "A8s"; "A7s";
      "A6s"; "A5s"; "A4s"; "A3s"; "A2s"; "KQs"; "KJs"; "KTs"; "K9s"; "K8s";
      "K7s"; "K6s"; "K5s"; "K4s"; "QJs"; "QTs"; "Q9s"; "Q8s"; "Q7s"; "JTs";
      "J9s"; "J8s"; "T9s"; "T8s"; "98s"; "97s"; "87s"; "86s"; "76s"; "75s";
      "65s"; "64s"; "54s"; "AKo"; "AQo"; "AJo"; "ATo"; "A9o"; "A8o"; "A7o";
      "A6o"; "A5o"; "KQo"; "KJo"; "KTo"; "K9o"; "QJo"; "QTo"; "Q9o"; "JTo";
      "J9o"; "T9o"; "98o"]);
   ("BB",
     setOf [])
  ].

(** A function that returns the number 0 on one path and a string on the
    other. *)
Inductive NumOrText :=
| Num (z : Z)
| Text (s : string).

Definition isInRange (hand position : string) : outcome bool :=
  obind (Hands.normalizeHand hand) (fun normalized =>
    Value (match lookupKey OPENING_RANGES position with
           | Some range =>
               match normalized with
               | Some n => setHas range n
               | None => false
               end
           | None => false
           end)).

Definition getRangeHands (position : string) : list string :=
  match lookupKey OPENING_RANGES position with
  | Some range => range
  | None => []
  end.

Definition getRangePercentage (position : string) : NumOrText :=
  match lookupKey OPENING_RANGES position with
  | Some range =>
      Text (RangeGrid.toFixed 1
              ((inject_Z (Z.of_nat (List.length range)) / 169) * 100)%Q)
  | None => Num 0
  end.

Definition Grid := list (list bool).

(** The indices of both grid loops, 0 to 12. *)
Definition gridIndices : list nat := seq 0 13.

Definition handAt (row col : nat) : option string :=
  Hands.getHandFromGrid (Z.of_nat row) (Z.of_nat col).

(** [Array(13).fill(null).map(() => Array(13).fill(false))]. *)
Definition emptyGrid : Grid := repeat (repeat false 13) 13.

(** The double loop that assigns every cell of a fresh grid once. *)
Definition fillGrid (inSet : string -> bool) : Grid :=
  map (fun row =>
         map (fun col => match handAt row col with
                         | Some hand => inSet hand
                         | None => false
                         end) gridIndices) gridIndices.

Definition rangeToGrid (position : string) : Grid :=
  match lookupKey OPENING_RANGES position with
  | None => emptyGrid
  | Some range => fillGrid (setHas range)
  end.

Definition handsToGrid (hands : list string) : outcome Grid :=
  obind (omapM Hands.normalizeHand hands) (fun normalized =>
    let handSet := RangeGrid.newSet normalized in
    Value (fillGrid (userHas handSet))).

(** [grid[row][col]] used as a condition: a missing cell is falsy. *)
Definition cellOf (cells : list bool) (col : nat) : bool :=
  match nth_error cells col with
  | Some b => b
  | None => false
  end.

(** The hands one row of [gridToHands] pushes. *)
Definition rowHands (row : nat) (cells : list bool) : list string :=
  flat_map (fun col => if cellOf cells col
                       then match handAt row col with
                            | Some hand => [hand]
                            | None => []
                            end
                       else []) gridIndices.

(** [gridToHands]: reading a cell of a missing row throws. *)
Definition gridToHands (grid : Grid) : outcome (list string) :=
  obind (omapM (fun row => match nth_error grid row with
                           | Some cells => Value (rowHands row cells)
                           | None => TypeError
                           end) gridIndices)
        (fun rows => Value (concat rows)).

(** The 169 hands in the order the double loop visits their cells. *)
Definition gridHands : list string :=
  flat_map (fun row => flat_map (fun col => match handAt row col with
                                            | Some hand => [hand]
                                            | None => []
                                            end) gridIndices) gridIndices.

Definition getRangeSimilarity (userHands : list string) (targetPosition : string)
  : outcome NumOrText :=
  match lookupKey OPENING_RANGES targetPosition with
  | None => Value (Num 0)
  | Some targetRange =>
      obind (omapM Hands.normalizeHand userHands) (fun normalized =>
        let userSet := RangeGrid.newSet normalized in
        let targetSet := setOf targetRange in
        let matches :=
          List.length
            (List.filter (fun hand => Bool.eqb (userHas userSet hand)
                                        (setHas targetSet hand)) gridHands) in
        let total := List.length gridHands in
        Value (Text (RangeGrid.toFixed 1
                 ((inject_Z (Z.of_nat matches) / inject_Z (Z.of_nat total))
                  * 100)%Q)))
  end.

Record Difference := mkDifference {
  missing : list string;
  extra : list string
}.

Definition getRangeDifference (userHands : list string) (targetPosition : string)
  : outcome Difference :=
  match lookupKey OPENING_RANGES targetPosition with
  | None => Value (mkDifference [] [])
  | Some targetRange =>
      obind (omapM Hands.normalizeHand userHands) (fun normalized =>
        let userSet := RangeGrid.newSet normalized in
        let targetSet := setOf targetRange in
        Value (mkDifference
                 (List.filter (fun hand => setHas targetSet hand
                                           && negb (userHas userSet hand))
                    gridHands)
                 (List.filter (fun hand => negb (setHas targetSet hand
                                                 && negb (userHas userSet hand))
                                           && (userHas userSet hand
                                               && negb (setHas targetSet hand)))
                    gridHands)))
  end.

Definition getRecommendedAction (hand position : string) : outcome string :=
  obind (Hands.normalizeHand hand) (fun normalized =>
    Value (match lookupKey OPENING_RANGES position with
           | None => "fold"
           | Some range =>
               if match normalized with
                  | Some n => setHas range n
                  | None => false
                  end
               then "open" else "fold"
           end)).

Definition getPositionDifferenceHands (position1 position2 : string)
  : list string :=
  match lookupKey OPENING_RANGES position1, lookupKey OPENING_RANGES position2 with
  | Some range1, Some range2 =>
      List.filter (fun hand => negb (setHas range2 hand)) range1
  | _, _ => []
  end.

(** The hands [gridToHands] pushes for a well-formed grid. *)
Definition pickedHands (grid : Grid) : list string :=
  concat (map (fun row => rowHands row (nth row grid [])) gridIndices).

(** The cell a canonical notation sits in, read off [getGridPosition]. *)
Definition cellOfHand (h : string) : nat * nat :=
  match Hands.getGridPosition h with
  | Some p => (Z.to_nat (Hands.row p), Z.to_nat (Hands.col p))
  | None => (0%nat, 0%nat)
  end.

(** A grid of thirteen rows of thirteen cells. *)
Definition wellFormed (grid : Grid) : Prop :=
  List.length grid = 13%nat /\ Forall (fun cells => List.length cells = 13%nat) grid.

End Ranges.

(** * Board generation (board-texture data) *)

Module BoardGen.

Import BoardTexture.

Definition RANKS : list Rank :=
  [RA; RK; RQ; RJ; RT; R9; R8; R7; R6; R5; R4; R3; R2].

Definition SUITS : list Suit := [Hearts; Diamonds; Clubs; Spades].

(** The readings of [Math.random()] still to come, in the order the code
    takes them; each lies in [0,1). *)
Definition Supply := list Q.

(** A step that reads the supply. [None] means that the supply ran out or
    that a reading outside [0,1) gave an index outside its array. *)
Definition Gen (A : Type) : Type := Supply -> option (A * Supply).

Definition ret {A} (a : A) : Gen A := fun rs => Some (a, rs).

Definition bind {A B} (g : Gen A) (k : A -> Gen B) : Gen B :=
  fun rs => match g rs with
            | Some (a, rs') => k a rs'
            | None => None
            end.

Definition fail {A} : Gen A := fun _ => None.

(** [Math.floor(r * n)] as an index of an array of [n] elements. The
    product is exact here; the double product of the code can round up to
    the next integer when [r * n] lies within a rounding error below it. *)
Definition indexFor (n : nat) (r : Q) : option nat :=
  let i := Qfloor (r * inject_Z (Z.of_nat n))%Q in
  if (0 <=? i) && (i <? Z.of_nat n) then Some (Z.to_nat i) else None.

(** [Math.floor(Math.random() * n)]. *)
Definition randomIndex (n : nat) : Gen nat :=
  fun rs => match rs with
            | r :: rs' => match indexFor n r with
                          | Some i => Some (i, rs')
                          | None => None
                          end
            | [] => None
            end.

(** [array[i]] for an index that must be inside the array. *)
Definition at_ {A} (l : list A) (i : nat) : Gen A :=
  match nth_error l i with
  | Some x => ret x
  | None => fail
  end.

(** [array[Math.floor(Math.random() * array.length)]]. *)
Definition pick {A} (l : list A) : Gen A :=
  bind (randomIndex (List.length l)) (at_ l).

(** [array.splice(Math.floor(Math.random() * array.length), 1)[0]]: the
    element taken and the array without it. *)
Definition spliceOne {A} (l : list A) : Gen (A * list A) :=
  bind (randomIndex (List.length l)) (fun i =>
    bind (at_ l i) (fun x => ret (x, (firstn i l ++ skipn (S i) l)%list))).

(** The loop of [generateDryBoard]: one rank of each group, each with a
    suit taken out of the suits still available. *)
Fixpoint dryCards (rankGroups : list (list Rank)) (availableSuits : list Suit)
  : Gen (list Card) :=
  match rankGroups with
  | [] => ret []
  | group :: groups =>
      bind (pick group) (fun rank =>
      bind (spliceOne availableSuits) (fun '(suit, availableSuits) =>
      bind (dryCards groups availableSuits) (fun board =>
      ret (mkCard rank suit :: board))))
  end.

Definition generateDryBoard (exclude : list Card) : Gen (list Card) :=
  dryCards [[RA; RK; RQ]; [R9; R8; R7]; [R4; R3; R2]] SUITS.

Definition generateWetBoard (exclude : list Card) : Gen (list Card) :=
  bind (pick SUITS) (fun flushSuit =>
  bind (randomIndex 3) (fun i =>
  bind (at_ (List.filter (fun s => negb (bool_decide (s = flushSuit))) SUITS) i)
    (fun otherSuit =>
  bind (randomIndex 8) (fun j =>
    let startIdx := (j + 2)%nat in
    bind (at_ RANKS startIdx) (fun rank0 =>
    bind (at_ RANKS (startIdx + 1)) (fun rank1 =>
    bind (at_ RANKS (startIdx + 2)) (fun rank2 =>
    ret [mkCard rank0 flushSuit; mkCard rank1 flushSuit;
         mkCard rank2 otherSuit]))))))).

(** The [do ... while (thirdRank === pairRank)] loop: it reads the supply
    until a reading gives another rank. *)
Fixpoint otherRank (pairRank : Rank) (rs : Supply) : option (Rank * Supply) :=
  match rs with
  | [] => None
  | r :: rs' =>
      match indexFor (List.length RANKS) r with
      | Some i =>
          match nth_error RANKS i with
          | Some thirdRank =>
              if bool_decide (thirdRank = pairRank) then otherRank pairRank rs'
              else Some (thirdRank, rs')
          | None => None
          end
      | None => None
      end
  end.

Definition generatePairedBoard (exclude : list Card) : Gen (list Card) :=
  bind (pick RANKS) (fun pairRank =>
  bind (spliceOne SUITS) (fun '(suit1, availableSuits) =>
  bind (spliceOne availableSuits) (fun '(suit2, _) =>
  bind (otherRank pairRank) (fun thirdRank =>
  bind (pick SUITS) (fun thirdSuit =>
  ret [mkCard pairRank suit1; mkCard pairRank suit2;
       mkCard thirdRank thirdSuit]))))).

(** The loop of [generateMonotoneBoard]: [count] ranks taken out of the
    ranks still available. *)
Fixpoint monotoneCards (count : nat) (suit : Suit) (availableRanks : list Rank)
  : Gen (list Card) :=
  match count with
  | O => ret []
  | S count' =>
      bind (spliceOne availableRanks) (fun '(rank, availableRanks) =>
      bind (monotoneCards count' suit availableRanks) (fun board =>
      ret (mkCard rank suit :: board)))
  end.

Definition generateMonotoneBoard (exclude : list Card) : Gen (list Card) :=
  bind (pick SUITS) (fun suit => monotoneCards 3 suit RANKS).

(** [generateBoardWithTexture]: the [switch] falls back to a dry board. *)
Definition generateBoardWithTexture (texture : string) (exclude : list Card)
  : Gen (list Card) :=
  if String.eqb texture "dry" then generateDryBoard exclude
  else if String.eqb texture "wet" then generateWetBoard exclude
  else if String.eqb texture "paired" then generatePairedBoard exclude
  else if String.eqb texture "monotone" then generateMonotoneBoard exclude
  else generateDryBoard exclude.

(** The texture a caller asks for, as [analyzeBoardTexture] names it. *)
Definition requestedTexture (texture : string) : Texture :=
  if String.eqb texture "wet" then Wet
  else if String.eqb texture "paired" then Paired
  else if String.eqb texture "monotone" then Monotone
  else Dry.

(** The number of readings a generator takes when it needs no retry. *)
Definition drawsTaken (texture : string) : nat :=
  if String.eqb texture "wet" then 3%nat
  else if String.eqb texture "monotone" then 4%nat
  else 6%nat.

(** A reading of [Math.random()]. *)
Definition inUnit (r : Q) : Prop := (0 <= r)%Q /\ (r < 1)%Q.

(** The rank a reading picks out of [RANKS]. *)
Definition rankOfDraw (r : Q) : option Rank :=
  match indexFor (List.length RANKS) r with
  | Some i => nth_error RANKS i
  | None => None
  end.

End BoardGen.

(** * Array helpers of the scenario engine and the hand utilities that draw
    cards or sort hands *)

Module Helpers.

Import BoardGen.

(** [[a[i], a[j]] = [a[j], a[i]]]. The loop of [shuffleArray] keeps
    [j <= i < a.length], so both reads find an element. *)
Definition swap {A} (i j : nat) (a : list A) : list A :=
  match a !! i, a !! j with
  | Some x, Some y => <[j := x]> (<[i := y]> a)
  | _, _ => a
  end.

(** [for (let i = ...; i > 0; i--)] of [shuffleArray], from the value [i]
    of the loop variable on, with [j = Math.floor(Math.random() * (i + 1))]. *)
Fixpoint shuffleLoop {A} (i : nat) (shuffled : list A) : Gen (list A) :=
  match i with
  | O => ret shuffled
  | S i' =>
      bind (randomIndex (S i)) (fun j => shuffleLoop i' (swap i j shuffled))
  end.

Definition shuffleArray {A} (array : list A) : Gen (list A) :=
  shuffleLoop (List.length array - 1) array.

(** [randomPick]: [array[Math.floor(Math.random() * array.length)]];
    the inner [None] is [undefined], what an empty array gives. *)
Definition randomPick {A} (array : list A) : Gen (option A) :=
  fun rs =>
    match rs with
    | r :: rs' =>
        let i := Qfloor (r * inject_Z (Z.of_nat (List.length array)))%Q in
        if 0 <=? i then Some (nth_error array (Z.to_nat i), rs') else None
    | [] => None
    end.

(** [array.slice(0, end)] for an integer [end]: a negative [end] counts
    from the end of the array. *)
Definition slice0 {A} (end_ : Z) (array : list A) : list A :=
  let len := Z.of_nat (List.length array) in
  let final := if end_ <? 0 then Z.max (len + end_) 0 else Z.min end_ len in
  firstn (Z.to_nat final) array.

Definition randomPickN {A} (array : list A) (n : Z) : Gen (list A) :=
  bind (shuffleArray array) (fun shuffled =>
    ret (slice0 (Z.min n (Z.of_nat (List.length shuffled))) shuffled)).

End Helpers.

Module HandCards.

Import Hands BoardGen.

Definition SUITS : list ascii := ["s"; "h"; "d"; "c"]%char.

Record Card := mkCard { rank : ascii; suit : ascii }.

(** The two branches of [getCardsForHand] that take two different suits:
    one spliced out of the available suits, one picked among the rest. *)
Definition twoSuits (hand : Hand) : Gen (option (list Card)) :=
  bind (spliceOne SUITS) (fun '(suit1, availableSuits) =>
  bind (pick availableSuits) (fun suit2 =>
  ret (Some [mkCard (rank1 hand) suit1; mkCard (rank2 hand) suit2]))).

(** [getCardsForHand]; the inner [None] is the [null] of a notation that
    [parseHand] rejects. *)
Definition getCardsForHand (notation : string) : Gen (option (list Card)) :=
  match parseHand notation with
  | None => ret None
  | Some hand =>
      if pair hand then twoSuits hand
      else if suited hand then
        bind (pick SUITS) (fun suit =>
        ret (Some [mkCard (rank1 hand) suit; mkCard (rank2 hand) suit]))
      else twoSuits hand
  end.

(** [compareHands]: positive when the first hand has the higher equity. *)
Definition compareHands (hand1 hand2 : string) : outcome Q :=
  obind (getEquity hand1) (fun eq1 =>
  obind (getEquity hand2) (fun eq2 => Value (eq1 - eq2)%Q)).

(** The place [Array.prototype.sort] gives [x] among hands sorted already
    that stood to its right: before the first one that the comparator
    [(a, b) => getEquity(b) - getEquity(a)] does not put before [x]. The sort
    is stable, so hands of equal equity keep their order. *)
Fixpoint insertByEquity (x : string * Q) (sorted : list (string * Q))
  : list (string * Q) :=
  match sorted with
  | [] => [x]
  | y :: rest =>
      if Qle_bool (snd y) (snd x) then x :: sorted
      else y :: insertByEquity x rest
  end.

Definition sortKeyed (keyed : list (string * Q)) : list (string * Q) :=
  fold_right insertByEquity [] keyed.

(** [sortHandsByEquity]: [[...hands].sort((a, b) => getEquity(b) - getEquity(a))].
    With fewer than two hands the comparator is never called; otherwise it
    is called on every hand, and a hand on which [getEquity] throws makes the
    sort throw. *)
Definition sortHandsByEquity (hands : list string) : outcome (list string) :=
  match hands with
  | [] | [_] => Value hands
  | _ =>
      obind (omapM (fun h => obind (getEquity h) (fun e => Value (h, e))) hands)
        (fun keyed => Value (List.map fst (sortKeyed keyed)))
  end.

(** The comparator of [sortHandsByEquity] does not put [b] before [a]. *)
Definition notAfter (a b : string) : Prop :=
  exists d, compareHands a b = Value d /\ (0 <= d)%Q.

End HandCards.

(** * Properties of the hand model *)

Section HandProperties.

Import Hands.

(** Case analysis on an index of the 13x13 grid. *)
Ltac grid_cases x H :=
  let E := fresh "E" in
  assert (E : x = 0 \/ x = 1 \/ x = 2 \/ x = 3 \/ x = 4 \/ x = 5 \/ x = 6 \/
              x = 7 \/ x = 8 \/ x = 9 \/ x = 10 \/ x = 11 \/ x = 12) by lia;
  clear H;
  repeat (destruct E as [E | E]; [subst x | ]); [.. | subst x].

Lemma ALL_HANDS_length : List.length ALL_HANDS = 169%nat.
Proof. vm_compute. reflexivity. Qed.

(** C3. Grid bijection: inside the 13x13 grid the hand read from a cell
    maps back to that cell (a pair on the diagonal, suited above it,
    offsuit below it), and the enumeration of all hands has 169 elements
    with exactly one hand in each cell. *)
Theorem grid_bijection (row col : Z)
    (Hrow : 0 <= row < 13) (Hcol : 0 <= col < 13) :
  (exists h hand,
      getHandFromGrid row col = Some h /\
      getGridPosition h = Some (mkPos row col) /\
      parseHand h = Some hand /\
      pair hand = (row =? col) /\
      suited hand = (row <? col) /\
      offsuit hand = (col <? row)) /\
  List.length ALL_HANDS = 169%nat /\
  List.length (handsInCell row col) = 1%nat.
Proof.
  split; [ | split; [ exact ALL_HANDS_length | ] ].
  - grid_cases row Hrow; grid_cases col Hcol;
      (eexists; eexists; split; [ vm_compute; reflexivity | ];
       repeat split; vm_compute; reflexivity).
  - grid_cases row Hrow; grid_cases col Hcol; vm_compute; reflexivity.
Qed.

Lemma grid_bijection_witness :
  (exists h hand,
      getHandFromGrid 3 1 = Some h /\
      getGridPosition h = Some (mkPos 3 1) /\
      parseHand h = Some hand /\
      pair hand = (3 =? 1) /\
      suited hand = (3 <? 1) /\
      offsuit hand = (1 <? 3)) /\
  List.length ALL_HANDS = 169%nat /\
  List.length (handsInCell 3 1) = 1%nat.
Proof. apply (grid_bijection 3 1); lia. Defined.

Lemma toUpperCase_idem (c : ascii) : toUpperCase (toUpperCase c) = toUpperCase c.
Proof. destruct c as [[] [] [] [] [] [] [] []]; reflexivity. Qed.

Lemma toLowerCase_idem (c : ascii) : toLowerCase (toLowerCase c) = toLowerCase c.
Proof. destruct c as [[] [] [] [] [] [] [] []]; reflexivity. Qed.

Lemma suffixOf_lower (a b : ascii) (rest : string) :
  toLowerCase (suffixOf (String a (String b rest))) =
  suffixOf (String a (String b rest)).
Proof.
  unfold suffixOf, charAt; simpl.
  destruct (String.get 0 rest); [ apply toLowerCase_idem | reflexivity ].
Qed.

Lemma normalizeHand_two (a b : ascii) (rest : string) :
  normalizeHand (String a (String b rest)) =
  Value (Some (if Ascii.eqb (highRank a b) (lowRank a b)
               then cat2 (highRank a b) (lowRank a b)
               else cat3 (highRank a b) (lowRank a b)
                      (suffixOf (String a (String b rest))))).
Proof.
  unfold normalizeHand, highRank, lowRank, suffixOf, charAt; simpl.
  destruct (indexOf RANKS (toUpperCase b) <? indexOf RANKS (toUpperCase a));
    destruct (String.get 0 rest); simpl;
    match goal with |- context [Ascii.eqb ?u ?v] => destruct (Ascii.eqb u v) end;
    reflexivity.
Qed.

Lemma high_low_ordered (a b : ascii) :
  indexOf RANKS (highRank a b) <= indexOf RANKS (lowRank a b).
Proof.
  unfold highRank, lowRank.
  destruct (indexOf RANKS (toUpperCase b) <? indexOf RANKS (toUpperCase a)) eqn:E;
    lia.
Qed.

Lemma high_low_upper (a b : ascii) :
  toUpperCase (highRank a b) = highRank a b /\
  toUpperCase (lowRank a b) = lowRank a b.
Proof.
  unfold highRank, lowRank.
  destruct (indexOf RANKS (toUpperCase b) <? indexOf RANKS (toUpperCase a));
    split; apply toUpperCase_idem.
Qed.

(** Normalizing a normalized notation changes nothing, whatever the two
    leading characters are. *)
Lemma normalizeHand_fixpoint (a b : ascii) (rest : string) (c : string) :
  normalizeHand (String a (String b rest)) = Value (Some c) ->
  normalizeHand c = Value (Some c).
Proof.
  rewrite normalizeHand_two. intros [= <-].
  pose proof (high_low_ordered a b) as Hord.
  destruct (high_low_upper a b) as [Hx Hy].
  set (x := highRank a b) in *. set (y := lowRank a b) in *.
  assert (Hhi : highRank x y = x).
  { unfold highRank. rewrite Hx, Hy.
    destruct (indexOf RANKS y <? indexOf RANKS x) eqn:E; [ lia | reflexivity ]. }
  assert (Hlo : lowRank x y = y).
  { unfold lowRank. rewrite Hx, Hy.
    destruct (indexOf RANKS y <? indexOf RANKS x) eqn:E; [ lia | reflexivity ]. }
  destruct (Ascii.eqb x y) eqn:Exy.
  - unfold cat2. rewrite normalizeHand_two, Hhi, Hlo, Exy. reflexivity.
  - unfold cat3. rewrite normalizeHand_two, Hhi, Hlo, Exy.
    do 2 f_equal. unfold suffixOf at 1, charAt; simpl.
    rewrite suffixOf_lower. reflexivity.
Qed.

Lemma isRankLetter_index (c : ascii) :
  isRankLetter c = true -> 0 <= indexOf RANKS (toUpperCase c) < 13.
Proof.
  unfold isRankLetter, RANKS; simpl.
  rewrite !orb_true_iff, !Ascii.eqb_eq.
  intros H; repeat (destruct H as [H | H]); try discriminate;
    rewrite H; vm_compute; split; congruence.
Qed.

(** C4. On every valid notation [normalizeHand] returns a notation that it
    maps to itself; the result starts with the two upper-cased ranks, the
    higher rank (smaller index in RANKS) first, has no suffix for a pair and
    otherwise the lower-cased suffix, or 'o' when none was given; "AKs" and
    "KAs" both normalize to "AKs". *)
Theorem normalizeHand_idempotent (n : string) (Hvalid : validNotation n = true) :
  exists (a b x y : ascii) (c : string),
    charAt n 0 = Some a /\ charAt n 1 = Some b /\
    normalizeHand n = Value (Some c) /\
    normalizeHand c = Value (Some c) /\
    ((x = toUpperCase a /\ y = toUpperCase b) \/
     (x = toUpperCase b /\ y = toUpperCase a)) /\
    0 <= indexOf RANKS x <= indexOf RANKS y /\
    indexOf RANKS y < 13 /\
    c = (if Ascii.eqb x y then cat2 x y
         else cat3 x y (match charAt n 2 with
                        | Some s => toLowerCase s
                        | None => "o"%char
                        end)) /\
    normalizeHand "AKs" = Value (Some "AKs") /\
    normalizeHand "KAs" = Value (Some "AKs").
Proof.
  assert (Hshape : exists a b rest, n = String a (String b rest) /\
                     isRankLetter a = true /\ isRankLetter b = true).
  { destruct n as [ | a [ | b [ | c [ | ] ] ] ]; simpl in Hvalid; try discriminate.
    - apply andb_true_iff in Hvalid as [Ha Hb]. eauto 6.
    - apply andb_true_iff in Hvalid as [Hab _].
      apply andb_true_iff in Hab as [Ha Hb]. eauto 6. }
  destruct Hshape as (a & b & rest & -> & Ha & Hb).
  apply isRankLetter_index in Ha, Hb.
  pose proof (normalizeHand_two a b rest) as Hn.
  exists a, b, (highRank a b), (lowRank a b).
  eexists. split; [ reflexivity | ]. split; [ reflexivity | ].
  split; [ exact Hn | ].
  split; [ exact (normalizeHand_fixpoint a b rest _ Hn) | ].
  split.
  { unfold highRank, lowRank.
    destruct (indexOf RANKS (toUpperCase b) <? indexOf RANKS (toUpperCase a));
      [ right | left ]; split; reflexivity. }
  split.
  { unfold highRank, lowRank.
    destruct (indexOf RANKS (toUpperCase b) <? indexOf RANKS (toUpperCase a)) eqn:E;
      lia. }
  split.
  { unfold lowRank.
    destruct (indexOf RANKS (toUpperCase b) <? indexOf RANKS (toUpperCase a));
      lia. }
  split; [ reflexivity | ].
  split; vm_compute; reflexivity.
Qed.

Lemma normalizeHand_idempotent_witness :
  exists (a b x y : ascii) (c : string),
    charAt "kas" 0 = Some a /\ charAt "kas" 1 = Some b /\
    normalizeHand "kas" = Value (Some c) /\
    normalizeHand c = Value (Some c) /\
    ((x = toUpperCase a /\ y = toUpperCase b) \/
     (x = toUpperCase b /\ y = toUpperCase a)) /\
    0 <= indexOf RANKS x <= indexOf RANKS y /\
    indexOf RANKS y < 13 /\
    c = (if Ascii.eqb x y then cat2 x y
         else cat3 x y (match charAt "kas" 2 with
                        | Some s => toLowerCase s
                        | None => "o"%char
                        end)) /\
    normalizeHand "AKs" = Value (Some "AKs") /\
    normalizeHand "KAs" = Value (Some "AKs").
Proof. apply (normalizeHand_idempotent "kas"). reflexivity. Defined.

Lemma lookupKey_In {A} (tbl : list (string * A)) (k : string) (v : A) :
  lookupKey tbl k = Some v -> In (k, v) tbl.
Proof.
  induction tbl as [ | [k' v'] tbl IH]; simpl; [ discriminate | ].
  destruct (String.eqb k' k) eqn:E.
  - apply String.eqb_eq in E. intros [= ->]. left; congruence.
  - intros H. right. exact (IH H).
Qed.

Lemma PREFLOP_EQUITY_bounds (k : string) (v : Q) :
  lookupKey PREFLOP_EQUITY k = Some v -> (30 <= v <= 85)%Q.
Proof.
  intros H. apply lookupKey_In in H.
  assert (Hall : forallb (fun kv => Qle_bool 30 (snd kv) && Qle_bool (snd kv) 85)
                   PREFLOP_EQUITY = true) by (vm_compute; reflexivity).
  rewrite forallb_forall in Hall. specialize (Hall _ H). simpl in Hall.
  apply andb_true_iff in Hall as [H1 H2].
  split; apply Qle_bool_iff; assumption.
Qed.

Lemma orDefault_nonzero (v d : Q) : ~ (v == 0)%Q -> orDefault (Some v) d = v.
Proof.
  intros Hv. unfold orDefault.
  destruct (Qeq_bool v 0) eqn:E; [ | reflexivity ].
  apply Qeq_bool_eq in E. contradiction.
Qed.

(** C5 (as the code has it). For every notation that is empty or has at
    least two characters, [getEquity] returns a percentage between 30 and
    85: the table's value when the normalized notation is a key of
    PREFLOP_EQUITY and the fixed fallback 30 otherwise; [getHandStrength] is
    that value over 100 and lies in [0,1]. *)
Theorem getEquity_percent (n : string) (Hlen : String.length n <> 1%nat) :
  exists (normalized : option string) (e : Q),
    normalizeHand n = Value normalized /\
    getEquity n = Value e /\
    (30 <= e <= 85)%Q /\
    getHandStrength n = Value (e / 100)%Q /\
    (0 <= e / 100 <= 1)%Q /\
    match lookupKey PREFLOP_EQUITY (keyOf normalized) with
    | Some v => e = v
    | None => e = 30%Q
    end.
Proof.
  assert (Hnorm : exists normalized, normalizeHand n = Value normalized).
  { destruct n as [ | c0 [ | c1 rest ] ].
    - exists None. reflexivity.
    - simpl in Hlen. congruence.
    - rewrite normalizeHand_two. eauto. }
  destruct Hnorm as [normalized Hnorm]. exists normalized.
  unfold getHandStrength, getEquity. rewrite Hnorm. cbn [obind].
  destruct (lookupKey PREFLOP_EQUITY (keyOf normalized)) as [v | ] eqn:E.
  - pose proof (PREFLOP_EQUITY_bounds _ _ E) as Hb.
    assert (Hnz : ~ (v == 0)%Q) by (intros Hz; rewrite Hz in Hb; lra).
    rewrite (orDefault_nonzero v 30 Hnz).
    exists v. repeat split; try reflexivity; try tauto.
    + apply Qle_shift_div_l; lra.
    + apply Qle_shift_div_r; lra.
  - exists 30%Q. cbn [orDefault]. repeat split; try reflexivity; try lra.
    + apply Qle_shift_div_l; lra.
    + apply Qle_shift_div_r; lra.
Qed.

Lemma getEquity_percent_witness :
  exists (normalized : option string) (e : Q),
    normalizeHand "XY" = Value normalized /\
    getEquity "XY" = Value e /\
    (30 <= e <= 85)%Q /\
    getHandStrength "XY" = Value (e / 100)%Q /\
    (0 <= e / 100 <= 1)%Q /\
    match lookupKey PREFLOP_EQUITY (keyOf normalized) with
    | Some v => e = v
    | None => e = 30%Q
    end.
Proof.
  apply (getEquity_percent "XY"). simpl. lia.
Defined.

(** C5 as stated fails: the equity of a pair of aces is 85, not a number
    of the unit interval. *)
Lemma getEquity_exceeds_unit_interval :
  ~ (forall (n : string) (e : Q), getEquity n = Value e -> (0 <= e <= 1)%Q).
Proof.
  intros H. destruct (H "AA" 85.0%Q) as [_ Hle]; [ vm_compute; reflexivity | ].
  revert Hle. vm_compute. intros Hle. apply Hle. reflexivity.
Qed.

(** C6 (as the code has it). [parseHand] returns [null] exactly for a
    notation shorter than two characters; every longer notation yields a
    hand whose ranks are the upper-cased first two characters, whether or
    not they are rank letters. *)
Theorem parseHand_checks_length_only (n : string) :
  (parseHand n = None <-> (String.length n < 2)%nat) /\
  match parseHand n with
  | Some hand =>
      exists c0 c1 : ascii,
        charAt n 0 = Some c0 /\ charAt n 1 = Some c1 /\
        rank1 hand = toUpperCase c0 /\ rank2 hand = toUpperCase c1 /\
        pair hand = Ascii.eqb (toUpperCase c0) (toUpperCase c1)
  | None => True
  end.
Proof.
  destruct n as [ | c0 [ | c1 rest ] ]; simpl.
  - split; [ split; [ lia | reflexivity ] | exact I ].
  - split; [ split; [ lia | reflexivity ] | exact I ].
  - split.
    + unfold parseHand, charAt; simpl. split; [ discriminate | lia ].
    + unfold parseHand, charAt; simpl. exists c0, c1. repeat split.
Qed.

(** C6 as stated fails: "XY" has no rank letter and still parses. *)
Lemma parseHand_accepts_unknown_ranks :
  ~ (forall n : string,
        (2 <= String.length n <= 3)%nat ->
        (exists c, (charAt n 0 = Some c \/ charAt n 1 = Some c) /\
                   isRankLetter c = false) ->
        parseHand n = None).
Proof.
  intros H.
  assert (Hx : parseHand "XY" = None).
  { apply H; [ simpl; lia | ].
    exists "X"%char. split; [ left; reflexivity | reflexivity ]. }
  discriminate Hx.
Qed.

End HandProperties.

(** * Properties of the range statistics *)

Section RangeProperties.

Import RangeGrid.

Lemma countHand_error (l : list (option string)) :
  fold_left countHand l TypeError = TypeError.
Proof. induction l as [ | h l IH]; simpl; [ reflexivity | exact IH ]. Qed.

Lemma countHand_total (l : list (option string)) (p s o : Z) :
  match fold_left countHand l (Value (p, s, o)) with
  | Value (p', s', o') => p' + s' + o' = p + s + o + Z.of_nat (List.length l)
  | TypeError => True
  end.
Proof.
  revert p s o. induction l as [ | h l IH]; intros p s o; simpl.
  - lia.
  - destruct h as [h | ]; [ | rewrite countHand_error; exact I ].
    destruct (Nat.eqb (String.length h) 2); [ | destruct (endsWith h "s") ].
    + specialize (IH (p + 1) s o).
      destruct (fold_left countHand l (Value (p + 1, s, o))) as [[[p' s'] o'] | ];
        [ lia | exact I ].
    + specialize (IH p (s + 1) o).
      destruct (fold_left countHand l (Value (p, s + 1, o))) as [[[p' s'] o'] | ];
        [ lia | exact I ].
    + specialize (IH p s (o + 1)).
      destruct (fold_left countHand l (Value (p, s, o + 1))) as [[[p' s'] o'] | ];
        [ lia | exact I ].
Qed.

(** C8 as stated fails: for {"AA"} the reported percentage is the string
    "0.5", which is neither 6/1326*100 nor its four-decimal rendering
    0.4525. *)
Lemma getRangeStats_percentage_is_rounded :
  exists st,
    getRangeStats ["AA"] = Value st /\
    percentage st = "0.5" /\
    toFixed 4 ((6 / 1326) * 100)%Q = "0.4525" /\
    percentage st <> toFixed 4 ((6 / 1326) * 100)%Q /\
    ~ (5 # 10 == (6 / 1326) * 100)%Q.
Proof.
  eexists. split; [ vm_compute; reflexivity | ].
  split; [ reflexivity | ].
  split; [ vm_compute; reflexivity | ].
  split; [ vm_compute; discriminate | ].
  vm_compute. discriminate.
Qed.

End RangeProperties.

(** * Properties of the board-texture classifier *)

Section TextureProperties.

Import BoardTexture.

(** The gaps of three sorted values, against the smallest, middle and
    largest of them. *)
Lemma gaps_of_three (v0 v1 v2 : Z) :
  forallb (fun g => g <=? 2) (gapsOf (sortAsc [v0; v1; v2])) =
  let lo := Z.min v0 (Z.min v1 v2) in
  let hi := Z.max v0 (Z.max v1 v2) in
  let mid := v0 + v1 + v2 - lo - hi in
  (mid - lo <=? 2) && (hi - mid <=? 2).
Proof.
  unfold sortAsc; cbn [fold_right insertSorted].
  destruct (v1 <=? v2) eqn:E12; cbn [insertSorted];
    destruct (v0 <=? v1) eqn:E01; destruct (v0 <=? v2) eqn:E02;
    cbn [gapsOf forallb]; rewrite ?andb_true_r;
    try (exfalso; lia);
    (f_equal; f_equal; lia).
Qed.

Lemma two_tone_of_three (s0 s1 s2 : Suit) :
  bool_decide (s0 = s1) && bool_decide (s1 = s2) = false ->
  existsb (fun kv => snd kv =? 2)
    (fold_left (fun acc s => bump s acc) [s0; s1; s2] []) =
  bool_decide ((s0 = s1 \/ s1 = s2 \/ s0 = s2) /\ ~ (s0 = s1 /\ s1 = s2)).
Proof. destruct s0, s1, s2; vm_compute; congruence. Qed.

(** C7. On a board of three cards the classifier answers monotone when the
    three suits agree; otherwise paired when two ranks agree; otherwise wet
    when two cards share a suit or both gaps between the sorted rank values
    are at most 2; otherwise dry. The four boards of the specification are
    classified dry, wet, paired and monotone. *)
Theorem analyzeBoardTexture_spec (c0 c1 c2 : Card) :
  analyzeBoardTexture [c0; c1; c2] = textureSpec c0 c1 c2 /\
  analyzeBoardTexture
    [mkCard RK Hearts; mkCard R7 Diamonds; mkCard R2 Clubs] = Dry /\
  analyzeBoardTexture
    [mkCard RJ Hearts; mkCard RT Hearts; mkCard R9 Clubs] = Wet /\
  analyzeBoardTexture
    [mkCard RK Clubs; mkCard RK Diamonds; mkCard R4 Spades] = Paired /\
  analyzeBoardTexture
    [mkCard R9 Hearts; mkCard R6 Hearts; mkCard R3 Hearts] = Monotone.
Proof.
  split; [ | repeat split; vm_compute; reflexivity ].
  unfold analyzeBoardTexture, textureSpec.
  cbn [map].
  rewrite gaps_of_three. cbv zeta.
  rewrite bool_decide_and.
  destruct (bool_decide (suit c0 = suit c1) && bool_decide (suit c1 = suit c2))
    eqn:Emono; [ reflexivity | ].
  rewrite (two_tone_of_three _ _ _ Emono).
  rewrite (bool_decide_or (rank c0 = rank c1)),
          (bool_decide_or (rank c1 = rank c2)), orb_assoc.
  reflexivity.
Qed.

End TextureProperties.

(** * Properties of the progress store *)

Section StorageProperties.

Import Storage.

Lemma Bool_le_refl (b : bool) : Bool.le b b.
Proof. destruct b; simpl; auto. Qed.

Lemma Bool_le_trans (a b c : bool) : Bool.le a b -> Bool.le b c -> Bool.le a c.
Proof. destruct a, b, c; simpl; auto; discriminate. Qed.

Lemma timeNotWorse_refl (o : option Q) : timeNotWorse o o.
Proof. destruct o; simpl; [ apply Qle_refl | exact I ]. Qed.

Lemma timeNotWorse_trans (a b c : option Q) :
  timeNotWorse a b -> timeNotWorse b c -> timeNotWorse a c.
Proof.
  destruct a as [x | ], b as [y | ], c as [z | ]; simpl; try tauto.
  intros H1 H2. exact (Qle_trans _ _ _ H2 H1).
Qed.

Lemma drillNotWorse_refl (r : Drill.t) : drillNotWorse r r.
Proof.
  repeat split; try apply Qle_refl;
    [ apply timeNotWorse_refl | apply Bool_le_refl ].
Qed.

Lemma drillNotWorse_trans (a b c : Drill.t) :
  drillNotWorse a b -> drillNotWorse b c -> drillNotWorse a c.
Proof.
  intros (H1 & H2 & H3 & H4) (K1 & K2 & K3 & K4). repeat split.
  - exact (Qle_trans _ _ _ H1 K1).
  - exact (Qle_trans _ _ _ H2 K2).
  - exact (timeNotWorse_trans _ _ _ H3 K3).
  - exact (Bool_le_trans _ _ _ H4 K4).
Qed.

Lemma scenarioNotWorse_refl (r : Scenario.t) : scenarioNotWorse r r.
Proof. split; [ apply Qle_refl | apply Bool_le_refl ]. Qed.

Lemma scenarioNotWorse_trans (a b c : Scenario.t) :
  scenarioNotWorse a b -> scenarioNotWorse b c -> scenarioNotWorse a c.
Proof.
  intros (H1 & H2) (K1 & K2). split.
  - exact (Qle_trans _ _ _ H1 K1).
  - exact (Bool_le_trans _ _ _ H2 K2).
Qed.

(** Maps whose records only get better. *)
Section MapKeeps.

Context {A : Type} (R : A -> A -> Prop).
Hypothesis R_refl : forall a, R a a.
Hypothesis R_trans : forall a b c, R a b -> R b c -> R a c.

Lemma mapKeeps_refl (m : gmap string A) : mapKeeps R m m.
Proof. intros id. unfold keeps. destruct (m !! id); auto. Qed.

Lemma mapKeeps_trans (m1 m2 m3 : gmap string A) :
  mapKeeps R m1 m2 -> mapKeeps R m2 m3 -> mapKeeps R m1 m3.
Proof.
  intros H12 H23 id. specialize (H12 id). specialize (H23 id).
  unfold keeps in *.
  destruct (m1 !! id), (m2 !! id), (m3 !! id); try tauto. eauto.
Qed.

Lemma mapKeeps_insert (m : gmap string A) (k : string) (r r' : A) :
  m !! k = Some r -> R r r' -> mapKeeps R m (<[k := r']> m).
Proof.
  intros Hk HR id. unfold keeps.
  destruct (decide (k = id)) as [-> | Hne].
  - rewrite Hk, lookup_insert_eq. exact HR.
  - rewrite lookup_insert_ne by exact Hne. destruct (m !! id); auto.
Qed.

End MapKeeps.

Lemma jsGt_le (a b : Q) : jsGt (Some a) b = true -> (b <= a)%Q.
Proof.
  unfold jsGt. intros H. apply negb_true_iff in H.
  apply Qlt_le_weak, Qnot_le_lt. intros Hle.
  apply Qle_bool_iff in Hle. congruence.
Qed.

Lemma jsLt_le (a b : Q) : jsLt (Some a) b = true -> (a <= b)%Q.
Proof.
  unfold jsLt. intros H. apply negb_true_iff in H.
  apply Qlt_le_weak, Qnot_le_lt. intros Hle.
  apply Qle_bool_iff in Hle. congruence.
Qed.

Lemma recordDrillStats_notWorse (now : string) (stats : Stats) (r : Drill.t) :
  drillNotWorse r (recordDrillStats now stats r).
Proof.
  unfold drillNotWorse, recordDrillStats; cbn. repeat split.
  - destruct (accuracy stats) as [a | ]; [ | apply Qle_refl ].
    destruct (jsGt (Some a) (Drill.bestScore r)) eqn:E;
      [ exact (jsGt_le _ _ E) | apply Qle_refl ].
  - destruct (bestStreak stats) as [b | ]; [ | apply Qle_refl ].
    destruct (jsGt (Some b) (Drill.bestStreak r)) eqn:E;
      [ exact (jsGt_le _ _ E) | apply Qle_refl ].
  - destruct (avgTime stats) as [t | ]; [ | apply timeNotWorse_refl ].
    destruct (Drill.bestTime r) as [old | ]; [ | exact I ].
    destruct (truthy (Some t)); cbn [andb]; [ | apply Qle_refl ].
    destruct (jsLt (Some t) old) eqn:E; cbn;
      [ exact (jsLt_le _ _ E) | apply Qle_refl ].
  - apply Bool_le_refl.
Qed.

Lemma setDrillCompleted_notWorse (r : Drill.t) :
  drillNotWorse r (setDrillCompleted r).
Proof.
  repeat split; cbn; try apply Qle_refl; [ apply timeNotWorse_refl | ].
  destruct (Drill.completed r); simpl; auto.
Qed.

Lemma drill_setUnlocked_notWorse (r : Drill.t) :
  drillNotWorse r (Drill.setUnlocked r).
Proof.
  repeat split; cbn; try apply Qle_refl;
    [ apply timeNotWorse_refl | apply Bool_le_refl ].
Qed.

Lemma unlockNextDrill_keeps (id : string) (m : gmap string Drill.t) :
  mapKeeps drillNotWorse m (unlockNextDrill id m).
Proof.
  unfold unlockNextDrill.
  destruct (_ && _); [ | apply mapKeeps_refl, drillNotWorse_refl ].
  destruct (nth_error _ _) as [next | ];
    [ | apply mapKeeps_refl, drillNotWorse_refl ].
  destruct (m !! next) as [r | ] eqn:E;
    [ | apply mapKeeps_refl, drillNotWorse_refl ].
  eapply mapKeeps_insert;
    [ apply drillNotWorse_refl | exact E | apply drill_setUnlocked_notWorse ].
Qed.

Lemma updateDrillProgress_drills (now id : string) (stats : Stats) (p : Progress) :
  mapKeeps drillNotWorse (drillModules p)
    (drillModules (fst (updateDrillProgress now id stats p))).
Proof.
  unfold updateDrillProgress, drillModules.
  destruct (DrillStage.modules (drills p) !! id) as [r | ] eqn:E;
    [ | destruct (inheritedMember id); apply mapKeeps_refl, drillNotWorse_refl ].
  assert (H1 : mapKeeps drillNotWorse (DrillStage.modules (drills p))
                 (<[id := recordDrillStats now stats r]>
                    (DrillStage.modules (drills p)))).
  { eapply mapKeeps_insert;
      [ apply drillNotWorse_refl | exact E | apply recordDrillStats_notWorse ]. }
  destruct (_ && _); cbn; [ | exact H1 ].
  eapply mapKeeps_trans; [ apply drillNotWorse_trans | exact H1 | ].
  eapply mapKeeps_trans;
    [ apply drillNotWorse_trans | | apply unlockNextDrill_keeps ].
  eapply mapKeeps_insert;
    [ apply drillNotWorse_refl | apply lookup_insert_eq
    | apply setDrillCompleted_notWorse ].
Qed.

Lemma updateDrillProgress_scenarios (now id : string) (stats : Stats)
    (p : Progress) :
  scenarioModules (fst (updateDrillProgress now id stats p)) = scenarioModules p.
Proof.
  unfold updateDrillProgress, scenarioModules.
  destruct (DrillStage.modules (drills p) !! id);
    [ | destruct (inheritedMember id); reflexivity ].
  destruct (_ && _); cbn; [ | reflexivity ].
  destruct (allDrillsCompleted _); reflexivity.
Qed.

Lemma recordScenarioStats_notWorse (now : string) (stats : Stats)
    (r : Scenario.t) :
  scenarioNotWorse r (recordScenarioStats now stats r).
Proof.
  unfold scenarioNotWorse, recordScenarioStats; cbn. split.
  - destruct (accuracy stats) as [a | ]; [ | apply Qle_refl ].
    destruct (jsGt (Some a) (Scenario.bestScore r)) eqn:E;
      [ exact (jsGt_le _ _ E) | apply Qle_refl ].
  - apply Bool_le_refl.
Qed.

Lemma setScenarioCompleted_notWorse (r : Scenario.t) :
  scenarioNotWorse r (setScenarioCompleted r).
Proof.
  split; cbn; [ apply Qle_refl | ].
  destruct (Scenario.completed r); simpl; auto.
Qed.

Lemma scenario_setUnlocked_notWorse (r : Scenario.t) :
  scenarioNotWorse r (Scenario.setUnlocked r).
Proof. split; cbn; [ apply Qle_refl | apply Bool_le_refl ]. Qed.

Lemma unlockCold4bet_keeps (m : gmap string Scenario.t) :
  mapKeeps scenarioNotWorse m (unlockCold4bet m).
Proof.
  unfold unlockCold4bet.
  destruct (2 <=? tier1Completed m) eqn:Ecount.
  all: try (apply mapKeeps_refl, scenarioNotWorse_refl).
  destruct (m !! "cold-4bet") as [r | ] eqn:E;
    [ | apply mapKeeps_refl, scenarioNotWorse_refl ].
  eapply mapKeeps_insert;
    [ apply scenarioNotWorse_refl | exact E | apply scenario_setUnlocked_notWorse ].
Qed.

(** The scenario modules after [updateScenarioProgress] on a known id. *)
Lemma updateScenarioProgress_modules (now id : string) (stats : Stats)
    (p : Progress) (r : Scenario.t) :
  scenarioModules p !! id = Some r ->
  scenarioModules (fst (updateScenarioProgress now id stats p)) =
  let r1 := recordScenarioStats now stats r in
  let m1 := <[id := r1]> (scenarioModules p) in
  if negb (inheritedMember id)
     && jsGe (accuracy stats) (getScenarioThreshold id)
     && negb (Scenario.completed r1)
  then unlockCold4bet (<[id := setScenarioCompleted r1]> m1)
  else m1.
Proof.
  unfold updateScenarioProgress, scenarioModules, getScenarioThreshold.
  intros ->. cbv zeta.
  destruct (_ && _); cbn; reflexivity.
Qed.

Lemma updateScenarioProgress_missing (now id : string) (stats : Stats)
    (p : Progress) :
  scenarioModules p !! id = None ->
  scenarios (fst (updateScenarioProgress now id stats p)) = scenarios p.
Proof.
  unfold updateScenarioProgress, scenarioModules. intros ->.
  destruct (inheritedMember id); reflexivity.
Qed.

Lemma updateScenarioProgress_scenarios (now id : string) (stats : Stats)
    (p : Progress) :
  mapKeeps scenarioNotWorse (scenarioModules p)
    (scenarioModules (fst (updateScenarioProgress now id stats p))).
Proof.
  destruct (scenarioModules p !! id) as [r | ] eqn:E.
  - rewrite (updateScenarioProgress_modules _ _ _ _ _ E). cbv zeta.
    assert (H1 : mapKeeps scenarioNotWorse (scenarioModules p)
                   (<[id := recordScenarioStats now stats r]> (scenarioModules p))).
    { eapply mapKeeps_insert;
        [ apply scenarioNotWorse_refl | exact E
        | apply recordScenarioStats_notWorse ]. }
    destruct (_ && _); [ | exact H1 ].
    eapply mapKeeps_trans; [ apply scenarioNotWorse_trans | exact H1 | ].
    eapply mapKeeps_trans;
      [ apply scenarioNotWorse_trans | | apply unlockCold4bet_keeps ].
    eapply mapKeeps_insert;
      [ apply scenarioNotWorse_refl | apply lookup_insert_eq
      | apply setScenarioCompleted_notWorse ].
  - unfold scenarioModules.
    rewrite (updateScenarioProgress_missing _ _ _ _ E).
    apply mapKeeps_refl, scenarioNotWorse_refl.
Qed.

Lemma updateScenarioProgress_drills (now id : string) (stats : Stats)
    (p : Progress) :
  drillModules (fst (updateScenarioProgress now id stats p)) = drillModules p.
Proof.
  unfold updateScenarioProgress, drillModules.
  destruct (ScenarioStage.modules (scenarios p) !! id);
    [ | destruct (inheritedMember id); reflexivity ].
  destruct (_ && _); cbn; reflexivity.
Qed.

Lemma recordAttempt_keeps (a : Attempt) (p : Progress) :
  mapKeeps drillNotWorse (drillModules p) (drillModules (recordAttempt a p)) /\
  mapKeeps scenarioNotWorse (scenarioModules p)
    (scenarioModules (recordAttempt a p)).
Proof.
  destruct a as [now id stats | now id stats]; cbn [recordAttempt]; split.
  - apply updateDrillProgress_drills.
  - rewrite updateDrillProgress_scenarios.
    apply mapKeeps_refl, scenarioNotWorse_refl.
  - rewrite updateScenarioProgress_drills.
    apply mapKeeps_refl, drillNotWorse_refl.
  - apply updateScenarioProgress_scenarios.
Qed.

Lemma recordAttempts_keeps (l : list Attempt) (p : Progress) :
  mapKeeps drillNotWorse (drillModules p) (drillModules (recordAttempts l p)) /\
  mapKeeps scenarioNotWorse (scenarioModules p)
    (scenarioModules (recordAttempts l p)).
Proof.
  revert p. induction l as [ | a l IH]; intros p; cbn [recordAttempts fold_left].
  - split; apply mapKeeps_refl;
      [ apply drillNotWorse_refl | apply scenarioNotWorse_refl ].
  - destruct (recordAttempt_keeps a p) as [Hd Hs].
    destruct (IH (recordAttempt a p)) as [Hd' Hs'].
    split.
    + exact (mapKeeps_trans _ drillNotWorse_trans _ _ _ Hd Hd').
    + exact (mapKeeps_trans _ scenarioNotWorse_trans _ _ _ Hs Hs').
Qed.

(** C2. Over any sequence of recorded attempts, with arbitrary session
    statistics, every drill record stays present with a best score and a
    best streak that do not decrease, a best time that, once set, stays set
    and does not increase, and a completed flag that does not go back to
    false; every scenario record stays present with a best score that does
    not decrease and a completed flag that does not go back to false. *)
Theorem bests_are_monotone (l : list Attempt) (p : Progress) (id : string) :
  keeps drillNotWorse (drillModules p !! id)
    (drillModules (recordAttempts l p) !! id) /\
  keeps scenarioNotWorse (scenarioModules p !! id)
    (scenarioModules (recordAttempts l p) !! id).
Proof.
  destruct (recordAttempts_keeps l p) as [Hd Hs].
  split; [ apply Hd | apply Hs ].
Qed.

Lemma filter_length_mono {A} (f g : A -> bool) (l : list A) :
  (forall x, f x = true -> g x = true) ->
  (List.length (List.filter f l) <= List.length (List.filter g l))%nat.
Proof.
  intros Hfg. induction l as [ | x l IH]; cbn [List.filter]; [ lia | ].
  destruct (f x) eqn:Ef.
  - rewrite (Hfg x Ef). cbn [List.length]. lia.
  - destruct (g x); cbn [List.length]; lia.
Qed.

Lemma tier1Completed_mono (m m' : gmap string Scenario.t) :
  mapKeeps scenarioNotWorse m m' -> tier1Completed m <= tier1Completed m'.
Proof.
  intros Hk. unfold tier1Completed.
  apply inj_le, filter_length_mono. intros id.
  specialize (Hk id). unfold keeps in Hk.
  destruct (m !! id) as [r | ]; [ | discriminate ].
  destruct (m' !! id) as [r' | ]; [ | contradiction ].
  destruct Hk as [Hscore _]. intros H75.
  apply Qle_bool_iff. apply Qle_bool_iff in H75.
  exact (Qle_trans _ _ _ H75 Hscore).
Qed.

Lemma tier1Completed_unlock (m : gmap string Scenario.t) :
  tier1Completed (unlockCold4bet m) = tier1Completed m.
Proof.
  unfold unlockCold4bet.
  destruct (2 <=? tier1Completed m); [ | reflexivity ].
  destruct (m !! "cold-4bet") as [c | ]; [ | reflexivity ].
  unfold tier1Completed, TIER_1_SCENARIOS. cbn [List.filter].
  rewrite !lookup_insert_ne by discriminate. reflexivity.
Qed.

(** One attempt on a scenario does not unlock 'cold-4bet' while fewer than
    two Tier-1 scenarios stand at 75 or more afterwards. *)
Lemma updateScenarioProgress_locked (now id : string) (stats : Stats)
    (p : Progress) :
  cold4betUnlocked p = false ->
  tier1Completed (scenarioModules (fst (updateScenarioProgress now id stats p))) < 2 ->
  cold4betUnlocked (fst (updateScenarioProgress now id stats p)) = false.
Proof.
  intros Hlocked. unfold cold4betUnlocked in *.
  destruct (scenarioModules p !! id) as [r | ] eqn:E.
  - rewrite (updateScenarioProgress_modules _ _ _ _ _ E). cbv zeta.
    set (r1 := recordScenarioStats now stats r).
    assert (Hm1 : forall r2, Scenario.unlocked r2 = Scenario.unlocked r ->
              match <[id := r2]> (scenarioModules p) !! "cold-4bet" with
              | Some c => Scenario.unlocked c
              | None => false
              end = false).
    { intros r2 Hr2. destruct (decide (id = "cold-4bet")) as [-> | Hne].
      - rewrite lookup_insert_eq, Hr2. rewrite E in Hlocked. exact Hlocked.
      - rewrite lookup_insert_ne by exact Hne. exact Hlocked. }
    destruct (_ && _).
    + rewrite tier1Completed_unlock. intros Hcount.
      unfold unlockCold4bet.
      destruct (2 <=? _) eqn:E2; [ lia | ].
      rewrite insert_insert_eq. apply Hm1. reflexivity.
    + intros _. apply Hm1. reflexivity.
  - unfold scenarioModules in *.
    rewrite (updateScenarioProgress_missing _ _ _ _ E). intros _. exact Hlocked.
Qed.

Lemma recordAttempt_locked (a : Attempt) (p : Progress) :
  cold4betUnlocked p = false ->
  tier1Completed (scenarioModules (recordAttempt a p)) < 2 ->
  cold4betUnlocked (recordAttempt a p) = false.
Proof.
  destruct a as [now id stats | now id stats]; cbn [recordAttempt].
  - unfold cold4betUnlocked. rewrite updateDrillProgress_scenarios. auto.
  - apply updateScenarioProgress_locked.
Qed.

Lemma recordAttempts_locked (l : list Attempt) (p : Progress) :
  cold4betUnlocked p = false ->
  tier1Completed (scenarioModules (recordAttempts l p)) < 2 ->
  cold4betUnlocked (recordAttempts l p) = false.
Proof.
  revert p. induction l as [ | a l IH]; intros p Hlocked Hcount;
    cbn [recordAttempts fold_left] in *; [ exact Hlocked | ].
  apply IH; [ | exact Hcount ].
  apply recordAttempt_locked; [ exact Hlocked | ].
  destruct (recordAttempts_keeps l (recordAttempt a p)) as [_ Hs].
  apply tier1Completed_mono in Hs.
  unfold recordAttempts in Hs. lia.
Qed.

(** An attempt that newly completes a scenario unlocks 'cold-4bet' when two
    Tier-1 scenarios stand at 75 or more afterwards. *)
Lemma updateScenarioProgress_unlocks (now id : string) (stats : Stats)
    (p : Progress) :
  is_Some (scenarioModules p !! "cold-4bet") ->
  newlyCompleted id p (fst (updateScenarioProgress now id stats p)) ->
  2 <= tier1Completed (scenarioModules (fst (updateScenarioProgress now id stats p))) ->
  cold4betUnlocked (fst (updateScenarioProgress now id stats p)) = true.
Proof.
  intros [c Hc] (r & r' & Hr & Hopen & Hr' & Hdone).
  unfold cold4betUnlocked.
  rewrite (updateScenarioProgress_modules _ _ _ _ _ Hr) in *. cbv zeta in *.
  set (r1 := recordScenarioStats now stats r) in *.
  destruct (_ && _).
  - rewrite tier1Completed_unlock. intros Hcount.
    unfold unlockCold4bet.
    destruct (2 <=? _) eqn:E2; [ | lia ].
    rewrite insert_insert_eq.
    destruct (<[id := setScenarioCompleted r1]> (scenarioModules p) !! "cold-4bet")
      as [c' | ] eqn:Ec'.
    + rewrite lookup_insert_eq. reflexivity.
    + destruct (decide (id = "cold-4bet")) as [-> | Hne].
      * rewrite lookup_insert_eq in Ec'. discriminate.
      * rewrite lookup_insert_ne in Ec' by exact Hne. congruence.
  - rewrite lookup_insert_eq in Hr'. injection Hr' as <-.
    unfold r1, recordScenarioStats in Hdone. cbn in Hdone. congruence.
Qed.

(** C9. In a document that holds a 'cold-4bet' record, after any history
    of attempts: a scenario attempt that newly completes its scenario while
    at least two of the four Tier-1 scenarios have a best score of 75 or
    more leaves 'cold-4bet' unlocked; and if 'cold-4bet' was locked at the
    start, it is still locked, before and after that attempt, while fewer
    than two Tier-1 scenarios have such a best score. *)
Theorem cold4bet_unlock_rule (history : list Attempt) (now id : string)
    (stats : Stats) (p : Progress)
    (Hpresent : is_Some (scenarioModules p !! "cold-4bet")) :
  let before := recordAttempts history p in
  let after := fst (updateScenarioProgress now id stats before) in
  (newlyCompleted id before after ->
   2 <= tier1Completed (scenarioModules after) ->
   cold4betUnlocked after = true) /\
  (cold4betUnlocked p = false ->
   tier1Completed (scenarioModules before) < 2 ->
   cold4betUnlocked before = false) /\
  (cold4betUnlocked p = false ->
   tier1Completed (scenarioModules after) < 2 ->
   cold4betUnlocked after = false).
Proof.
  intros before after. split; [ | split ].
  - apply updateScenarioProgress_unlocks.
    destruct Hpresent as [c Hc].
    destruct (recordAttempts_keeps history p) as [_ Hs].
    specialize (Hs "cold-4bet"). unfold keeps in Hs. rewrite Hc in Hs.
    fold before in Hs.
    destruct (scenarioModules before !! "cold-4bet"); [ eauto | contradiction ].
  - intros Hlocked Hcount. apply recordAttempts_locked; assumption.
  - intros Hlocked Hcount.
    assert (Heq : after =
              recordAttempts (history ++ [ScenarioAttempt now id stats]) p).
    { unfold recordAttempts. rewrite fold_left_app. reflexivity. }
    rewrite Heq in *. apply recordAttempts_locked; assumption.
Qed.

Lemma cold4bet_unlock_rule_witness :
  cold4betUnlocked
    (fst (updateScenarioProgress "t2" "bb-defense" sampleStats
            (recordAttempts [ScenarioAttempt "t1" "defend-3bet" sampleStats]
               DEFAULT_PROGRESS))) = true /\
  cold4betUnlocked
    (fst (updateScenarioProgress "t1" "defend-3bet" sampleStats
            (recordAttempts [] DEFAULT_PROGRESS))) = false.
Proof.
  split.
  - apply (cold4bet_unlock_rule
             [ScenarioAttempt "t1" "defend-3bet" sampleStats]
             "t2" "bb-defense" sampleStats DEFAULT_PROGRESS).
    + exists (defaultScenario false). vm_compute. reflexivity.
    + exists (Scenario.mk true false 0 0 None),
             (Scenario.mk true true 80 1 (Some "t2")).
      repeat split; vm_compute; reflexivity.
    + apply Z.leb_le. vm_compute. reflexivity.
  - apply (cold4bet_unlock_rule [] "t1" "defend-3bet" sampleStats
             DEFAULT_PROGRESS).
    + exists (defaultScenario false). vm_compute. reflexivity.
    + vm_compute. reflexivity.
    + apply Z.ltb_lt. vm_compute. reflexivity.
Defined.

(** Two attempts on the first drill with falling accuracy: the best score
    stays at the higher value and the drill stays completed. *)
Example falling_accuracy_keeps_best :
  drillModules
    (recordAttempts
       [DrillAttempt "t1" "hand-ranking" (mkStats (Some 90%Q) (Some 12%Q) (Some 1500%Q));
        DrillAttempt "t2" "hand-ranking" (mkStats (Some 60%Q) (Some 3%Q) (Some 2500%Q))]
       DEFAULT_PROGRESS) !! "hand-ranking" =
  Some (Drill.mk true true 90 12 (Some 1500%Q) 2 (Some "t2")).
Proof. vm_compute. reflexivity. Qed.

End StorageProperties.

(** * Properties of the scenario engine *)

Section EngineProperties.

Import Engine.

Context {QuestionData Answer Explanation RangeDisplay : Type}.
Variable cfg : Config QuestionData Answer Explanation RangeDisplay.

Lemma bumpCategory_lookup (cat : string) (ok : bool)
    (m : gmap string CategoryStat) :
  bumpCategory cat ok m !! cat =
  match m !! cat with
  | Some c =>
      Some (mkCategoryStat (total c + 1)
              (categoryCorrect c + if ok then 1 else 0))
  | None =>
      if inheritedMember cat then None
      else Some (mkCategoryStat 1 (if ok then 1 else 0))
  end.
Proof.
  unfold bumpCategory, countInCategory.
  destruct (m !! cat) as [c | ] eqn:E; [ | destruct (inheritedMember cat) ];
    destruct ok;
    rewrite ?lookup_alter_eq, ?E, ?lookup_insert_eq; cbn;
    repeat f_equal; lia.
Qed.

Lemma bumpCategory_other (cat other : string) (ok : bool)
    (m : gmap string CategoryStat) :
  cat <> other -> bumpCategory cat ok m !! other = m !! other.
Proof.
  intros Hne. unfold bumpCategory, countInCategory.
  destruct (m !! cat) as [c | ]; [ | destruct (inheritedMember cat) ];
    destruct ok;
    rewrite ?lookup_alter_ne by exact Hne;
    rewrite ?lookup_insert_ne by exact Hne; reflexivity.
Qed.

Lemma submitAnswer_rejected (now : Q) (answer : Answer)
    (w : World QuestionData Answer Explanation) :
  answerable (state w) = false -> submitAnswer cfg now answer w = (w, None).
Proof.
  unfold answerable, submitAnswer.
  destruct (active (state w)); [ | reflexivity ].
  destruct (currentQuestionData (state w)); [ discriminate | reflexivity ].
Qed.

Lemma nextQuestion_inactive (now : Q) (stamp : string)
    (w : World QuestionData Answer Explanation) :
  active (state w) = false -> nextQuestion cfg now stamp w = w.
Proof. unfold nextQuestion. intros ->. reflexivity. Qed.

(** Once stopped, an engine ignores every later call until it is started
    again. *)
Lemma calls_after_stop (later : list (Call Answer))
    (w : World QuestionData Answer Explanation) :
  active (state w) = false -> calls cfg later w = w.
Proof.
  intros Hoff. induction later as [ | c later IH]; [ reflexivity | ].
  cbn [calls fold_left]. fold (calls cfg later).
  assert (Hc : call cfg c w = w).
  { destruct c as [ | now stamp | now answer ]; cbn [call].
    - destruct w as [[a n k q t ts ans cs] st]. cbn in Hoff. subst a. reflexivity.
    - apply nextQuestion_inactive, Hoff.
    - rewrite submitAnswer_rejected; [ reflexivity | ].
      unfold answerable. rewrite Hoff. reflexivity. }
  rewrite Hc. exact IH.
Qed.

(** C1 (as the code has it). [submitAnswer] never writes the progress
    store; it is rejected, returning [null] and changing nothing, exactly
    when the session is not active or no question has been generated.
    Otherwise it is accepted: it appends one answer record and one question
    time, counts the answer in [correct] and in the counter of its
    category, which it creates when there is none (a category without
    counter that names an inherited member gets none and is not counted),
    leaves the counters of all other categories alone, and leaves the
    question in place and the session answerable, so that the engine
    itself accepts a further answer to the same question. *)
Theorem submitAnswer_gate (now : Q) (answer : Answer)
    (w : World QuestionData Answer Explanation) :
  let s := state w in
  let out := submitAnswer cfg now answer w in
  let s' := state (fst out) in
  store (fst out) = store w /\
  if answerable s then
    exists q r,
      currentQuestionData s = Some q /\
      snd out = Some r /\
      res_isCorrect r = valid (validateAnswer cfg answer q) /\
      answers s' =
        (answers s ++
         [mkAnswerRecord (currentQuestion s) q answer
            (validAnswer (validateAnswer cfg answer q))
            (valid (validateAnswer cfg answer q))
            (now - questionStartTime s)%Q
            (getExplanation cfg q (validateAnswer cfg answer q))])%list /\
      questionTimes s' =
        (questionTimes s ++ [(now - questionStartTime s)%Q])%list /\
      correct s' =
        correct s + (if valid (validateAnswer cfg answer q) then 1 else 0) /\
      categoryStats s' !! categoryOf cfg q =
        match categoryStats s !! categoryOf cfg q with
        | Some c =>
            Some (mkCategoryStat (total c + 1)
                    (categoryCorrect c +
                     if valid (validateAnswer cfg answer q) then 1 else 0))
        | None =>
            if inheritedMember (categoryOf cfg q) then None
            else Some (mkCategoryStat 1
                         (if valid (validateAnswer cfg answer q) then 1 else 0))
        end /\
      (forall other, categoryOf cfg q <> other ->
                     categoryStats s' !! other = categoryStats s !! other) /\
      currentQuestion s' = currentQuestion s /\
      currentQuestionData s' = currentQuestionData s /\
      answerable s' = true
  else out = (w, None).
Proof.
  cbv zeta. destruct (answerable (state w)) eqn:Eok.
  - unfold answerable in Eok. unfold submitAnswer.
    destruct (active (state w)) eqn:Eact; [ | discriminate ].
    destruct (currentQuestionData (state w)) as [q | ] eqn:Eq; [ | discriminate ].
    cbn. split; [ reflexivity | ].
    exists q. eexists. split; [ reflexivity | ].
    split; [ reflexivity | ]. cbn.
    split; [ reflexivity | ]. split; [ reflexivity | ].
    split; [ reflexivity | ].
    split; [ destruct (valid (validateAnswer cfg answer q)); lia | ].
    split; [ apply bumpCategory_lookup | ].
    split; [ intros other Hne; apply bumpCategory_other, Hne | ].
    repeat split.
  - rewrite (submitAnswer_rejected _ _ _ Eok). split; reflexivity.
Qed.

(** C10. [stop] clears the active flag and changes nothing else: the
    question counter, the correct count, the answers, the question times,
    the category statistics, the pending question and its start time are
    those of the state before, and the progress store is untouched. No
    later [stop], [nextQuestion] or [submitAnswer] changes the stopped
    engine or the store, so the persisted record, attempts included, stays
    as it was. In any state [submitAnswer] leaves the store alone and
    [nextQuestion] changes it only through [endScenario], when the session
    is active and its last question has been passed. *)
Theorem stop_changes_only_active (w : World QuestionData Answer Explanation)
    (later : list (Call Answer)) (now : Q) (stamp : string) (answer : Answer) :
  active (state (stop w)) = false /\
  currentQuestion (state (stop w)) = currentQuestion (state w) /\
  correct (state (stop w)) = correct (state w) /\
  answers (state (stop w)) = answers (state w) /\
  questionTimes (state (stop w)) = questionTimes (state w) /\
  categoryStats (state (stop w)) = categoryStats (state w) /\
  currentQuestionData (state (stop w)) = currentQuestionData (state w) /\
  questionStartTime (state (stop w)) = questionStartTime (state w) /\
  store (stop w) = store w /\
  calls cfg later (stop w) = stop w /\
  store (calls cfg later (stop w)) = store w /\
  store (fst (submitAnswer cfg now answer w)) = store w /\
  store (nextQuestion cfg now stamp w) =
    (if active (state w) && (totalQuestions cfg <=? currentQuestion (state w))
     then store (endScenario cfg stamp w)
     else store w).
Proof.
  assert (Hlater : calls cfg later (stop w) = stop w)
    by (apply calls_after_stop; reflexivity).
  rewrite Hlater.
  repeat split; try reflexivity; try exact Hlater.
  - unfold submitAnswer.
    destruct (active (state w)); [ | reflexivity ].
    destruct (currentQuestionData (state w)); reflexivity.
  - unfold nextQuestion.
    destruct (active (state w)); cbn [negb andb]; [ | reflexivity ].
    destruct (totalQuestions cfg <=? currentQuestion (state w)); reflexivity.
Qed.

End EngineProperties.

(** A session played to its end records one attempt; the same session quit
    before the last [nextQuestion] records none. *)
Example finished_session_records_attempt :
  Engine.attemptsOf "defend-3bet"
    (Engine.store
       (Engine.calls Engine.shortConfig
          [Engine.CallSubmit 900 "Fold"; Engine.CallNext 1000 "t1";
           Engine.CallSubmit 1800 "Call"; Engine.CallNext 2000 "t2"]
          (Engine.start Engine.shortConfig 0 "t0" Engine.sampleWorld))) = Some 1
  /\
  Engine.attemptsOf "defend-3bet"
    (Engine.store
       (Engine.calls Engine.shortConfig
          [Engine.CallSubmit 900 "Fold"; Engine.CallNext 1000 "t1";
           Engine.CallSubmit 1800 "Call"; Engine.CallStop;
           Engine.CallNext 2000 "t2"]
          (Engine.start Engine.shortConfig 0 "t0" Engine.sampleWorld))) = Some 0.
Proof. split; vm_compute; reflexivity. Qed.

(** C1 as stated fails: after a first accepted answer to a question of the
    sample scenario, a second answer to the same question is accepted as
    well and is recorded. *)
Lemma second_submitAnswer_is_accepted :
  ~ (forall (cfg : Engine.Config string string string string)
            (w : Engine.World string string string)
            (now now' : Q) (a a' : string),
        snd (Engine.submitAnswer cfg now a w) <> None ->
        let w1 := fst (Engine.submitAnswer cfg now a w) in
        let w2 := fst (Engine.submitAnswer cfg now' a' w1) in
        snd (Engine.submitAnswer cfg now' a' w1) = None /\
        Engine.answers (Engine.state w2) = Engine.answers (Engine.state w1) /\
        Engine.correct (Engine.state w2) = Engine.correct (Engine.state w1) /\
        Engine.categoryStats (Engine.state w2) =
          Engine.categoryStats (Engine.state w1) /\
        Engine.questionTimes (Engine.state w2) =
          Engine.questionTimes (Engine.state w1)).
Proof.
  intros H.
  destruct (H Engine.sampleConfig
              (Engine.start Engine.sampleConfig 0 "t0" Engine.sampleWorld)
              1200%Q 1900%Q "Call" "Fold") as (Hnull & _ & Hcorrect & _).
  - vm_compute. discriminate.
  - vm_compute in Hnull. discriminate Hnull.
Qed.

(** * Properties of the opening ranges *)

Section DedupFacts.

(** Facts about [new Set(array)], for any element type with a boolean
    equality test. *)
Context {A : Type} (eqb : A -> A -> bool).
Hypothesis eqb_eq : forall a b, eqb a b = true <-> a = b.

Let step (acc : list A) (h : A) : list A :=
  if existsb (eqb h) acc then acc else (acc ++ [h])%list.

Lemma existsb_eqb_In (x : A) (l : list A) : existsb (eqb x) l = true <-> In x l.
Proof.
  rewrite existsb_exists. split.
  - intros (y & Hy & E). apply eqb_eq in E. subst. exact Hy.
  - intros H. exists x. split; [ exact H | apply eqb_eq; reflexivity ].
Qed.

Lemma dedup_In (x : A) (l acc : list A) :
  In x (fold_left step l acc) <-> In x acc \/ In x l.
Proof.
  revert acc. induction l as [ | h l IH]; intros acc; cbn [fold_left].
  - simpl. tauto.
  - rewrite IH. unfold step.
    destruct (existsb (eqb h) acc) eqn:E.
    + apply existsb_eqb_In in E. simpl. split; [ tauto | ].
      intros [H | [H | H]]; subst; tauto.
    + rewrite in_app_iff. simpl. tauto.
Qed.

Lemma dedup_NoDup (l acc : list A) :
  List.NoDup acc -> List.NoDup (fold_left step l acc).
Proof.
  revert acc. induction l as [ | h l IH]; intros acc Hacc; cbn [fold_left].
  - exact Hacc.
  - apply IH. unfold step.
    destruct (existsb (eqb h) acc) eqn:E; [ exact Hacc | ].
    assert (Hnot : ~ In h acc).
    { intros Hin. apply existsb_eqb_In in Hin. congruence. }
    clear E. induction acc as [ | a acc IHacc]; simpl.
    + constructor; [ intros [] | constructor ].
    + inversion Hacc as [ | ? ? Ha Hrest]; subst. constructor.
      * rewrite in_app_iff. simpl. intros [H | [H | []]]; [ tauto | ].
        subst. apply Hnot. left. reflexivity.
      * apply IHacc; [ exact Hrest | ].
        intros H. apply Hnot. right. exact H.
Qed.

End DedupFacts.

Section RangesProperties.

Import Ranges.

Lemma optStringEqb_eq (a b : option string) :
  RangeGrid.optStringEqb a b = true <-> a = b.
Proof.
  destruct a as [x | ], b as [y | ]; simpl; try (split; congruence).
  rewrite String.eqb_eq. split; congruence.
Qed.

Lemma string_eqb_eq (a b : string) : String.eqb a b = true <-> a = b.
Proof. apply String.eqb_eq. Qed.

Lemma userHas_newSet (l : list (option string)) (h : string) :
  userHas (RangeGrid.newSet l) h = true <-> In (Some h) l.
Proof.
  unfold userHas, RangeGrid.newSet.
  rewrite (existsb_eqb_In _ optStringEqb_eq).
  rewrite (dedup_In _ optStringEqb_eq). simpl. tauto.
Qed.

Lemma setHas_In (s : list string) (h : string) :
  setHas s h = true <-> In h s.
Proof. apply (existsb_eqb_In _ string_eqb_eq). Qed.

Lemma setOf_In (l : list string) (h : string) : In h (setOf l) <-> In h l.
Proof. unfold setOf. rewrite (dedup_In _ string_eqb_eq). simpl. tauto. Qed.

Lemma omapM_fixed {A B} (f : A -> outcome B) (g : A -> B) (l : list A) :
  Forall (fun a => f a = Value (g a)) l -> omapM f l = Value (map g l).
Proof.
  induction 1 as [ | a l Ha _ IH]; cbn [omapM map]; [ reflexivity | ].
  rewrite Ha, IH. reflexivity.
Qed.

(** Case analysis on a grid index. *)
Ltac index_cases x H :=
  let E := fresh "E" in
  assert (E : (x = 0 \/ x = 1 \/ x = 2 \/ x = 3 \/ x = 4 \/ x = 5 \/ x = 6 \/
               x = 7 \/ x = 8 \/ x = 9 \/ x = 10 \/ x = 11 \/ x = 12)%nat) by lia;
  clear H;
  repeat (destruct E as [E | E]; [subst x | ]); [.. | subst x].

Lemma gridIndices_In (i : nat) : In i gridIndices <-> (i < 13)%nat.
Proof. unfold gridIndices. rewrite in_seq. lia. Qed.

(** Inside the grid every cell has a hand, the hand is a canonical
    notation and it maps back to its cell. *)
Lemma handAt_cell (row col : nat) :
  (row < 13)%nat -> (col < 13)%nat ->
  exists h,
    handAt row col = Some h /\
    Hands.normalizeHand h = Value (Some h) /\
    Hands.getGridPosition h =
      Some (Hands.mkPos (Z.of_nat row) (Z.of_nat col)).
Proof.
  intros Hrow Hcol. index_cases row Hrow; index_cases col Hcol;
    (eexists; split; [ vm_compute; reflexivity | ];
     split; vm_compute; reflexivity).
Qed.

Lemma handAt_injective (row col row' col' : nat) (h : string) :
  (row < 13)%nat -> (col < 13)%nat -> (row' < 13)%nat -> (col' < 13)%nat ->
  handAt row col = Some h -> handAt row' col' = Some h ->
  row = row' /\ col = col'.
Proof.
  intros Hr Hc Hr' Hc' H H'.
  destruct (handAt_cell row col Hr Hc) as (h1 & E1 & _ & P1).
  destruct (handAt_cell row' col' Hr' Hc') as (h2 & E2 & _ & P2).
  rewrite H in E1. rewrite H' in E2.
  injection E1 as <-. injection E2 as <-.
  rewrite P1 in P2. injection P2 as Hrow Hcol. lia.
Qed.

Lemma gridHands_In (h : string) :
  In h gridHands <->
  exists row col, (row < 13)%nat /\ (col < 13)%nat /\ handAt row col = Some h.
Proof.
  unfold gridHands. rewrite in_flat_map. split.
  - intros (row & Hrow & Hin). apply in_flat_map in Hin as (col & Hcol & Hin).
    apply gridIndices_In in Hrow, Hcol.
    exists row, col. destruct (handAt row col) as [h' | ]; simpl in Hin;
      [ | contradiction ].
    destruct Hin as [-> | []]. auto.
  - intros (row & col & Hrow & Hcol & E).
    exists row. split; [ apply gridIndices_In, Hrow | ].
    apply in_flat_map. exists col. split; [ apply gridIndices_In, Hcol | ].
    rewrite E. left. reflexivity.
Qed.

Lemma gridHands_canonical (h : string) :
  In h gridHands -> Hands.normalizeHand h = Value (Some h).
Proof.
  intros Hin. apply gridHands_In in Hin as (row & col & Hr & Hc & E).
  destruct (handAt_cell row col Hr Hc) as (h' & E' & Hn & _).
  congruence.
Qed.

Lemma gridHands_NoDup : List.NoDup gridHands.
Proof.
  apply NoDup_ListNoDup. apply (bool_decide_unpack _). vm_compute. reflexivity.
Qed.

Lemma filter_NoDup_sub (f : string -> bool) (l : list string) :
  List.NoDup l -> List.NoDup (List.filter f l).
Proof. apply List.NoDup_filter. Qed.

Lemma gridToHands_wellFormed (grid : Grid) :
  wellFormed grid -> gridToHands grid = Value (pickedHands grid).
Proof.
  intros [Hlen _]. unfold gridToHands, pickedHands.
  rewrite (omapM_fixed _ (fun row => rowHands row (nth row grid []))).
  - reflexivity.
  - apply List.Forall_forall. intros row Hrow. apply gridIndices_In in Hrow.
    rewrite (nth_error_nth' grid []) by lia. reflexivity.
Qed.

Lemma pickedHands_In (grid : Grid) (h : string) :
  In h (pickedHands grid) <->
  exists row col,
    (row < 13)%nat /\ (col < 13)%nat /\
    cellOf (nth row grid []) col = true /\ handAt row col = Some h.
Proof.
  unfold pickedHands. rewrite in_concat. split.
  - intros (hs & Hhs & Hin). apply in_map_iff in Hhs as (row & <- & Hrow).
    unfold rowHands in Hin. apply in_flat_map in Hin as (col & Hcol & Hin).
    apply gridIndices_In in Hrow, Hcol. exists row, col.
    destruct (cellOf (nth row grid []) col); [ | contradiction ].
    destruct (handAt row col) as [h' | ]; simpl in Hin; [ | contradiction ].
    destruct Hin as [-> | []]. auto.
  - intros (row & col & Hrow & Hcol & Hcell & Hhand).
    exists (rowHands row (nth row grid [])). split.
    + apply in_map_iff. exists row. split; [ reflexivity | ].
      apply gridIndices_In, Hrow.
    + unfold rowHands. apply in_flat_map. exists col.
      split; [ apply gridIndices_In, Hcol | ].
      rewrite Hcell, Hhand. left. reflexivity.
Qed.

Lemma pickedHands_sub (grid : Grid) (h : string) :
  In h (pickedHands grid) -> In h gridHands.
Proof.
  rewrite pickedHands_In, gridHands_In.
  intros (row & col & Hr & Hc & _ & E). eauto.
Qed.

Lemma flat_map_NoDup {A B} (F : A -> list B) (l : list A) :
  List.NoDup l ->
  (forall a, In a l -> List.NoDup (F a)) ->
  (forall a a' b, In a l -> In a' l -> In b (F a) -> In b (F a') -> a = a') ->
  List.NoDup (flat_map F l).
Proof.
  induction l as [ | a l IH]; intros Hnd Heach Hdisj; cbn [flat_map].
  - constructor.
  - inversion Hnd as [ | ? ? Hnotin Hnd']; subst.
    apply NoDup_ListNoDup, NoDup_app. split; [ | split ].
    + apply NoDup_ListNoDup, Heach. left. reflexivity.
    + intros b Hb Hb'. apply list_elem_of_In in Hb, Hb'.
      apply in_flat_map in Hb' as (a' & Ha' & Hb').
      assert (a = a') by (apply (Hdisj a a' b); simpl; auto).
      subst. contradiction.
    + apply NoDup_ListNoDup, IH; [ exact Hnd' | | ].
      * intros a0 H0. apply Heach. right. exact H0.
      * intros a0 a1 b H0 H1. apply Hdisj; right; assumption.
Qed.

Lemma rowHands_In (row : nat) (cells : list bool) (h : string) :
  In h (rowHands row cells) <->
  exists col, (col < 13)%nat /\ cellOf cells col = true /\ handAt row col = Some h.
Proof.
  unfold rowHands. rewrite in_flat_map. split.
  - intros (col & Hcol & Hin). apply gridIndices_In in Hcol. exists col.
    destruct (cellOf cells col); [ | contradiction ].
    destruct (handAt row col) as [h' | ]; simpl in Hin; [ | contradiction ].
    destruct Hin as [-> | []]. auto.
  - intros (col & Hcol & Hcell & Hh). exists col.
    split; [ apply gridIndices_In, Hcol | ]. rewrite Hcell, Hh. left. reflexivity.
Qed.

Lemma rowHands_NoDup (row : nat) (cells : list bool) :
  (row < 13)%nat -> List.NoDup (rowHands row cells).
Proof.
  intros Hrow. unfold rowHands. apply flat_map_NoDup.
  - apply seq_NoDup.
  - intros col _. destruct (cellOf cells col); [ | constructor ].
    destruct (handAt row col); repeat constructor. intros [].
  - intros col col' h Hcol Hcol' Hin Hin'.
    apply gridIndices_In in Hcol, Hcol'.
    destruct (cellOf cells col); [ | contradiction ].
    destruct (cellOf cells col'); [ | contradiction ].
    destruct (handAt row col) as [h0 | ] eqn:E; simpl in Hin; [ | contradiction ].
    destruct (handAt row col') as [h1 | ] eqn:E'; simpl in Hin'; [ | contradiction ].
    destruct Hin as [-> | []]. destruct Hin' as [-> | []].
    destruct (handAt_injective row col row col' h); auto.
Qed.

Lemma pickedHands_NoDup (grid : Grid) : List.NoDup (pickedHands grid).
Proof.
  unfold pickedHands. rewrite <- flat_map_concat_map. apply flat_map_NoDup.
  - apply seq_NoDup.
  - intros row Hrow. apply rowHands_NoDup, gridIndices_In, Hrow.
  - intros row row' h Hrow Hrow' Hin Hin'.
    apply gridIndices_In in Hrow, Hrow'.
    apply rowHands_In in Hin as (col & Hcol & _ & Hh).
    apply rowHands_In in Hin' as (col' & Hcol' & _ & Hh').
    destruct (handAt_injective row col row' col' h); auto.
Qed.

Lemma fillGrid_nth (f : string -> bool) (row col : nat) (h : string) :
  (row < 13)%nat -> (col < 13)%nat -> handAt row col = Some h ->
  nth_error (fillGrid f) row =
    Some (map (fun col => match handAt row col with
                          | Some hand => f hand
                          | None => false
                          end) gridIndices) /\
  nth_error (map (fun col => match handAt row col with
                             | Some hand => f hand
                             | None => false
                             end) gridIndices) col = Some (f h).
Proof.
  intros Hrow Hcol Hh. unfold fillGrid, gridIndices. split.
  - rewrite nth_error_map, nth_error_seq.
    destruct (row <? 13)%nat eqn:E; [ reflexivity | ].
    apply Nat.ltb_ge in E. lia.
  - rewrite nth_error_map, nth_error_seq.
    destruct (col <? 13)%nat eqn:E; [ simpl; rewrite Hh; reflexivity | ].
    apply Nat.ltb_ge in E. lia.
Qed.

(** A grid is determined by the cells inside 13 by 13. *)
Lemma grid_ext (g1 g2 : Grid) :
  wellFormed g1 -> wellFormed g2 ->
  (forall row col, (row < 13)%nat -> (col < 13)%nat ->
     cellOf (nth row g1 []) col = cellOf (nth row g2 []) col) ->
  g1 = g2.
Proof.
  intros [L1 F1] [L2 F2] Hcells. apply nth_error_ext. intros row.
  destruct (Nat.lt_ge_cases row 13) as [Hrow | Hrow].
  - rewrite (nth_error_nth' g1 []) by lia.
    rewrite (nth_error_nth' g2 []) by lia. f_equal.
    assert (R1 : List.length (nth row g1 []) = 13%nat).
    { rewrite List.Forall_forall in F1. apply F1, nth_In. lia. }
    assert (R2 : List.length (nth row g2 []) = 13%nat).
    { rewrite List.Forall_forall in F2. apply F2, nth_In. lia. }
    apply nth_error_ext. intros col.
    destruct (Nat.lt_ge_cases col 13) as [Hcol | Hcol].
    + specialize (Hcells row col Hrow Hcol). unfold cellOf in Hcells.
      rewrite (nth_error_nth' (nth row g1 []) false) in * by lia.
      rewrite (nth_error_nth' (nth row g2 []) false) in * by lia.
      congruence.
    + rewrite (proj2 (nth_error_None _ _)) by lia.
      rewrite (proj2 (nth_error_None _ _)) by lia. reflexivity.
  - rewrite (proj2 (nth_error_None _ _)) by lia.
    rewrite (proj2 (nth_error_None _ _)) by lia. reflexivity.
Qed.

Lemma fillGrid_wellFormed (f : string -> bool) : wellFormed (fillGrid f).
Proof.
  unfold wellFormed, fillGrid. split.
  - rewrite length_map. reflexivity.
  - apply List.Forall_forall. intros cells Hin.
    apply in_map_iff in Hin as (row & <- & _). rewrite length_map. reflexivity.
Qed.

Lemma fillGrid_cell (f : string -> bool) (row col : nat) (h : string) :
  (row < 13)%nat -> (col < 13)%nat -> handAt row col = Some h ->
  cellOf (nth row (fillGrid f) []) col = f h.
Proof.
  intros Hrow Hcol Hh.
  destruct (fillGrid_nth f row col h Hrow Hcol Hh) as [Hr Hc].
  rewrite (nth_error_nth (fillGrid f) row [] Hr).
  unfold cellOf. rewrite Hc. reflexivity.
Qed.

(** X1. Reading a well-formed 13x13 grid into hands and writing those hands
    back into a grid gives the same grid; the hands read are distinct. *)
Theorem grid_hands_round_trip (grid : Grid) (Hgrid : wellFormed grid) :
  exists hands,
    gridToHands grid = Value hands /\
    handsToGrid hands = Value grid /\
    List.NoDup hands.
Proof.
  exists (pickedHands grid).
  split; [ apply gridToHands_wellFormed, Hgrid | ].
  split.
  - unfold handsToGrid.
    rewrite (omapM_fixed _ Some).
    2:{ apply List.Forall_forall. intros h Hin.
        apply gridHands_canonical. apply (pickedHands_sub grid). exact Hin. }
    cbn [obind]. f_equal.
    apply grid_ext; [ apply fillGrid_wellFormed | exact Hgrid | ].
    intros row col Hrow Hcol.
    destruct (handAt_cell row col Hrow Hcol) as (h & Hh & _ & _).
    rewrite (fillGrid_cell _ row col h Hrow Hcol Hh).
    destruct (cellOf (nth row grid []) col) eqn:Ecell.
    + apply userHas_newSet, in_map, pickedHands_In. eauto 7.
    + destruct (userHas _ h) eqn:Ehas; [ | reflexivity ].
      apply userHas_newSet in Ehas. apply in_map_iff in Ehas as (h' & [= ->] & Hin).
      apply pickedHands_In in Hin as (row' & col' & Hr' & Hc' & Hcell' & Hh').
      destruct (handAt_injective row col row' col' h) as [-> ->]; auto.
      congruence.
  - apply pickedHands_NoDup.
Qed.

Lemma grid_hands_round_trip_witness :
  exists hands,
    gridToHands (rangeToGrid "UTG") = Value hands /\
    handsToGrid hands = Value (rangeToGrid "UTG") /\
    List.NoDup hands.
Proof.
  apply (grid_hands_round_trip (rangeToGrid "UTG")).
  split; [ reflexivity | ].
  vm_compute. repeat constructor.
Defined.

Lemma pickedHands_fillGrid (f : string -> bool) (h : string) :
  In h (pickedHands (fillGrid f)) <-> In h gridHands /\ f h = true.
Proof.
  rewrite pickedHands_In, gridHands_In. split.
  - intros (row & col & Hr & Hc & Hcell & Hh).
    rewrite (fillGrid_cell f row col h Hr Hc Hh) in Hcell. eauto 6.
  - intros [(row & col & Hr & Hc & Hh) Hf]. exists row, col.
    rewrite (fillGrid_cell f row col h Hr Hc Hh). auto.
Qed.

(** X2. Writing hands into a grid and reading the grid back gives, without
    repetition, exactly the normalized notations of the hands that name one
    of the 169 cells. *)
Theorem hands_grid_hands (hands : list string) (normalized : list (option string))
    (Hnorm : omapM Hands.normalizeHand hands = Value normalized) :
  exists grid back,
    handsToGrid hands = Value grid /\
    wellFormed grid /\
    gridToHands grid = Value back /\
    List.NoDup back /\
    forall h, In h back <-> In (Some h) normalized /\ In h gridHands.
Proof.
  exists (fillGrid (userHas (RangeGrid.newSet normalized))).
  exists (pickedHands (fillGrid (userHas (RangeGrid.newSet normalized)))).
  split; [ unfold handsToGrid; rewrite Hnorm; reflexivity | ].
  split; [ apply fillGrid_wellFormed | ].
  split; [ apply gridToHands_wellFormed, fillGrid_wellFormed | ].
  split; [ apply pickedHands_NoDup | ].
  intros h. rewrite pickedHands_fillGrid, userHas_newSet. tauto.
Qed.

Lemma hands_grid_hands_witness :
  exists grid back,
    handsToGrid ["kas"; "AKs"; "72"] = Value grid /\
    wellFormed grid /\
    gridToHands grid = Value back /\
    List.NoDup back /\
    forall h, In h back <-> In (Some h) [Some "AKs"; Some "AKs"; Some "72o"] /\
                            In h gridHands.
Proof.
  apply (hands_grid_hands ["kas"; "AKs"; "72"]). reflexivity.
Defined.

Lemma three_way_count (inUser inTarget : string -> bool) (l : list string) :
  (List.length
     (List.filter (fun hand => Bool.eqb (inUser hand) (inTarget hand)) l) +
   List.length
     (List.filter (fun hand => inTarget hand && negb (inUser hand)) l) +
   List.length
     (List.filter (fun hand => negb (inTarget hand && negb (inUser hand))
                               && (inUser hand && negb (inTarget hand))) l)
   = List.length l)%nat.
Proof.
  induction l as [ | h l IH]; cbn [List.filter]; [ reflexivity | ].
  destruct (inUser h), (inTarget h); cbn; lia.
Qed.

Lemma gridHands_length : List.length gridHands = 169%nat.
Proof. vm_compute. reflexivity. Qed.

(** X3. For a position of the table and hands that normalize, the
    similarity is the share of the 169 cells on which the two ranges agree,
    printed with one decimal, and the cells are split three ways: those that
    agree, the missing hands and the extra hands of [getRangeDifference]
    add up to 169. *)
Theorem similarity_accounts_for_difference (userHands : list string)
    (position : string) (range : list string) (normalized : list (option string))
    (Hpos : lookupKey OPENING_RANGES position = Some range)
    (Hnorm : omapM Hands.normalizeHand userHands = Value normalized) :
  exists (matches : nat) (d : Difference),
    getRangeSimilarity userHands position =
      Value (Text (RangeGrid.toFixed 1
                     ((inject_Z (Z.of_nat matches) / 169) * 100)%Q)) /\
    getRangeDifference userHands position = Value d /\
    (matches + List.length (missing d) + List.length (extra d) = 169)%nat.
Proof.
  unfold getRangeSimilarity, getRangeDifference. rewrite Hpos, Hnorm. cbn [obind].
  eexists. eexists. split; [ | split; [ reflexivity | ] ].
  - rewrite gridHands_length. reflexivity.
  - cbn [missing extra]. rewrite three_way_count. apply gridHands_length.
Qed.

Lemma similarity_accounts_for_difference_witness :
  exists (matches : nat) (d : Difference),
    getRangeSimilarity ["AA"; "72o"] "UTG" =
      Value (Text (RangeGrid.toFixed 1
                     ((inject_Z (Z.of_nat matches) / 169) * 100)%Q)) /\
    getRangeDifference ["AA"; "72o"] "UTG" = Value d /\
    (matches + List.length (missing d) + List.length (extra d) = 169)%nat.
Proof.
  apply (similarity_accounts_for_difference ["AA"; "72o"] "UTG"
           (getRangeHands "UTG") [Some "AA"; Some "72o"]); reflexivity.
Defined.

(** X4. The missing hands of [getRangeDifference] are exactly the cells'
    hands that are in the target range and not among the user's normalized
    hands, the extra hands exactly those among the user's hands and not in
    the target; both lists are free of repetitions and share no hand. *)
Theorem difference_is_set_difference (userHands : list string)
    (position : string) (range : list string) (normalized : list (option string))
    (Hpos : lookupKey OPENING_RANGES position = Some range)
    (Hnorm : omapM Hands.normalizeHand userHands = Value normalized) :
  exists d : Difference,
    getRangeDifference userHands position = Value d /\
    (forall h, In h (missing d) <->
               In h gridHands /\ In h range /\ ~ In (Some h) normalized) /\
    (forall h, In h (extra d) <->
               In h gridHands /\ In (Some h) normalized /\ ~ In h range) /\
    List.NoDup (missing d) /\ List.NoDup (extra d) /\
    (forall h, In h (missing d) -> ~ In h (extra d)).
Proof.
  unfold getRangeDifference. rewrite Hpos, Hnorm. cbn [obind].
  eexists. split; [ reflexivity | ]. cbn [missing extra].
  assert (Hmiss : forall h,
            In h (List.filter
                    (fun hand => setHas (setOf range) hand
                                 && negb (userHas (RangeGrid.newSet normalized) hand))
                    gridHands) <->
            In h gridHands /\ In h range /\ ~ In (Some h) normalized).
  { intros h. rewrite filter_In, andb_true_iff, negb_true_iff.
    rewrite setHas_In, setOf_In, <- not_true_iff_false, userHas_newSet. tauto. }
  assert (Hextra : forall h,
            In h (List.filter
                    (fun hand => negb (setHas (setOf range) hand
                                       && negb (userHas (RangeGrid.newSet normalized) hand))
                                 && (userHas (RangeGrid.newSet normalized) hand
                                     && negb (setHas (setOf range) hand)))
                    gridHands) <->
            In h gridHands /\ In (Some h) normalized /\ ~ In h range).
  { intros h. rewrite filter_In, !andb_true_iff, !negb_true_iff.
    rewrite andb_false_iff, negb_false_iff, <- !not_true_iff_false.
    rewrite setHas_In, setOf_In, userHas_newSet. tauto. }
  split; [ exact Hmiss | ]. split; [ exact Hextra | ].
  split; [ apply List.NoDup_filter, gridHands_NoDup | ].
  split; [ apply List.NoDup_filter, gridHands_NoDup | ].
  intros h Hm He. apply Hmiss in Hm. apply Hextra in He. tauto.
Qed.

Lemma difference_is_set_difference_witness :
  exists d : Difference,
    getRangeDifference ["AA"; "72o"] "UTG" = Value d /\
    (forall h, In h (missing d) <->
               In h gridHands /\ In h (getRangeHands "UTG") /\
               ~ In (Some h) [Some "AA"; Some "72o"]) /\
    (forall h, In h (extra d) <->
               In h gridHands /\ In (Some h) [Some "AA"; Some "72o"] /\
               ~ In h (getRangeHands "UTG")) /\
    List.NoDup (missing d) /\ List.NoDup (extra d) /\
    (forall h, In h (missing d) -> ~ In h (extra d)).
Proof.
  apply (difference_is_set_difference ["AA"; "72o"] "UTG"); reflexivity.
Defined.

(** Every position of the table, with its range. *)
Lemma known_position (position : string) (range : list string) :
  lookupKey OPENING_RANGES position = Some range ->
  (position = "UTG" \/ position = "MP" \/ position = "CO" \/
   position = "BTN" \/ position = "SB" \/ position = "BB") /\
  range = getRangeHands position.
Proof.
  intros H. split; [ | unfold getRangeHands; rewrite H; reflexivity ].
  unfold OPENING_RANGES in H. cbn [lookupKey] in H.
  repeat match type of H with
         | (if String.eqb ?k position then _ else _) = _ =>
             let E := fresh "E" in
             destruct (String.eqb k position) eqn:E;
             [ apply String.eqb_eq in E; subst; tauto | ]
         end.
  discriminate.
Qed.

Lemma range_on_grid (position : string) (range : list string) :
  lookupKey OPENING_RANGES position = Some range ->
  List.NoDup range /\ (forall h, In h range -> In h gridHands).
Proof.
  intros H. destruct (known_position _ _ H) as [Hp ->].
  assert (Hcheck : forall p,
            forallb (fun h => existsb (String.eqb h) gridHands) (getRangeHands p)
              = true ->
            forall h, In h (getRangeHands p) -> In h gridHands).
  { intros p Hall h Hin. rewrite forallb_forall in Hall.
    apply (existsb_eqb_In _ string_eqb_eq), Hall, Hin. }
  split.
  - destruct Hp as [-> | [-> | [-> | [-> | [-> | ->]]]]];
      apply NoDup_ListNoDup, (bool_decide_unpack _); vm_compute; reflexivity.
  - destruct Hp as [-> | [-> | [-> | [-> | [-> | ->]]]]];
      apply Hcheck; vm_compute; reflexivity.
Qed.

(** X5. A position's own range agrees with itself on every cell: its
    similarity is "100.0" and no hand is missing or extra. *)
Theorem own_range_is_fully_similar (position : string) (range : list string)
    (Hpos : lookupKey OPENING_RANGES position = Some range) :
  getRangeSimilarity range position = Value (Text "100.0") /\
  getRangeDifference range position = Value (mkDifference [] []).
Proof.
  destruct (known_position _ _ Hpos) as [Hp ->].
  destruct Hp as [-> | [-> | [-> | [-> | [-> | ->]]]]];
    split; vm_compute; reflexivity.
Qed.

Lemma own_range_is_fully_similar_witness :
  getRangeSimilarity (getRangeHands "BTN") "BTN" = Value (Text "100.0") /\
  getRangeDifference (getRangeHands "BTN") "BTN" = Value (mkDifference [] []).
Proof. apply (own_range_is_fully_similar "BTN"). reflexivity. Defined.

Lemma fillGrid_ext (f g : string -> bool) :
  (forall h, In h gridHands -> f h = g h) -> fillGrid f = fillGrid g.
Proof.
  intros Hfg. unfold fillGrid. apply map_ext_in. intros row Hrow.
  apply map_ext_in. intros col Hcol. apply gridIndices_In in Hrow, Hcol.
  destruct (handAt row col) as [h | ] eqn:E; [ | reflexivity ].
  apply Hfg, gridHands_In. eauto.
Qed.

(** X6. For a position of the table, the grid of the position is the grid
    of its hands, and reading that grid back gives the range again, up to
    the order of the hands. *)
Theorem rangeToGrid_shows_the_range (position : string) (range : list string)
    (Hpos : lookupKey OPENING_RANGES position = Some range) :
  wellFormed (rangeToGrid position) /\
  handsToGrid (getRangeHands position) = Value (rangeToGrid position) /\
  exists back,
    gridToHands (rangeToGrid position) = Value back /\ back ≡ₚ range.
Proof.
  destruct (range_on_grid _ _ Hpos) as [Hnd Hgrid].
  unfold rangeToGrid, getRangeHands. rewrite Hpos.
  split; [ apply fillGrid_wellFormed | ]. split.
  - unfold handsToGrid. rewrite (omapM_fixed _ Some).
    2:{ apply List.Forall_forall. intros h Hin.
        apply gridHands_canonical, Hgrid, Hin. }
    cbn [obind]. f_equal. apply fillGrid_ext. intros h _.
    destruct (setHas range h) eqn:E.
    + apply userHas_newSet, in_map, setHas_In, E.
    + destruct (userHas _ h) eqn:E'; [ | reflexivity ].
      apply userHas_newSet, in_map_iff in E' as (h' & [= ->] & Hin).
      apply setHas_In in Hin. congruence.
  - exists (pickedHands (fillGrid (setHas range))).
    split; [ apply gridToHands_wellFormed, fillGrid_wellFormed | ].
    apply NoDup_Permutation.
    + apply NoDup_ListNoDup, pickedHands_NoDup.
    + apply NoDup_ListNoDup, Hnd.
    + intros h. rewrite !list_elem_of_In, pickedHands_fillGrid, setHas_In.
      split; [ tauto | ]. intros Hin. split; [ apply Hgrid, Hin | exact Hin ].
Qed.

Lemma rangeToGrid_shows_the_range_witness :
  wellFormed (rangeToGrid "CO") /\
  handsToGrid (getRangeHands "CO") = Value (rangeToGrid "CO") /\
  exists back,
    gridToHands (rangeToGrid "CO") = Value back /\ back ≡ₚ getRangeHands "CO".
Proof. apply (rangeToGrid_shows_the_range "CO"). reflexivity. Defined.

Lemma isRankLetter_cases (c : ascii) :
  Hands.isRankLetter c = true -> In (toUpperCase c) Hands.RANKS.
Proof.
  unfold Hands.isRankLetter. rewrite existsb_exists.
  intros (x & Hx & E). apply Ascii.eqb_eq in E. congruence.
Qed.

Lemma valid_normalized_on_grid (n : string) :
  Hands.validNotation n = true ->
  exists c row col,
    Hands.normalizeHand n = Value (Some c) /\
    (row < 13)%nat /\ (col < 13)%nat /\ handAt row col = Some c.
Proof.
  intros Hvalid.
  assert (Hshape : exists a b rest,
            n = String a (String b rest) /\
            In (toUpperCase a) Hands.RANKS /\ In (toUpperCase b) Hands.RANKS /\
            (Hands.suffixOf n = "s"%char \/ Hands.suffixOf n = "o"%char)).
  { destruct n as [ | a [ | b [ | c [ | ] ] ] ]; simpl in Hvalid; try discriminate.
    - apply andb_true_iff in Hvalid as [Ha Hb].
      exists a, b, EmptyString. repeat split; auto using isRankLetter_cases.
    - apply andb_true_iff in Hvalid as [Hab Hc].
      apply andb_true_iff in Hab as [Ha Hb].
      exists a, b, (String c EmptyString).
      repeat split; auto using isRankLetter_cases.
      unfold Hands.isShapeLetter in Hc. apply orb_true_iff in Hc.
      unfold Hands.suffixOf, charAt; simpl.
      destruct Hc as [Hc | Hc]; apply Ascii.eqb_eq in Hc; auto. }
  destruct Hshape as (a & b & rest & -> & Ha & Hb & Hs).
  rewrite normalizeHand_two. unfold Hands.highRank, Hands.lowRank.
  unfold Hands.RANKS in Ha, Hb. simpl in Ha, Hb.
  repeat (destruct Ha as [Ha | Ha]); try contradiction;
    repeat (destruct Hb as [Hb | Hb]); try contradiction;
    destruct Hs as [Hs | Hs]; rewrite <- Ha, <- Hb, Hs;
    match goal with
    | |- exists c row col, Value (Some ?t) = _ /\ _ =>
        exists t, (fst (cellOfHand t)), (snd (cellOfHand t))
    end;
    (split; [ reflexivity | ];
     split; [ apply Nat.ltb_lt; vm_compute; reflexivity | ];
     split; [ apply Nat.ltb_lt; vm_compute; reflexivity | ];
     vm_compute; reflexivity).
Qed.

(** X7. For a valid notation and a position of the table, [isInRange]
    answers what the position's grid shows in the cell of the normalized
    hand, and [getRecommendedAction] says "open" exactly when that cell is
    set. *)
Theorem isInRange_reads_the_grid (hand position : string) (range : list string)
    (Hvalid : Hands.validNotation hand = true)
    (Hpos : lookupKey OPENING_RANGES position = Some range) :
  exists c row col,
    Hands.normalizeHand hand = Value (Some c) /\
    (row < 13)%nat /\ (col < 13)%nat /\ handAt row col = Some c /\
    isInRange hand position =
      Value (cellOf (nth row (rangeToGrid position) []) col) /\
    getRecommendedAction hand position =
      Value (if cellOf (nth row (rangeToGrid position) []) col
             then "open" else "fold").
Proof.
  destruct (valid_normalized_on_grid hand Hvalid)
    as (c & row & col & Hn & Hrow & Hcol & Hcell).
  exists c, row, col. repeat split; try assumption.
  - unfold isInRange, rangeToGrid. rewrite Hn, Hpos. cbn [obind].
    rewrite (fillGrid_cell _ row col c Hrow Hcol Hcell). reflexivity.
  - unfold getRecommendedAction, rangeToGrid. rewrite Hn, Hpos. cbn [obind].
    rewrite (fillGrid_cell _ row col c Hrow Hcol Hcell). reflexivity.
Qed.

Lemma isInRange_reads_the_grid_witness :
  exists c row col,
    Hands.normalizeHand "qks" = Value (Some c) /\
    (row < 13)%nat /\ (col < 13)%nat /\ handAt row col = Some c /\
    isInRange "qks" "UTG" =
      Value (cellOf (nth row (rangeToGrid "UTG") []) col) /\
    getRecommendedAction "qks" "UTG" =
      Value (if cellOf (nth row (rangeToGrid "UTG") []) col
             then "open" else "fold").
Proof.
  apply (isInRange_reads_the_grid "qks" "UTG" (getRangeHands "UTG"));
    reflexivity.
Defined.

End RangesProperties.

(** * Properties of the board generators *)

Section BoardGenProperties.

Import BoardTexture BoardGen.

Lemma indexFor_lt (n : nat) (r : Q) (i : nat) :
  indexFor n r = Some i -> (i < n)%nat.
Proof.
  unfold indexFor. generalize (Qfloor (r * inject_Z (Z.of_nat n))). intros z.
  destruct (_ && _) eqn:E; [ | discriminate ].
  apply andb_true_iff in E as [E0 En]. intros [= <-].
  apply Z.leb_le in E0. apply Z.ltb_lt in En. lia.
Qed.

Lemma indexFor_inUnit (n : nat) (r : Q) :
  (0 < n)%nat -> inUnit r -> exists i, indexFor n r = Some i /\ (i < n)%nat.
Proof.
  intros Hn [H0 H1]. unfold indexFor.
  set (x := (r * inject_Z (Z.of_nat n))%Q).
  assert (Hn' : (0 < inject_Z (Z.of_nat n))%Q).
  { change 0%Q with (inject_Z 0). rewrite <- Zlt_Qlt. lia. }
  assert (Hx0 : (0 <= x)%Q).
  { apply Qmult_le_0_compat; [ exact H0 | apply Qlt_le_weak, Hn' ]. }
  assert (Hxn : (x < inject_Z (Z.of_nat n))%Q).
  { apply Qlt_le_trans with (1 * inject_Z (Z.of_nat n))%Q.
    - apply Qmult_lt_compat_r; assumption.
    - rewrite Qmult_1_l. apply Qle_refl. }
  assert (Hf0 : 0 <= Qfloor x).
  { change 0 with (Qfloor 0). apply Qfloor_resp_le, Hx0. }
  assert (Hfn : Qfloor x < Z.of_nat n).
  { rewrite Zlt_Qlt. eapply Qle_lt_trans; [ apply Qfloor_le | exact Hxn ]. }
  clearbody x. revert Hf0 Hfn. generalize (Qfloor x). intros z Hf0 Hfn.
  destruct (_ && _) eqn:E.
  - eexists. split; [ reflexivity | lia ].
  - apply andb_false_iff in E as [E | E];
      [ apply Z.leb_gt in E | apply Z.ltb_ge in E ]; lia.
Qed.

Lemma randomIndex_Some (n : nat) (rs rs' : Supply) (i : nat) :
  randomIndex n rs = Some (i, rs') ->
  (i < n)%nat /\ exists r, rs = r :: rs'.
Proof.
  unfold randomIndex. destruct rs as [ | r rs0]; [ discriminate | ].
  destruct (indexFor n r) as [j | ] eqn:E; [ | discriminate ].
  intros [= <- <-]. split; [ exact (indexFor_lt _ _ _ E) | eauto ].
Qed.

(** Take the next reading of the supply in a hypothesis about a generator
    and split on the index it gives. *)
Ltac next_draw H :=
  match type of H with
  | context [randomIndex ?n ?rs] =>
      let i := fresh "i" in
      let rs' := fresh "rs" in
      let E := fresh "E" in
      destruct (randomIndex n rs) as [[i rs'] | ] eqn:E;
      [ apply randomIndex_Some in E as [E _];
        repeat (destruct i as [ | i]; [ | try lia ]);
        try lia; clear E; cbv -[randomIndex otherRank] in H
      | cbv -[randomIndex otherRank] in H; discriminate H ]
  end.

Lemma dry_board_is_dry (exclude : list Card) (rs rest : Supply)
    (board : list Card) :
  generateDryBoard exclude rs = Some (board, rest) ->
  List.length board = 3%nat /\ analyzeBoardTexture board = Dry.
Proof.
  unfold generateDryBoard, dryCards, pick, spliceOne, bind. cbn.
  intros H. do 6 next_draw H;
    injection H as <- <-; split; vm_compute; reflexivity.
Qed.

Lemma wet_board_is_wet (exclude : list Card) (rs rest : Supply)
    (board : list Card) :
  generateWetBoard exclude rs = Some (board, rest) ->
  List.length board = 3%nat /\ analyzeBoardTexture board = Wet.
Proof.
  unfold generateWetBoard, pick, bind. cbn.
  intros H. do 3 next_draw H;
    injection H as <- <-; split; vm_compute; reflexivity.
Qed.

Lemma monotoneCards_suit (count : nat) (s : Suit) (ranks : list Rank)
    (rs rest : Supply) (board : list Card) :
  monotoneCards count s ranks rs = Some (board, rest) ->
  List.length board = count /\ Forall (fun c => suit c = s) board.
Proof.
  revert ranks rs board. induction count as [ | count IH];
    intros ranks rs board; cbn [monotoneCards].
  - unfold ret. intros [= <- <-]. split; [ reflexivity | constructor ].
  - unfold bind at 1.
    destruct (spliceOne ranks rs) as [[[rank ranks'] rs1] | ]; [ | discriminate ].
    unfold bind.
    destruct (monotoneCards count s ranks' rs1) as [[board' rs2] | ] eqn:E;
      [ | discriminate ].
    unfold ret. intros [= <- <-]. destruct (IH _ _ _ E) as [Hlen Hall].
    split; [ simpl; lia | constructor; [ reflexivity | exact Hall ] ].
Qed.

Lemma monotone_board_is_monotone (exclude : list Card) (rs rest : Supply)
    (board : list Card) :
  generateMonotoneBoard exclude rs = Some (board, rest) ->
  List.length board = 3%nat /\ analyzeBoardTexture board = Monotone.
Proof.
  unfold generateMonotoneBoard, bind.
  destruct (pick SUITS rs) as [[s rs1] | ]; [ | discriminate ].
  intros H. apply monotoneCards_suit in H as [Hlen Hall].
  split; [ exact Hlen | ].
  destruct board as [ | c0 [ | c1 [ | c2 [ | ] ] ] ]; try discriminate.
  inversion Hall as [ | ? ? H0 Hall1]; subst.
  inversion Hall1 as [ | ? ? H1 Hall2]; subst.
  inversion Hall2 as [ | ? ? H2 _]; subst.
  unfold analyzeBoardTexture.
  rewrite !bool_decide_eq_true_2 by congruence. reflexivity.
Qed.

Lemma paired_board_is_paired (exclude : list Card) (rs rest : Supply)
    (board : list Card) :
  generatePairedBoard exclude rs = Some (board, rest) ->
  List.length board = 3%nat /\ analyzeBoardTexture board = Paired.
Proof.
  unfold generatePairedBoard, bind at 1.
  destruct (pick RANKS rs) as [[pairRank rs0] | ]; [ | discriminate ].
  unfold spliceOne, pick, bind. cbn.
  intros H. do 2 next_draw H;
    (match type of H with
     | context [otherRank ?p ?r] =>
         destruct (otherRank p r) as [[thirdRank rs3] | ];
         [ | discriminate H ]
     end;
     next_draw H;
     (injection H as <- <-; split;
      [ reflexivity
      | unfold analyzeBoardTexture; cbn [rank suit map];
        rewrite (bool_decide_eq_true_2 (pairRank = pairRank)) by reflexivity;
        reflexivity ])).
Qed.

(** X8. Whatever the readings of [Math.random()], a board that
    [generateBoardWithTexture] returns has three cards and
    [analyzeBoardTexture] gives it the texture that was asked for (dry for
    an unknown texture name). *)
Theorem generated_board_has_requested_texture (texture : string)
    (exclude : list Card) (rs rest : Supply) (board : list Card)
    (Hgen : generateBoardWithTexture texture exclude rs = Some (board, rest)) :
  List.length board = 3%nat /\
  analyzeBoardTexture board = requestedTexture texture.
Proof.
  unfold generateBoardWithTexture, requestedTexture in *.
  destruct (String.eqb texture "dry") eqn:Edry.
  - apply String.eqb_eq in Edry. subst texture. cbn.
    exact (dry_board_is_dry _ _ _ _ Hgen).
  - destruct (String.eqb texture "wet");
      [ exact (wet_board_is_wet _ _ _ _ Hgen) | ].
    destruct (String.eqb texture "paired");
      [ exact (paired_board_is_paired _ _ _ _ Hgen) | ].
    destruct (String.eqb texture "monotone");
      [ exact (monotone_board_is_monotone _ _ _ _ Hgen) | ].
    exact (dry_board_is_dry _ _ _ _ Hgen).
Qed.

Lemma generated_board_has_requested_texture_witness :
  List.length [mkCard R8 Spades; mkCard R7 Spades; mkCard R6 Diamonds] = 3%nat /\
  analyzeBoardTexture [mkCard R8 Spades; mkCard R7 Spades; mkCard R6 Diamonds] =
    requestedTexture "wet".
Proof.
  apply (generated_board_has_requested_texture "wet" []
           [0.9; 0.4; 0.5; 0.1]%Q [0.1]%Q).
  vm_compute. reflexivity.
Defined.

Lemma randomIndex_inUnit (n : nat) (r : Q) (rs : Supply) :
  (0 < n)%nat -> inUnit r ->
  exists i, randomIndex n (r :: rs) = Some (i, rs) /\ (i < n)%nat.
Proof.
  intros Hn Hr. destruct (indexFor_inUnit n r Hn Hr) as (i & E & Hi).
  exists i. unfold randomIndex. rewrite E. auto.
Qed.

Lemma pick_inUnit {A} (l : list A) (r : Q) (rs : Supply) :
  l <> [] -> inUnit r ->
  exists x, pick l (r :: rs) = Some (x, rs) /\ In x l.
Proof.
  intros Hl Hr.
  assert (Hlen : (0 < List.length l)%nat) by (destruct l; simpl; [ congruence | lia ]).
  destruct (randomIndex_inUnit _ r rs Hlen Hr) as (i & E & Hi).
  unfold pick, bind. rewrite E. unfold at_.
  destruct (nth_error l i) as [x | ] eqn:Ex.
  - exists x. split; [ reflexivity | exact (nth_error_In _ _ Ex) ].
  - apply nth_error_None in Ex. lia.
Qed.

Lemma spliceOne_inUnit {A} (l : list A) (r : Q) (rs : Supply) :
  l <> [] -> inUnit r ->
  exists x l',
    spliceOne l (r :: rs) = Some ((x, l'), rs) /\
    S (List.length l') = List.length l.
Proof.
  intros Hl Hr.
  assert (Hlen : (0 < List.length l)%nat) by (destruct l; simpl; [ congruence | lia ]).
  destruct (randomIndex_inUnit _ r rs Hlen Hr) as (i & E & Hi).
  unfold spliceOne, bind. rewrite E. unfold at_.
  destruct (nth_error l i) as [x | ] eqn:Ex.
  - exists x, (firstn i l ++ skipn (S i) l)%list. split; [ reflexivity | ].
    rewrite length_app, length_firstn, length_skipn. lia.
  - apply nth_error_None in Ex. lia.
Qed.

Lemma dryCards_return (groups : list (list Rank)) (suits : list Suit)
    (rs : Supply) :
  Forall (fun g => g <> []) groups ->
  (List.length groups <= List.length suits)%nat ->
  Forall inUnit rs ->
  (2 * List.length groups <= List.length rs)%nat ->
  exists board,
    dryCards groups suits rs = Some (board, skipn (2 * List.length groups) rs).
Proof.
  revert suits rs. induction groups as [ | g groups IH];
    intros suits rs Hg Hsuits Hrs Hlen.
  - exists []. reflexivity.
  - inversion Hg as [ | ? ? Hne Hg']; subst.
    destruct rs as [ | r1 [ | r2 rs]]; simpl in Hlen; try lia.
    inversion Hrs as [ | ? ? Hr1 Hrs1]; subst.
    inversion Hrs1 as [ | ? ? Hr2 Hrs2]; subst.
    destruct (pick_inUnit g r1 (r2 :: rs) Hne Hr1) as (rank & Ep & _).
    assert (Hsne : suits <> []) by (destruct suits; simpl in *; [ lia | congruence ]).
    destruct (spliceOne_inUnit suits r2 rs Hsne Hr2) as (s & suits' & Es & Hl').
    destruct (IH suits' rs Hg') as (board & Eb); [ simpl in *; lia | exact Hrs2
                                                  | simpl in *; lia | ].
    exists (mkCard rank s :: board).
    cbn [dryCards]. unfold bind at 1. rewrite Ep.
    unfold bind at 1. rewrite Es. unfold bind, ret. rewrite Eb.
    replace (2 * List.length (g :: groups))%nat
      with (S (S (2 * List.length groups))) by (simpl; lia).
    reflexivity.
Qed.

Lemma monotoneCards_return (count : nat) (s : Suit) (ranks : list Rank)
    (rs : Supply) :
  (count <= List.length ranks)%nat ->
  Forall inUnit rs -> (count <= List.length rs)%nat ->
  exists board, monotoneCards count s ranks rs = Some (board, skipn count rs).
Proof.
  revert ranks rs. induction count as [ | count IH]; intros ranks rs Hranks Hrs Hlen.
  - exists []. reflexivity.
  - destruct rs as [ | r rs]; simpl in Hlen; [ lia | ].
    inversion Hrs as [ | ? ? Hr Hrs']; subst.
    assert (Hne : ranks <> []) by (destruct ranks; simpl in *; [ lia | congruence ]).
    destruct (spliceOne_inUnit ranks r rs Hne Hr) as (x & ranks' & Es & Hl').
    destruct (IH ranks' rs) as (board & Eb); [ lia | exact Hrs' | lia | ].
    exists (mkCard x s :: board).
    cbn [monotoneCards]. unfold bind at 1. rewrite Es.
    unfold bind, ret. rewrite Eb. reflexivity.
Qed.

(** X9. With readings in [0,1), six of them are enough for every texture
    but "paired": a dry board takes six readings, a wet board three and a
    monotone board four, and each is returned. *)
Theorem generators_return (texture : string) (exclude : list Card)
    (rs : Supply)
    (Hunit : Forall inUnit rs) (Hlen : (6 <= List.length rs)%nat)
    (Hother : texture <> "paired") :
  exists board,
    generateBoardWithTexture texture exclude rs =
      Some (board, skipn (drawsTaken texture) rs).
Proof.
  assert (Hdry : exists board,
            generateDryBoard exclude rs = Some (board, skipn 6 rs)).
  { unfold generateDryBoard.
    apply (dryCards_return [[RA; RK; RQ]; [R9; R8; R7]; [R4; R3; R2]] SUITS);
      [ repeat constructor; discriminate | simpl; lia | exact Hunit
      | simpl; lia ]. }
  unfold generateBoardWithTexture, drawsTaken.
  destruct (String.eqb texture "dry") eqn:Edry.
  { apply String.eqb_eq in Edry. subst texture. exact Hdry. }
  destruct (String.eqb texture "wet") eqn:Ewet.
  - destruct rs as [ | r1 [ | r2 [ | r3 rs]]]; simpl in Hlen; try lia.
    inversion Hunit as [ | ? ? H1 Hu1]; subst.
    inversion Hu1 as [ | ? ? H2 Hu2]; subst.
    inversion Hu2 as [ | ? ? H3 _]; subst.
    unfold generateWetBoard.
    destruct (pick_inUnit SUITS r1 (r2 :: r3 :: rs)) as (s & Es & _);
      [ discriminate | exact H1 | ].
    destruct (randomIndex_inUnit 3 r2 (r3 :: rs)) as (i & Ei & Hi);
      [ lia | exact H2 | ].
    destruct (randomIndex_inUnit 8 r3 rs) as (j & Ej & Hj);
      [ lia | exact H3 | ].
    unfold bind at 1. rewrite Es. unfold bind at 1. rewrite Ei.
    destruct s;
      (destruct i as [ | [ | [ | i]]]; [ | | | lia ];
       cbv -[randomIndex]; rewrite Ej;
       do 8 (destruct j as [ | j]; [ eexists; reflexivity | ]); lia).
  - destruct (String.eqb texture "paired") eqn:Epaired.
    { apply String.eqb_eq in Epaired. contradiction. }
    destruct (String.eqb texture "monotone") eqn:Emono; [ | exact Hdry ].
    destruct rs as [ | r1 rs]; simpl in Hlen; [ lia | ].
    inversion Hunit as [ | ? ? H1 Hu1]; subst.
    unfold generateMonotoneBoard.
    destruct (pick_inUnit SUITS r1 rs) as (s & Es & _);
      [ discriminate | exact H1 | ].
    destruct (monotoneCards_return 3 s RANKS rs) as (board & Eb);
      [ simpl; lia | exact Hu1 | lia | ].
    exists board. unfold bind. rewrite Es. exact Eb.
Qed.

Lemma generators_return_witness :
  exists board,
    generateBoardWithTexture "dry" [] [0.1; 0.9; 0.5; 0.2; 0.7; 0.3; 0.6]%Q =
      Some (board, skipn (drawsTaken "dry") [0.1; 0.9; 0.5; 0.2; 0.7; 0.3; 0.6]%Q).
Proof.
  apply (generators_return "dry" [] [0.1; 0.9; 0.5; 0.2; 0.7; 0.3; 0.6]%Q).
  - repeat constructor; vm_compute; congruence.
  - simpl. lia.
  - discriminate.
Defined.

Lemma otherRank_skips (pairRank other : Rank) (same : list Q) (d : Q)
    (rs : Supply) :
  Forall (fun r => rankOfDraw r = Some pairRank) same ->
  rankOfDraw d = Some other -> other <> pairRank ->
  otherRank pairRank (same ++ d :: rs)%list = Some (other, rs).
Proof.
  intros Hsame Hd Hne. induction Hsame as [ | r same Hr _ IH]; cbn [app otherRank].
  - unfold rankOfDraw in Hd.
    destruct (indexFor (List.length RANKS) d) as [i | ]; [ | discriminate ].
    rewrite Hd. rewrite bool_decide_eq_false_2 by exact Hne. reflexivity.
  - unfold rankOfDraw in Hr.
    destruct (indexFor (List.length RANKS) r) as [i | ]; [ | discriminate ].
    rewrite Hr. rewrite bool_decide_eq_true_2 by reflexivity. exact IH.
Qed.

(** X10. A paired board is returned as soon as the loop for the third rank
    meets a reading that gives another rank than the pair's: after the three
    readings for the pair, any number of readings that repeat the pair's
    rank, one that does not and one for the third suit, the board is
    returned and exactly those readings are used up. *)
Theorem paired_board_returns (exclude : list Card) (r1 r2 r3 : Q)
    (same : list Q) (d r4 : Q) (rest : Supply) (pairRank other : Rank)
    (H1 : inUnit r1) (H2 : inUnit r2) (H3 : inUnit r3) (H4 : inUnit r4)
    (Hpair : rankOfDraw r1 = Some pairRank)
    (Hsame : Forall (fun r => rankOfDraw r = Some pairRank) same)
    (Hd : rankOfDraw d = Some other) (Hne : other <> pairRank) :
  exists suit1 suit2 thirdSuit,
    generateBoardWithTexture "paired" exclude
      (r1 :: r2 :: r3 :: same ++ d :: r4 :: rest)%list =
    Some ([mkCard pairRank suit1; mkCard pairRank suit2;
           mkCard other thirdSuit], rest) /\
    suit1 <> suit2.
Proof.
  unfold generateBoardWithTexture. cbn [String.eqb Ascii.eqb Bool.eqb].
  unfold generatePairedBoard.
  assert (Ep : pick RANKS (r1 :: r2 :: r3 :: same ++ d :: r4 :: rest)%list =
               Some (pairRank, (r2 :: r3 :: same ++ d :: r4 :: rest)%list)).
  { unfold pick, bind, randomIndex. unfold rankOfDraw in Hpair.
    destruct (indexFor (List.length RANKS) r1) as [i | ]; [ | discriminate ].
    unfold at_. rewrite Hpair. reflexivity. }
  unfold bind at 1. rewrite Ep.
  destruct (randomIndex_inUnit 4 r2 (r3 :: same ++ d :: r4 :: rest)%list)
    as (i & Ei & Hi); [ lia | exact H2 | ].
  destruct (randomIndex_inUnit 3 r3 (same ++ d :: r4 :: rest)%list)
    as (j & Ej & Hj); [ lia | exact H3 | ].
  destruct (pick_inUnit SUITS r4 rest) as (s3 & Es3 & _);
    [ discriminate | exact H4 | ].
  pose proof (otherRank_skips pairRank other same d (r4 :: rest) Hsame Hd Hne)
    as Eo.
  remember (same ++ d :: r4 :: rest)%list as tail eqn:Etail. clear Etail.
  unfold SUITS in Es3.
  unfold spliceOne. unfold bind at 1. unfold bind at 1.
  cbn [List.length SUITS]. rewrite Ei.
  destruct i as [ | [ | [ | [ | i]]]]; try lia;
    (cbv -[randomIndex otherRank pick]; rewrite Ej;
     destruct j as [ | [ | [ | j]]]; try lia;
     (cbv -[randomIndex otherRank pick]; rewrite Eo;
      cbv -[randomIndex otherRank pick]; rewrite Es3;
      do 3 eexists; split; [ reflexivity | discriminate ])).
Qed.

Lemma paired_board_returns_witness :
  exists suit1 suit2 thirdSuit,
    generateBoardWithTexture "paired" []
      (0.1 :: 0.2 :: 0.3 :: ([0.1; 0.14] ++ 0.5 :: 0.9 :: [0.7])%list)%Q =
    Some ([mkCard RK suit1; mkCard RK suit2; mkCard R8 thirdSuit], [0.7]%Q) /\
    suit1 <> suit2.
Proof.
  apply (paired_board_returns [] 0.1 0.2 0.3 [0.1; 0.14]%Q 0.5 0.9 [0.7]%Q RK R8);
    try (split; vm_compute; congruence); try (vm_compute; reflexivity).
  - repeat constructor; vm_compute; reflexivity.
  - discriminate.
Defined.

End BoardGenProperties.


(** * Properties of the range statistics *)

Section RangeStatsProperties.

Import RangeGrid.

Lemma countBy_cons {A} (f : A -> bool) (x : A) (l : list A) :
  countBy f (x :: l) = (if f x then 1 else 0) + countBy f l.
Proof.
  unfold countBy. cbn [List.filter]. destruct (f x); cbn [List.length]; lia.
Qed.

Lemma countBy_agree {A} (f g : A -> bool) (l : list A) :
  (forall x, In x l -> f x = g x) -> countBy f l = countBy g l.
Proof.
  intros H. unfold countBy. rewrite (filter_ext_in f g l H). reflexivity.
Qed.

(** The loop [uniqueHands.forEach] over hands that are not [null]. *)
Lemma countHand_counts (l : list string) (p s o : Z) :
  fold_left countHand (List.map Some l) (Value (p, s, o)) =
  Value (p + countBy (fun h => Nat.eqb (String.length h) 2) l,
         s + countBy (fun h => negb (Nat.eqb (String.length h) 2)
                               && endsWith h "s") l,
         o + countBy (fun h => negb (Nat.eqb (String.length h) 2)
                               && negb (endsWith h "s")) l).
Proof.
  revert p s o. induction l as [ | h l IH]; intros p s o;
    cbn [List.map fold_left].
  - unfold countBy. cbn [List.filter List.length].
    change (Z.of_nat 0) with 0. rewrite !Z.add_0_r. reflexivity.
  - rewrite !countBy_cons. unfold countHand at 2. cbn [obind].
    destruct (Nat.eqb (String.length h) 2); cbn [negb andb];
      [ | destruct (endsWith h "s"); cbn [negb] ];
      rewrite IH, ?Z.add_0_l, ?Z.add_assoc; reflexivity.
Qed.

(** On the 169 hands, the tests of the loop read the shape of the hand. *)
Lemma shape_tests_on_grid (h : string) :
  In h Ranges.gridHands ->
  isPairHand h = Nat.eqb (String.length h) 2 /\
  isSuitedHand h = negb (Nat.eqb (String.length h) 2) && endsWith h "s".
Proof.
  assert (Hall : forallb
            (fun h => Bool.eqb (isPairHand h) (Nat.eqb (String.length h) 2)
                      && Bool.eqb (isSuitedHand h)
                           (negb (Nat.eqb (String.length h) 2)
                            && endsWith h "s"))
            Ranges.gridHands = true) by (vm_compute; reflexivity).
  rewrite forallb_forall in Hall. intros Hin. specialize (Hall h Hin).
  apply andb_true_iff in Hall as [H1 H2].
  split; apply Bool.eqb_prop; assumption.
Qed.

Lemma comboWeight_sum (l : list string) :
  fold_right Z.add 0 (List.map comboWeight l) =
  countBy isPairHand l * 6
  + countBy (fun h => negb (isPairHand h) && isSuitedHand h) l * 4
  + countBy (fun h => negb (isPairHand h) && negb (isSuitedHand h)) l * 12.
Proof.
  induction l as [ | h l IH]; [ reflexivity | ].
  cbn [List.map fold_right]. rewrite IH, !countBy_cons. unfold comboWeight.
  destruct (isPairHand h), (isSuitedHand h); cbn [negb andb]; lia.
Qed.

(** The normalized notations of valid notations. *)
Lemma normalize_valid (range : list string) :
  Forall (fun n => Hands.validNotation n = true) range ->
  exists cs,
    omapM Hands.normalizeHand range = Value (List.map Some cs) /\
    (forall h, In h cs <->
               exists n, In n range /\ Hands.normalizeHand n = Value (Some h)) /\
    (forall h, In h cs -> In h Ranges.gridHands).
Proof.
  induction 1 as [ | n range Hn _ (cs & Hcs & Hin & Hgrid)].
  - exists []. split; [ reflexivity | ]. split; [ | intros h [] ].
    intros h. split; [ intros [] | intros (n & [] & _) ].
  - destruct (valid_normalized_on_grid n Hn)
      as (c & row & col & Hc & Hrow & Hcol & Hat).
    exists (c :: cs). cbn [omapM List.map]. rewrite Hc, Hcs. cbn [obind].
    split; [ reflexivity | ]. split.
    + intros h. cbn [In]. rewrite Hin. split.
      * intros [<- | (m & Hm & Hh)]; [ exists n; auto | exists m; auto ].
      * intros (m & [<- | Hm] & Hh); [ left; congruence | right; eauto ].
    + intros h [<- | Hh]; [ apply gridHands_In; eauto | apply Hgrid, Hh ].
Qed.

Lemma In_Some (h : string) (l : list string) :
  In (Some h) (List.map Some l) <-> In h l.
Proof.
  rewrite in_map_iff. split.
  - intros (x & [= ->] & Hx). exact Hx.
  - intros Hx. exists h. split; [ reflexivity | exact Hx ].
Qed.

(** A duplicate-free list of [Some]s is the image of a duplicate-free list. *)
Lemma all_Some_map (us : list (option string)) :
  (forall x, In x us -> exists h, x = Some h) ->
  exists distinct, us = List.map Some distinct.
Proof.
  induction us as [ | x us IH]; intros H.
  - exists []. reflexivity.
  - destruct (H x (or_introl eq_refl)) as [h ->].
    destruct IH as [d ->]; [ intros y Hy; apply H; right; exact Hy | ].
    exists (h :: d). reflexivity.
Qed.

(** C8 (as the code has it). For a range of valid notations,
    [getRangeStats] counts each distinct normalized hand once: [hands] is
    the number of distinct normalized hands, [pairs], [suited] and [offsuit]
    are the numbers of pairs, of suited and of offsuit hands among them,
    [combos] weights each pair as 6, each suited hand as 4 and each offsuit
    hand as 12 combos, and [percentage] is the share of 1,326 combos as a
    string rounded to one decimal: {"AA"} gives 6 combos and "0.5", {"AKs"}
    4 combos and "0.3", {"AKo"} 12 combos and "0.9". *)
Theorem getRangeStats_weights (range : list string)
    (Hvalid : Forall (fun n => Hands.validNotation n = true) range) :
  (exists (distinct : list string) (st : RangeStats),
     getRangeStats range = Value st /\
     List.NoDup distinct /\
     (forall h, In h distinct <->
                exists n, In n range /\
                          Hands.normalizeHand n = Value (Some h)) /\
     hands st = Z.of_nat (List.length distinct) /\
     pairs st = countBy isPairHand distinct /\
     suited st = countBy (fun h => negb (isPairHand h) && isSuitedHand h)
                   distinct /\
     offsuit st = countBy (fun h => negb (isPairHand h)
                                    && negb (isSuitedHand h)) distinct /\
     combos st = fold_right Z.add 0 (List.map comboWeight distinct) /\
     combos st = pairs st * 6 + suited st * 4 + offsuit st * 12 /\
     percentage st = toFixed 1 ((inject_Z (combos st) / 1326) * 100)%Q) /\
  getRangeStats ["AA"] = Value (mkStats 1 1 0 0 6 "0.5") /\
  getRangeStats ["AKs"] = Value (mkStats 1 0 1 0 4 "0.3") /\
  getRangeStats ["AKo"] = Value (mkStats 1 0 0 1 12 "0.9").
Proof.
  split; [ | repeat split; vm_compute; reflexivity ].
  destruct (normalize_valid range Hvalid) as (cs & Hcs & Hin & Hgrid).
  assert (Hmem : forall x, In x (newSet (List.map Some cs)) <->
                           In x (List.map Some cs)).
  { intros x. unfold newSet. rewrite (dedup_In _ optStringEqb_eq).
    simpl. tauto. }
  assert (Hnd : List.NoDup (newSet (List.map Some cs))).
  { unfold newSet. apply (dedup_NoDup _ optStringEqb_eq). constructor. }
  destruct (all_Some_map (newSet (List.map Some cs))) as [distinct Hd].
  { intros x Hx. apply Hmem, in_map_iff in Hx as (h & <- & _). eauto. }
  assert (Hdin : forall h, In h distinct <-> In h cs).
  { intros h. rewrite <- (In_Some h distinct), <- (In_Some h cs), <- Hd. apply Hmem. }
  assert (Hshape : forall h, In h distinct ->
            isPairHand h = Nat.eqb (String.length h) 2 /\
            isSuitedHand h =
              negb (Nat.eqb (String.length h) 2) && endsWith h "s").
  { intros h Hh. apply shape_tests_on_grid, Hgrid, Hdin, Hh. }
  exists distinct. unfold getRangeStats. rewrite Hcs. cbn [obind].
  rewrite Hd, (countHand_counts distinct 0 0 0). cbn [obind].
  eexists. split; [ reflexivity | ].
  cbn [hands pairs suited offsuit combos percentage].
  assert (Hp : countBy (fun h => Nat.eqb (String.length h) 2) distinct =
               countBy isPairHand distinct).
  { apply countBy_agree. intros h Hh. symmetry. apply Hshape, Hh. }
  assert (Hs : countBy (fun h => negb (Nat.eqb (String.length h) 2)
                                 && endsWith h "s") distinct =
               countBy (fun h => negb (isPairHand h) && isSuitedHand h)
                 distinct).
  { apply countBy_agree. intros h Hh. destruct (Hshape h Hh) as [-> ->].
    destruct (Nat.eqb (String.length h) 2); reflexivity. }
  assert (Ho : countBy (fun h => negb (Nat.eqb (String.length h) 2)
                                 && negb (endsWith h "s")) distinct =
               countBy (fun h => negb (isPairHand h) && negb (isSuitedHand h))
                 distinct).
  { apply countBy_agree. intros h Hh. destruct (Hshape h Hh) as [-> ->].
    destruct (Nat.eqb (String.length h) 2); reflexivity. }
  rewrite Hp, Hs, Ho, !Z.add_0_l.
  split.
  { apply (NoDup_map_inv Some). rewrite <- Hd. exact Hnd. }
  split; [ intros h; rewrite Hdin; apply Hin | ].
  split; [ rewrite List.length_map; reflexivity | ].
  split; [ reflexivity | ]. split; [ reflexivity | ].
  split; [ reflexivity | ].
  split; [ rewrite comboWeight_sum; reflexivity | ].
  split; reflexivity.
Qed.

Lemma getRangeStats_weights_witness :
  (exists (distinct : list string) (st : RangeStats),
     getRangeStats ["AA"; "aa"; "KAs"; "72"] = Value st /\
     List.NoDup distinct /\
     (forall h, In h distinct <->
                exists n, In n ["AA"; "aa"; "KAs"; "72"] /\
                          Hands.normalizeHand n = Value (Some h)) /\
     hands st = Z.of_nat (List.length distinct) /\
     pairs st = countBy isPairHand distinct /\
     suited st = countBy (fun h => negb (isPairHand h) && isSuitedHand h)
                   distinct /\
     offsuit st = countBy (fun h => negb (isPairHand h)
                                    && negb (isSuitedHand h)) distinct /\
     combos st = fold_right Z.add 0 (List.map comboWeight distinct) /\
     combos st = pairs st * 6 + suited st * 4 + offsuit st * 12 /\
     percentage st = toFixed 1 ((inject_Z (combos st) / 1326) * 100)%Q) /\
  getRangeStats ["AA"] = Value (mkStats 1 1 0 0 6 "0.5") /\
  getRangeStats ["AKs"] = Value (mkStats 1 0 1 0 4 "0.3") /\
  getRangeStats ["AKo"] = Value (mkStats 1 0 0 1 12 "0.9").
Proof.
  apply (getRangeStats_weights ["AA"; "aa"; "KAs"; "72"]).
  repeat constructor.
Defined.

End RangeStatsProperties.
(** * More properties of the progress store *)

Section StorageCascade.

Import Storage StorageQueries.

Lemma unlockNextDrill_following (id : string) (m : gmap string Drill.t) :
  unlockNextDrill id m =
  match followingDrill id with
  | Some next =>
      match m !! next with
      | Some r => <[next := Drill.setUnlocked r]> m
      | None => m
      end
  | None => m
  end.
Proof.
  unfold unlockNextDrill, followingDrill. cbv zeta.
  destruct (_ && _); [ | reflexivity ].
  destruct (nth_error _ _); reflexivity.
Qed.

(** The successor table that [DRILL_ORDER] gives. *)
Lemma followingDrill_table (id : string) :
  followingDrill id =
  if String.eqb id "hand-ranking" then Some "open-fold"
  else if String.eqb id "open-fold" then Some "equity-snap"
  else if String.eqb id "equity-snap" then Some "range-check"
  else if String.eqb id "range-check" then Some "position-speed"
  else None.
Proof.
  unfold followingDrill, indexOfStr, DRILL_ORDER.
  cbn [indexOfStrFrom].
  rewrite !(String.eqb_sym id).
  destruct (String.eqb "hand-ranking" id); [ reflexivity | ].
  destruct (String.eqb "open-fold" id); [ reflexivity | ].
  destruct (String.eqb "equity-snap" id); [ reflexivity | ].
  destruct (String.eqb "range-check" id); [ reflexivity | ].
  destruct (String.eqb "position-speed" id); reflexivity.
Qed.

Lemma followingDrill_In (id next : string) :
  followingDrill id = Some next -> In id DRILL_ORDER /\ In next DRILL_ORDER.
Proof.
  rewrite followingDrill_table. unfold DRILL_ORDER.
  destruct (String.eqb_spec id "hand-ranking") as [-> | _];
    [ intros [= <-]; cbn; tauto | ].
  destruct (String.eqb_spec id "open-fold") as [-> | _];
    [ intros [= <-]; cbn; tauto | ].
  destruct (String.eqb_spec id "equity-snap") as [-> | _];
    [ intros [= <-]; cbn; tauto | ].
  destruct (String.eqb_spec id "range-check") as [-> | _];
    [ intros [= <-]; cbn; tauto | ].
  discriminate.
Qed.

Lemma followingDrill_inj (id id' next : string) :
  followingDrill id = Some next -> followingDrill id' = Some next -> id = id'.
Proof.
  rewrite !followingDrill_table.
  destruct (String.eqb_spec id "hand-ranking") as [-> | _];
  [ | destruct (String.eqb_spec id "open-fold") as [-> | _];
  [ | destruct (String.eqb_spec id "equity-snap") as [-> | _];
  [ | destruct (String.eqb_spec id "range-check") as [-> | _];
  [ | discriminate ] ] ] ];
  intros [= <-];
  (destruct (String.eqb_spec id' "hand-ranking") as [-> | _];
  [ | destruct (String.eqb_spec id' "open-fold") as [-> | _];
  [ | destruct (String.eqb_spec id' "equity-snap") as [-> | _];
  [ | destruct (String.eqb_spec id' "range-check") as [-> | _];
  [ | discriminate ] ] ] ]);
  intros H; first [ reflexivity | discriminate H ].
Qed.

(** The drill modules after [updateDrillProgress] on a known id. *)
Lemma updateDrillProgress_modules (now id : string) (stats : Stats)
    (p : Progress) (r : Drill.t) :
  drillModules p !! id = Some r ->
  drillModules (fst (updateDrillProgress now id stats p)) =
  let r1 := recordDrillStats now stats r in
  let m1 := <[id := r1]> (drillModules p) in
  if newlyPassesDrill id stats r
  then unlockNextDrill id (<[id := setDrillCompleted r1]> m1)
  else m1.
Proof.
  unfold updateDrillProgress, drillModules, newlyPassesDrill, getDrillThreshold.
  intros ->. cbv zeta.
  change (Drill.completed (recordDrillStats now stats r))
    with (Drill.completed r).
  destruct (_ && _); cbn; reflexivity.
Qed.

Lemma withCounters_same (p : Progress) :
  withCounters (DrillStage.totalAttempts (drills p)) (lastUpdated p) p = p.
Proof. destruct p as [[u c m t a] sc fh lu]. reflexivity. Qed.

(** An attempt on a drill id that names no record: counted and saved when
    the id names an inherited member, rejected otherwise. *)
Lemma updateDrillProgress_missing (now id : string) (stats : Stats)
    (p : Progress) :
  drillModules p !! id = None ->
  updateDrillProgress now id stats p =
  if inheritedMember id
  then (withCounters (DrillStage.totalAttempts (drills p) + 1) (Some now) p,
        true)
  else (p, false).
Proof.
  unfold updateDrillProgress, drillModules. intros ->.
  destruct (inheritedMember id); reflexivity.
Qed.

(** What one attempt on drill [id] does to the record of any drill. *)
Lemma updateDrillProgress_lookup (now id : string) (stats : Stats)
    (p : Progress) (r : Drill.t) (other : string) :
  drillModules p !! id = Some r ->
  drillModules (fst (updateDrillProgress now id stats p)) !! other =
  drillAfter now id stats other (newlyPassesDrill id stats r)
    <$> (drillModules p !! other).
Proof.
  intros Hid. rewrite (updateDrillProgress_modules _ _ _ _ _ Hid). cbv zeta.
  unfold drillAfter.
  destruct (newlyPassesDrill id stats r) eqn:Enew; cbn [andb].
  - rewrite unlockNextDrill_following, insert_insert_eq.
    destruct (followingDrill id) as [next | ] eqn:Enext.
    + destruct (decide (next = other)) as [-> | Hne].
      * rewrite (bool_decide_eq_true_2 (Some other = Some other)) by reflexivity.
        destruct (decide (other = id)) as [-> | Hne'].
        -- rewrite lookup_insert_eq, lookup_insert_eq, Hid.
           rewrite bool_decide_eq_true_2 by reflexivity. reflexivity.
        -- rewrite (lookup_insert_ne _ id other) by congruence.
           rewrite (bool_decide_eq_false_2 (other = id)) by exact Hne'.
           destruct (drillModules p !! other) as [r0 | ] eqn:E0.
           ++ rewrite lookup_insert_eq. reflexivity.
           ++ rewrite lookup_insert_ne by congruence. exact E0.
      * rewrite (bool_decide_eq_false_2 (Some next = Some other)) by congruence.
        assert (Hrest : <[id := setDrillCompleted (recordDrillStats now stats r)]>
                          (drillModules p) !! other =
                        (fun r0 => if bool_decide (other = id)
                                   then setDrillCompleted (recordDrillStats now stats r0)
                                   else r0) <$> (drillModules p !! other)).
        { destruct (decide (other = id)) as [-> | Hne'].
          - rewrite lookup_insert_eq, Hid, bool_decide_eq_true_2 by reflexivity.
            reflexivity.
          - rewrite lookup_insert_ne by congruence.
            rewrite bool_decide_eq_false_2 by exact Hne'.
            destruct (drillModules p !! other); reflexivity. }
        destruct (_ !! next);
          [ rewrite lookup_insert_ne by exact Hne | ]; exact Hrest.
    + rewrite (bool_decide_eq_false_2 (None = Some other)) by discriminate.
      destruct (decide (other = id)) as [-> | Hne'].
      * rewrite lookup_insert_eq, Hid, bool_decide_eq_true_2 by reflexivity.
        reflexivity.
      * rewrite lookup_insert_ne by congruence.
        rewrite bool_decide_eq_false_2 by exact Hne'.
        destruct (drillModules p !! other); reflexivity.
  - destruct (decide (other = id)) as [-> | Hne'].
    + rewrite lookup_insert_eq, Hid, bool_decide_eq_true_2 by reflexivity.
      reflexivity.
    + rewrite lookup_insert_ne by congruence.
      rewrite bool_decide_eq_false_2 by exact Hne'.
      destruct (drillModules p !! other); reflexivity.
Qed.

(** Every field outside the drill modules after [updateDrillProgress] on a
    known id. *)
Lemma updateDrillProgress_fields (now id : string) (stats : Stats)
    (p : Progress) (r : Drill.t) :
  drillModules p !! id = Some r ->
  let p' := fst (updateDrillProgress now id stats p) in
  let newly := newlyPassesDrill id stats r in
  let all := newly && allDrillsCompleted (drillModules p') in
  snd (updateDrillProgress now id stats p) = true /\
  lastUpdated p' = Some now /\
  DrillStage.unlocked (drills p') = DrillStage.unlocked (drills p) /\
  DrillStage.completed (drills p') =
    (if all then true else DrillStage.completed (drills p)) /\
  DrillStage.totalAttempts (drills p') =
    DrillStage.totalAttempts (drills p) + 1 /\
  DrillStage.achievements (drills p') =
    (if newly
     then award (allDrillsCompleted (drillModules p')) "drill-master"
            (award (jsGe (bestStreak stats) 25) "on-fire"
               (award (jsEq (accuracy stats) 100) "perfect-run"
                  (award (jsLt (avgTime stats) 2000) "speed-demon"
                     (DrillStage.achievements (drills p)))))
     else DrillStage.achievements (drills p)) /\
  ScenarioStage.unlocked (scenarios p') =
    (if all then true else ScenarioStage.unlocked (scenarios p)) /\
  ScenarioStage.completed (scenarios p') =
    ScenarioStage.completed (scenarios p) /\
  ScenarioStage.achievements (scenarios p') =
    ScenarioStage.achievements (scenarios p) /\
  fullHandsUnlocked p' = fullHandsUnlocked p.
Proof.
  unfold updateDrillProgress, drillModules, newlyPassesDrill, getDrillThreshold.
  intros ->. cbv zeta.
  change (Drill.completed (recordDrillStats now stats r))
    with (Drill.completed r).
  destruct (_ && _); cbn; [ | repeat split ].
  destruct (allDrillsCompleted _); cbn; repeat split.
Qed.

(** Every field outside the scenario modules after [updateScenarioProgress]
    on a known id. *)
Lemma updateScenarioProgress_fields (now id : string) (stats : Stats)
    (p : Progress) (r : Scenario.t) :
  scenarioModules p !! id = Some r ->
  let p' := fst (updateScenarioProgress now id stats p) in
  let newly := newlyPassesScenario id stats r in
  let m' := scenarioModules p' in
  let all := newly && everyCompleted SCENARIO_ORDER m' in
  snd (updateScenarioProgress now id stats p) = true /\
  lastUpdated p' = Some now /\
  drills p' = drills p /\
  ScenarioStage.unlocked (scenarios p') = ScenarioStage.unlocked (scenarios p) /\
  ScenarioStage.completed (scenarios p') =
    (if all then true else ScenarioStage.completed (scenarios p)) /\
  fullHandsUnlocked p' = (if all then true else fullHandsUnlocked p) /\
  ScenarioStage.achievements (scenarios p') =
    (if newly
     then award (everyScoreAtLeast 85 ["defend-3bet"; "bb-defense"] m') "defender"
            (award (everyScoreAtLeast 85 ["3bet-value"; "sb-3bet-fold"] m')
               "3bet-specialist"
               (award (everyCompleted
                         ["defend-3bet"; "bb-defense"; "3bet-value";
                          "sb-3bet-fold"; "cold-4bet"] m') "preflop-master"
                  (award (everyCompleted SCENARIO_ORDER m') "scenario-solver"
                     (award (jsEq (accuracy stats) 100) "perfect-decisions"
                        (ScenarioStage.achievements (scenarios p))))))
     else ScenarioStage.achievements (scenarios p)).
Proof.
  unfold updateScenarioProgress, scenarioModules, newlyPassesScenario,
    getScenarioThreshold.
  intros ->. cbv zeta.
  change (Scenario.completed (recordScenarioStats now stats r))
    with (Scenario.completed r).
  destruct (_ && _); cbn; [ | repeat split ].
  destruct (everyCompleted SCENARIO_ORDER _); cbn; repeat split.
Qed.

(** An attempt on a scenario id that names no record: saved when the id
    names an inherited member, rejected otherwise. *)
Lemma updateScenarioProgress_unknown (now id : string) (stats : Stats)
    (p : Progress) :
  scenarioModules p !! id = None ->
  updateScenarioProgress now id stats p =
  if inheritedMember id
  then (withCounters (DrillStage.totalAttempts (drills p)) (Some now) p, true)
  else (p, false).
Proof.
  unfold updateScenarioProgress, scenarioModules. intros ->.
  destruct (inheritedMember id); [ | reflexivity ].
  destruct p as [[u c m t a] sc fh lu]. reflexivity.
Qed.

(** A map after [<[id := f r]>] of a present key, read at any key. *)
Lemma lookup_insert_fmap {A} (m : gmap string A) (id : string) (r : A)
    (f : A -> A) (other : string) :
  m !! id = Some r ->
  <[id := f r]> m !! other =
  (fun r0 => if bool_decide (other = id) then f r0 else r0) <$> (m !! other).
Proof.
  intros Hid. destruct (decide (other = id)) as [-> | Hne].
  - rewrite lookup_insert_eq, Hid, bool_decide_eq_true_2 by reflexivity.
    reflexivity.
  - rewrite lookup_insert_ne by congruence.
    rewrite bool_decide_eq_false_2 by exact Hne.
    destruct (m !! other); reflexivity.
Qed.

(** A map after an update of the key [next], when it is present. *)
Lemma lookup_touch {A} (m : gmap string A) (next : string) (g : A -> A)
    (other : string) :
  match m !! next with
  | Some r => <[next := g r]> m
  | None => m
  end !! other =
  (fun r0 => if bool_decide (next = other) then g r0 else r0) <$> (m !! other).
Proof.
  destruct (decide (next = other)) as [-> | Hne].
  - rewrite bool_decide_eq_true_2 by reflexivity.
    destruct (m !! other) as [r | ] eqn:E.
    + rewrite lookup_insert_eq. reflexivity.
    + rewrite E. reflexivity.
  - rewrite bool_decide_eq_false_2 by exact Hne.
    destruct (m !! next).
    + rewrite lookup_insert_ne by exact Hne. destruct (m !! other); reflexivity.
    + destruct (m !! other); reflexivity.
Qed.

(** What one attempt on scenario [id] does to the record of any scenario. *)
Lemma updateScenarioProgress_lookup (now id : string) (stats : Stats)
    (p : Progress) (r : Scenario.t) (other : string) :
  scenarioModules p !! id = Some r ->
  scenarioModules (fst (updateScenarioProgress now id stats p)) !! other =
  scenarioAfter now id stats other (newlyPassesScenario id stats r)
    (2 <=? tier1Completed
             (<[id := setScenarioCompleted (recordScenarioStats now stats r)]>
                (scenarioModules p)))
    <$> (scenarioModules p !! other).
Proof.
  intros Hid. rewrite (updateScenarioProgress_modules _ _ _ _ _ Hid). cbv zeta.
  change (Scenario.completed (recordScenarioStats now stats r))
    with (Scenario.completed r).
  fold (newlyPassesScenario id stats r).
  unfold scenarioAfter.
  destruct (newlyPassesScenario id stats r); cbn [andb].
  - rewrite insert_insert_eq. unfold unlockCold4bet.
    destruct (2 <=? _).
    + rewrite lookup_touch.
      rewrite (lookup_insert_fmap _ _ _
                 (fun r0 => setScenarioCompleted (recordScenarioStats now stats r0))
                 _ Hid).
      destruct (scenarioModules p !! other); cbn; [ | reflexivity ].
      destruct (bool_decide ("cold-4bet" = other)); reflexivity.
    + rewrite (lookup_insert_fmap _ _ _
                 (fun r0 => setScenarioCompleted (recordScenarioStats now stats r0))
                 _ Hid).
      destruct (scenarioModules p !! other); reflexivity.
  - rewrite (lookup_insert_fmap _ _ _ (recordScenarioStats now stats) _ Hid).
    destruct (scenarioModules p !! other); reflexivity.
Qed.

(** ** The flags and counters of a record after an attempt *)

Lemma drillAfter_unlocked (now id : string) (stats : Stats) (other : string)
    (newly : bool) (r0 : Drill.t) :
  Drill.unlocked (drillAfter now id stats other newly r0) =
  Drill.unlocked r0 || (newly && bool_decide (followingDrill id = Some other)).
Proof.
  unfold drillAfter, recordDrillStats, setDrillCompleted.
  destruct newly, (bool_decide (followingDrill id = Some other)),
    (bool_decide (other = id)); cbn;
    rewrite ?orb_true_r, ?orb_false_r; reflexivity.
Qed.

Lemma drillAfter_completed (now id : string) (stats : Stats) (other : string)
    (newly : bool) (r0 : Drill.t) :
  Drill.completed (drillAfter now id stats other newly r0) =
  Drill.completed r0 || (newly && bool_decide (other = id)).
Proof.
  unfold drillAfter, recordDrillStats, setDrillCompleted.
  destruct newly, (bool_decide (followingDrill id = Some other)),
    (bool_decide (other = id)); cbn;
    rewrite ?orb_true_r, ?orb_false_r; reflexivity.
Qed.

Lemma drillAfter_attempts (now id : string) (stats : Stats) (other : string)
    (newly : bool) (r0 : Drill.t) :
  Drill.attempts (drillAfter now id stats other newly r0) =
  Drill.attempts r0 + (if bool_decide (other = id) then 1 else 0).
Proof.
  unfold drillAfter, recordDrillStats, setDrillCompleted.
  destruct newly, (bool_decide (followingDrill id = Some other)),
    (bool_decide (other = id)); cbn; lia.
Qed.

Lemma scenarioAfter_unlocked (now id : string) (stats : Stats) (other : string)
    (newly unlock : bool) (r0 : Scenario.t) :
  Scenario.unlocked (scenarioAfter now id stats other newly unlock r0) =
  Scenario.unlocked r0 || (newly && unlock && bool_decide ("cold-4bet" = other)).
Proof.
  unfold scenarioAfter, recordScenarioStats, setScenarioCompleted.
  destruct newly, unlock, (bool_decide ("cold-4bet" = other)),
    (bool_decide (other = id)); cbn;
    rewrite ?orb_true_r, ?orb_false_r; reflexivity.
Qed.

Lemma scenarioAfter_completed (now id : string) (stats : Stats) (other : string)
    (newly unlock : bool) (r0 : Scenario.t) :
  Scenario.completed (scenarioAfter now id stats other newly unlock r0) =
  Scenario.completed r0 || (newly && bool_decide (other = id)).
Proof.
  unfold scenarioAfter, recordScenarioStats, setScenarioCompleted.
  destruct newly, unlock, (bool_decide ("cold-4bet" = other)),
    (bool_decide (other = id)); cbn;
    rewrite ?orb_true_r, ?orb_false_r; reflexivity.
Qed.

(** The queries after an attempt, in terms of the queries before. *)
Lemma isDrillCompleted_after (now id : string) (stats : Stats) (p : Progress)
    (r : Drill.t) (other : string) :
  drillModules p !! id = Some r ->
  isDrillCompleted other (fst (updateDrillProgress now id stats p)) =
  isDrillCompleted other p
  || (newlyPassesDrill id stats r && bool_decide (other = id)).
Proof.
  intros Hid. unfold isDrillCompleted.
  rewrite (updateDrillProgress_lookup _ _ _ _ _ other Hid).
  destruct (drillModules p !! other) as [r0 | ] eqn:E0; cbn.
  - apply drillAfter_completed.
  - destruct (bool_decide_reflect (other = id)) as [-> | ]; [ congruence | ].
    rewrite andb_false_r. reflexivity.
Qed.

Lemma isScenarioCompleted_after (now id : string) (stats : Stats)
    (p : Progress) (r : Scenario.t) (other : string) :
  scenarioModules p !! id = Some r ->
  isScenarioCompleted other (fst (updateScenarioProgress now id stats p)) =
  isScenarioCompleted other p
  || (newlyPassesScenario id stats r && bool_decide (other = id)).
Proof.
  intros Hid. unfold isScenarioCompleted.
  rewrite (updateScenarioProgress_lookup _ _ _ _ _ other Hid).
  destruct (scenarioModules p !! other) as [r0 | ] eqn:E0; cbn.
  - apply scenarioAfter_completed.
  - destruct (bool_decide_reflect (other = id)) as [-> | ]; [ congruence | ].
    rewrite andb_false_r. reflexivity.
Qed.

(** An invariant of single attempts is an invariant of attempt sequences. *)
Lemma recordAttempts_invariant (I : Progress -> Prop) :
  (forall a p, I p -> I (recordAttempt a p)) ->
  forall l p, I p -> I (recordAttempts l p).
Proof.
  intros Hstep l. unfold recordAttempts.
  induction l as [ | a l IH]; intros p Hp; cbn; [ exact Hp | ].
  apply IH, Hstep, Hp.
Qed.

(** A relation kept by single attempts is kept by attempt sequences. *)
Lemma recordAttempts_relation (R : Progress -> Progress -> Prop) :
  (forall p, R p p) ->
  (forall p1 p2 p3, R p1 p2 -> R p2 p3 -> R p1 p3) ->
  (forall a p, R p (recordAttempt a p)) ->
  forall l p, R p (recordAttempts l p).
Proof.
  intros Hrefl Htrans Hstep l. unfold recordAttempts.
  induction l as [ | a l IH]; intros p; cbn; [ apply Hrefl | ].
  eapply Htrans; [ apply Hstep | apply IH ].
Qed.

(** A single attempt on a unit the store does not hold changes no record,
    no flag and no achievement: at most the counters of the document. *)
Lemma recordAttempt_cases (a : Attempt) (p : Progress) :
  let counted :=
    exists stamp,
      recordAttempt a p =
      withCounters (DrillStage.totalAttempts (drills p)
                    + (if namesInherited a then 1 else 0)) stamp p in
  match a with
  | DrillAttempt now id stats =>
      (drillModules p !! id = None /\ counted) \/
      (exists r, drillModules p !! id = Some r)
  | ScenarioAttempt now id stats =>
      (scenarioModules p !! id = None /\ counted) \/
      (exists r, scenarioModules p !! id = Some r)
  end.
Proof.
  destruct a as [now id stats | now id stats]; cbn [recordAttempt namesInherited].
  - destruct (drillModules p !! id) as [r | ] eqn:E; [ right; eauto | left ].
    split; [ reflexivity | ]. rewrite updateDrillProgress_missing by exact E.
    destruct (inheritedMember id); cbn [fst].
    + eauto.
    + exists (lastUpdated p). rewrite Z.add_0_r, withCounters_same. reflexivity.
  - destruct (scenarioModules p !! id) as [r | ] eqn:E; [ right; eauto | left ].
    split; [ reflexivity | ]. rewrite updateScenarioProgress_unknown by exact E.
    rewrite Z.add_0_r. destruct (inheritedMember id); cbn [fst].
    + eauto.
    + exists (lastUpdated p). rewrite withCounters_same. reflexivity.
Qed.


End StorageCascade.

Section StorageInvariants.

Import Storage StorageQueries.

(** ** Documents that differ in their counters only *)

Lemma withCounters_drillModules (t : Z) (s : option string) (p : Progress) :
  drillModules (withCounters t s p) = drillModules p.
Proof. reflexivity. Qed.

Lemma withCounters_scenarios (t : Z) (s : option string) (p : Progress) :
  scenarios (withCounters t s p) = scenarios p.
Proof. reflexivity. Qed.

Lemma thresholdsMet_counters (t : Z) (s : option string) (p : Progress) :
  thresholdsMet p -> thresholdsMet (withCounters t s p).
Proof. intros H. exact H. Qed.

Lemma stagesFollowRecords_counters (t : Z) (s : option string) (p : Progress) :
  stagesFollowRecords p -> stagesFollowRecords (withCounters t s p).
Proof. intros H. exact H. Qed.

Lemma curriculumOrder_counters (t : Z) (s : option string) (p : Progress) :
  curriculumOrder p -> curriculumOrder (withCounters t s p).
Proof. intros H. exact H. Qed.

Lemma achievementsDistinct_counters (t : Z) (s : option string) (p : Progress) :
  achievementsDistinct p -> achievementsDistinct (withCounters t s p).
Proof. intros H. exact H. Qed.

(** ** The set of known ids *)

Lemma recordAttempt_is_Some (a : Attempt) (p : Progress) (id : string) :
  (is_Some (drillModules (recordAttempt a p) !! id) <->
   is_Some (drillModules p !! id)) /\
  (is_Some (scenarioModules (recordAttempt a p) !! id) <->
   is_Some (scenarioModules p !! id)).
Proof.
  pose proof (recordAttempt_cases a p) as Hcases.
  destruct a as [now k stats | now k stats];
    cbn [recordAttempt namesInherited] in *; cbv zeta in Hcases.
  - destruct Hcases as [[_ [stamp ->]] | [r Hr]]; [ tauto | ].
    rewrite updateDrillProgress_scenarios.
    rewrite (updateDrillProgress_lookup _ _ _ _ _ id Hr), fmap_is_Some. tauto.
  - destruct Hcases as [[_ [stamp ->]] | [r Hr]]; [ tauto | ].
    rewrite updateScenarioProgress_drills.
    rewrite (updateScenarioProgress_lookup _ _ _ _ _ id Hr), fmap_is_Some. tauto.
Qed.

Lemma knownIds_step (a : Attempt) (p : Progress) :
  knownIds p -> knownIds (recordAttempt a p).
Proof.
  intros [Hd Hs]. split; intros id.
  - rewrite <- Hd. apply (recordAttempt_is_Some a p id).
  - rewrite <- Hs. apply (recordAttempt_is_Some a p id).
Qed.

Lemma includes_In (l : list string) (id : string) :
  includes l id = true <-> In id l.
Proof.
  unfold includes. rewrite existsb_exists. split.
  - intros [x [Hin Heq]]. apply String.eqb_eq in Heq. subst. exact Hin.
  - intros Hin. exists id. split; [ exact Hin | apply String.eqb_refl ].
Qed.

Lemma knownIds_default : knownIds DEFAULT_PROGRESS.
Proof.
  split; intros id.
  - rewrite <- includes_In. unfold includes, DRILL_ORDER. cbn [existsb].
    unfold drillModules, DEFAULT_PROGRESS. cbn [drills DrillStage.modules].
    cbn [list_to_map foldr uncurry fst snd].
    repeat match goal with
           | |- context [String.eqb id ?s] =>
               destruct (String.eqb_spec id s) as [-> | ?];
               [ cbn [orb]; split;
                 [ reflexivity | intros _; eexists; vm_compute; reflexivity ] | ]
           end.
    cbn [orb]. rewrite !lookup_insert_ne by congruence.
    rewrite lookup_empty. split; [ intros [? [=]] | discriminate ].
  - rewrite <- includes_In. unfold includes, SCENARIO_ORDER. cbn [existsb].
    unfold scenarioModules, DEFAULT_PROGRESS.
    cbn [scenarios ScenarioStage.modules].
    cbn [list_to_map foldr uncurry fst snd].
    repeat match goal with
           | |- context [String.eqb id ?s] =>
               destruct (String.eqb_spec id s) as [-> | ?];
               [ cbn [orb]; split;
                 [ reflexivity | intros _; eexists; vm_compute; reflexivity ] | ]
           end.
    cbn [orb]. rewrite !lookup_insert_ne by congruence.
    rewrite lookup_empty. split; [ intros [? [=]] | discriminate ].
Qed.

Lemma knownIds_reachable (l : list Attempt) :
  knownIds (recordAttempts l DEFAULT_PROGRESS).
Proof.
  apply (recordAttempts_invariant knownIds knownIds_step), knownIds_default.
Qed.

(** ** Completed means the threshold was met *)

Lemma jsGe_le (a : option Q) (b : Q) :
  jsGe a b = true -> exists x, a = Some x /\ (b <= x)%Q.
Proof.
  unfold jsGe. destruct a as [x | ]; [ | discriminate ].
  intros H. exists x. split; [ reflexivity | apply Qle_bool_iff, H ].
Qed.

Lemma recordDrillStats_best_accuracy (now : string) (stats : Stats)
    (r : Drill.t) (t : Q) :
  jsGe (accuracy stats) t = true ->
  (t <= Drill.bestScore (recordDrillStats now stats r))%Q.
Proof.
  intros H. apply jsGe_le in H as [x [Hx Hle]].
  unfold recordDrillStats. rewrite Hx. cbn [Drill.bestScore].
  destruct (jsGt (Some x) (Drill.bestScore r)) eqn:E; [ exact Hle | ].
  unfold jsGt in E. apply negb_false_iff, Qle_bool_iff in E.
  eapply Qle_trans; eauto.
Qed.

Lemma recordScenarioStats_best_accuracy (now : string) (stats : Stats)
    (r : Scenario.t) (t : Q) :
  jsGe (accuracy stats) t = true ->
  (t <= Scenario.bestScore (recordScenarioStats now stats r))%Q.
Proof.
  intros H. apply jsGe_le in H as [x [Hx Hle]].
  unfold recordScenarioStats. rewrite Hx. cbn [Scenario.bestScore].
  destruct (jsGt (Some x) (Scenario.bestScore r)) eqn:E; [ exact Hle | ].
  unfold jsGt in E. apply negb_false_iff, Qle_bool_iff in E.
  eapply Qle_trans; eauto.
Qed.

Lemma drillAfter_bestScore (now id : string) (stats : Stats) (other : string)
    (newly : bool) (r0 : Drill.t) :
  Drill.bestScore (drillAfter now id stats other newly r0) =
  if bool_decide (other = id)
  then Drill.bestScore (recordDrillStats now stats r0)
  else Drill.bestScore r0.
Proof.
  unfold drillAfter, setDrillCompleted.
  destruct newly, (bool_decide (followingDrill id = Some other)),
    (bool_decide (other = id)); reflexivity.
Qed.

Lemma scenarioAfter_bestScore (now id : string) (stats : Stats)
    (other : string) (newly unlock : bool) (r0 : Scenario.t) :
  Scenario.bestScore (scenarioAfter now id stats other newly unlock r0) =
  if bool_decide (other = id)
  then Scenario.bestScore (recordScenarioStats now stats r0)
  else Scenario.bestScore r0.
Proof.
  unfold scenarioAfter, setScenarioCompleted.
  destruct newly, unlock, (bool_decide ("cold-4bet" = other)),
    (bool_decide (other = id)); reflexivity.
Qed.

Lemma thresholdsMet_step (a : Attempt) (p : Progress) :
  thresholdsMet p -> thresholdsMet (recordAttempt a p).
Proof.
  intros [Hd Hs]. pose proof (recordAttempt_cases a p) as Hcases.
  destruct a as [now k stats | now k stats];
    cbn [recordAttempt namesInherited] in *; cbv zeta in Hcases.
  - destruct Hcases as [[_ [stamp ->]] | [r Hr]];
      [ apply thresholdsMet_counters; split; assumption | ].
    split; [ | rewrite updateDrillProgress_scenarios; exact Hs ].
    intros id r' Hl Hc.
    rewrite (updateDrillProgress_lookup _ _ _ _ _ id Hr) in Hl.
    apply fmap_Some in Hl as [r0 [H0 ->]].
    rewrite drillAfter_completed in Hc. rewrite drillAfter_bestScore.
    destruct (bool_decide_reflect (id = k)) as [-> | Hne].
    + assert (r0 = r) by congruence. subst r0.
      rewrite andb_true_r in Hc. apply orb_true_iff in Hc as [Hc | Hc].
      * eapply Qle_trans; [ apply (Hd _ _ Hr Hc) | ].
        destruct (recordDrillStats_notWorse now stats r) as [Hb _]. exact Hb.
      * unfold newlyPassesDrill in Hc. apply andb_true_iff in Hc as [Hc _].
        apply andb_true_iff in Hc as [_ Hc].
        apply recordDrillStats_best_accuracy, Hc.
    + rewrite andb_false_r, orb_false_r in Hc. apply (Hd _ _ H0 Hc).
  - destruct Hcases as [[_ [stamp ->]] | [r Hr]];
      [ apply thresholdsMet_counters; split; assumption | ].
    split; [ rewrite updateScenarioProgress_drills; exact Hd | ].
    intros id r' Hl Hc.
    rewrite (updateScenarioProgress_lookup _ _ _ _ _ id Hr) in Hl.
    apply fmap_Some in Hl as [r0 [H0 ->]].
    rewrite scenarioAfter_completed in Hc. rewrite scenarioAfter_bestScore.
    destruct (bool_decide_reflect (id = k)) as [-> | Hne].
    + assert (r0 = r) by congruence. subst r0.
      rewrite andb_true_r in Hc. apply orb_true_iff in Hc as [Hc | Hc].
      * eapply Qle_trans; [ apply (Hs _ _ Hr Hc) | ].
        destruct (recordScenarioStats_notWorse now stats r) as [Hb _]. exact Hb.
      * unfold newlyPassesScenario in Hc. apply andb_true_iff in Hc as [Hc _].
        apply andb_true_iff in Hc as [_ Hc].
        apply recordScenarioStats_best_accuracy, Hc.
    + rewrite andb_false_r, orb_false_r in Hc. apply (Hs _ _ H0 Hc).
Qed.

Lemma thresholdsMet_default : thresholdsMet DEFAULT_PROGRESS.
Proof.
  split; intros id r Hl Hc.
  - unfold drillModules, DEFAULT_PROGRESS in Hl.
    cbn [drills DrillStage.modules] in Hl.
    apply elem_of_list_to_map_2, list_elem_of_In in Hl.
    cbn in Hl. intuition (try congruence);
      match goal with H : (_, _) = (_, _) |- _ => injection H as <- <- end;
      discriminate Hc.
  - unfold scenarioModules, DEFAULT_PROGRESS in Hl.
    cbn [scenarios ScenarioStage.modules] in Hl.
    apply elem_of_list_to_map_2, list_elem_of_In in Hl.
    cbn in Hl. intuition (try congruence);
      match goal with H : (_, _) = (_, _) |- _ => injection H as <- <- end;
      discriminate Hc.
Qed.

(** ** Stage flags *)

Lemma forallb_pointwise {A} (f g : A -> bool) (l : list A) :
  (forall x, f x = g x) -> forallb f l = forallb g l.
Proof.
  intros H. induction l as [ | x l IH]; cbn; [ reflexivity | ].
  rewrite H, IH. reflexivity.
Qed.

Lemma forallb_or_same (f : string -> bool) (k : string) (l : list string) :
  forallb (fun x => f x || (false && bool_decide (x = k))) l = forallb f l.
Proof.
  apply forallb_pointwise. intros x. cbn. apply orb_false_r.
Qed.

Lemma forallb_or_mono (f : string -> bool) (newly : bool) (k : string)
    (l : list string) :
  forallb f l = true ->
  forallb (fun x => f x || (newly && bool_decide (x = k))) l = true.
Proof.
  rewrite !forallb_forall. intros H x Hx. rewrite (H x Hx). reflexivity.
Qed.

Lemma stage_flag_step (old all' allOld newly : bool) :
  old = allOld ->
  (newly = false -> all' = allOld) ->
  (allOld = true -> all' = true) ->
  (if newly && all' then true else old) = all'.
Proof.
  destruct old, all', allOld, newly; cbn; intros H1 H2 H3;
    try reflexivity; try discriminate H1;
    try discriminate (H3 eq_refl); try discriminate (H2 eq_refl).
Qed.

Lemma allDrillsCompleted_after (now k : string) (stats : Stats) (p : Progress)
    (r : Drill.t) :
  drillModules p !! k = Some r ->
  allDrillsCompleted (drillModules (fst (updateDrillProgress now k stats p))) =
  forallb (fun id => isDrillCompleted id p
                     || (newlyPassesDrill k stats r && bool_decide (id = k)))
    DRILL_ORDER.
Proof.
  intros Hr.
  change (allDrillsCompleted
            (drillModules (fst (updateDrillProgress now k stats p))))
    with (forallb (fun id => isDrillCompleted id
                               (fst (updateDrillProgress now k stats p)))
            DRILL_ORDER).
  apply forallb_pointwise. intros id. apply isDrillCompleted_after, Hr.
Qed.

Lemma everyCompleted_after (now k : string) (stats : Stats) (p : Progress)
    (r : Scenario.t) (ids : list string) :
  scenarioModules p !! k = Some r ->
  everyCompleted ids
    (scenarioModules (fst (updateScenarioProgress now k stats p))) =
  forallb (fun id => isScenarioCompleted id p
                     || (newlyPassesScenario k stats r && bool_decide (id = k)))
    ids.
Proof.
  intros Hr.
  change (everyCompleted ids
            (scenarioModules (fst (updateScenarioProgress now k stats p))))
    with (forallb (fun id => isScenarioCompleted id
                               (fst (updateScenarioProgress now k stats p)))
            ids).
  apply forallb_pointwise. intros id. apply isScenarioCompleted_after, Hr.
Qed.

Lemma stagesFollowRecords_step (a : Attempt) (p : Progress) :
  stagesFollowRecords p -> stagesFollowRecords (recordAttempt a p).
Proof.
  intros (H1 & H2 & H3 & H4). pose proof (recordAttempt_cases a p) as Hcases.
  destruct a as [now k stats | now k stats];
    cbn [recordAttempt namesInherited] in *; cbv zeta in Hcases.
  - destruct Hcases as [[_ [stamp ->]] | [r Hr]];
      [ apply stagesFollowRecords_counters; repeat split; assumption | ].
    destruct (updateDrillProgress_fields now k stats p r Hr)
      as (_ & _ & _ & Hc & _ & _ & Hu & Hsc & _ & Hf).
    cbv zeta in Hc, Hu.
    assert (Hall : (if newlyPassesDrill k stats r
                       && allDrillsCompleted
                            (drillModules (fst (updateDrillProgress now k stats p)))
                    then true else DrillStage.completed (drills p)) =
                   allDrillsCompleted
                     (drillModules (fst (updateDrillProgress now k stats p)))).
    { apply (stage_flag_step _ _ (allDrillsCompleted (drillModules p)));
        [ exact H1 | | ]; rewrite (allDrillsCompleted_after _ _ _ _ _ Hr).
      - intros ->. apply forallb_or_same.
      - apply (forallb_or_mono (fun id => isDrillCompleted id p)). }
    unfold stagesFollowRecords.
    rewrite Hc, Hu, Hsc, Hf, updateDrillProgress_scenarios, H2.
    repeat split; assumption.
  - destruct Hcases as [[_ [stamp ->]] | [r Hr]];
      [ apply stagesFollowRecords_counters; repeat split; assumption | ].
    destruct (updateScenarioProgress_fields now k stats p r Hr)
      as (_ & _ & Hd & Hu & Hc & Hf & _).
    cbv zeta in Hc, Hf.
    assert (Hall : (if newlyPassesScenario k stats r
                       && everyCompleted SCENARIO_ORDER
                            (scenarioModules
                               (fst (updateScenarioProgress now k stats p)))
                    then true else ScenarioStage.completed (scenarios p)) =
                   everyCompleted SCENARIO_ORDER
                     (scenarioModules
                        (fst (updateScenarioProgress now k stats p)))).
    { apply (stage_flag_step _ _
               (everyCompleted SCENARIO_ORDER (scenarioModules p)));
        [ exact H3 | | ]; rewrite (everyCompleted_after _ _ _ _ _ _ Hr).
      - intros ->. apply forallb_or_same.
      - apply (forallb_or_mono (fun id => isScenarioCompleted id p)). }
    unfold stagesFollowRecords, drillModules.
    rewrite Hc, Hu, Hf, Hd, H4.
    repeat split; assumption.
Qed.

Lemma stagesFollowRecords_default : stagesFollowRecords DEFAULT_PROGRESS.
Proof. repeat split. Qed.


(** ** Unlocked flags *)

Lemma Bool_le_orb (b c : bool) : Bool.le b (b || c).
Proof. destruct b, c; cbn; auto. Qed.

Lemma Bool_le_if (c b : bool) : Bool.le b (if c then true else b).
Proof. destruct c, b; cbn; auto. Qed.

Lemma unlockedKept_refl (p : Progress) : unlockedKept p p.
Proof.
  repeat split; try apply Bool_le_refl;
    apply mapKeeps_refl; intros; apply Bool_le_refl.
Qed.

Lemma unlockedKept_trans (p1 p2 p3 : Progress) :
  unlockedKept p1 p2 -> unlockedKept p2 p3 -> unlockedKept p1 p3.
Proof.
  intros (A1 & A2 & A3 & A4) (B1 & B2 & B3 & B4). repeat split.
  - eapply mapKeeps_trans; [ intros a b c; apply Bool_le_trans | eauto | eauto ].
  - eapply mapKeeps_trans; [ intros a b c; apply Bool_le_trans | eauto | eauto ].
  - eapply Bool_le_trans; eauto.
  - eapply Bool_le_trans; eauto.
Qed.

Lemma unlockedKept_step (a : Attempt) (p : Progress) :
  unlockedKept p (recordAttempt a p).
Proof.
  pose proof (recordAttempt_cases a p) as Hcases.
  destruct a as [now k stats | now k stats];
    cbn [recordAttempt namesInherited] in *; cbv zeta in Hcases.
  - destruct Hcases as [[_ [stamp ->]] | [r Hr]];
      [ apply (unlockedKept_refl p) | ].
    destruct (updateDrillProgress_fields now k stats p r Hr)
      as (_ & _ & _ & _ & _ & _ & Hu & _ & _ & Hf).
    cbv zeta in Hu. repeat split.
    + intros id. unfold keeps.
      rewrite (updateDrillProgress_lookup _ _ _ _ _ id Hr).
      destruct (drillModules p !! id); cbn; [ | exact I ].
      rewrite drillAfter_unlocked. apply Bool_le_orb.
    + rewrite updateDrillProgress_scenarios.
      apply mapKeeps_refl; intros; apply Bool_le_refl.
    + rewrite Hu. apply Bool_le_if.
    + rewrite Hf. apply Bool_le_refl.
  - destruct Hcases as [[_ [stamp ->]] | [r Hr]];
      [ apply (unlockedKept_refl p) | ].
    destruct (updateScenarioProgress_fields now k stats p r Hr)
      as (_ & _ & _ & Hu & _ & Hf & _).
    cbv zeta in Hf. repeat split.
    + rewrite updateScenarioProgress_drills.
      apply mapKeeps_refl; intros; apply Bool_le_refl.
    + intros id. unfold keeps.
      rewrite (updateScenarioProgress_lookup _ _ _ _ _ id Hr).
      destruct (scenarioModules p !! id); cbn; [ | exact I ].
      rewrite scenarioAfter_unlocked. apply Bool_le_orb.
    + rewrite Hu. apply Bool_le_refl.
    + rewrite Hf. apply Bool_le_if.
Qed.

Lemma unlockedKept_all (l : list Attempt) (p : Progress) :
  unlockedKept p (recordAttempts l p).
Proof.
  apply (recordAttempts_relation unlockedKept unlockedKept_refl
           unlockedKept_trans unlockedKept_step).
Qed.

Lemma unlockedKept_drill (p p' : Progress) (id : string) :
  unlockedKept p p' -> Bool.le (isDrillUnlocked id p) (isDrillUnlocked id p').
Proof.
  intros (H & _). specialize (H id). unfold keeps, isDrillUnlocked in *.
  destruct (drillModules p !! id); [ | exact I ].
  destruct (drillModules p' !! id); [ exact H | destruct H ].
Qed.

Lemma unlockedKept_record (p p' : Progress) (id : string) :
  unlockedKept p p' ->
  Bool.le (scenarioRecordUnlocked id p) (scenarioRecordUnlocked id p').
Proof.
  intros (_ & H & _). specialize (H id).
  unfold keeps, scenarioRecordUnlocked in *.
  destruct (scenarioModules p !! id); [ | exact I ].
  destruct (scenarioModules p' !! id); [ exact H | destruct H ].
Qed.

Lemma isScenarioUnlocked_record (id : string) (p : Progress) :
  isScenarioUnlocked id p =
  ScenarioStage.unlocked (scenarios p) && scenarioRecordUnlocked id p.
Proof.
  unfold isScenarioUnlocked, scenarioRecordUnlocked.
  destruct (ScenarioStage.unlocked (scenarios p)); reflexivity.
Qed.

Lemma unlockedKept_scenario (p p' : Progress) (id : string) :
  unlockedKept p p' ->
  Bool.le (isScenarioUnlocked id p) (isScenarioUnlocked id p').
Proof.
  intros H. pose proof (unlockedKept_record p p' id H) as Hr.
  destruct H as (_ & _ & Hs & _). rewrite !isScenarioUnlocked_record.
  destruct (ScenarioStage.unlocked (scenarios p)); cbn in *; [ | exact I ].
  rewrite Hs. cbn. exact Hr.
Qed.

(** ** The order of the drills *)

Lemma isDrillUnlocked_after (now k : string) (stats : Stats) (p : Progress)
    (r : Drill.t) (other : string) :
  drillModules p !! k = Some r ->
  is_Some (drillModules p !! other) ->
  isDrillUnlocked other (fst (updateDrillProgress now k stats p)) =
  isDrillUnlocked other p
  || (newlyPassesDrill k stats r && bool_decide (followingDrill k = Some other)).
Proof.
  intros Hr [r0 H0]. unfold isDrillUnlocked.
  rewrite (updateDrillProgress_lookup _ _ _ _ _ other Hr), H0. cbn.
  apply drillAfter_unlocked.
Qed.

Lemma curriculumOrder_step (a : Attempt) (p : Progress) :
  knownIds p -> curriculumOrder p -> curriculumOrder (recordAttempt a p).
Proof.
  intros [Hk _] [H0 Hn]. pose proof (recordAttempt_cases a p) as Hcases.
  destruct a as [now k stats | now k stats];
    cbn [recordAttempt namesInherited] in *; cbv zeta in Hcases.
  - destruct Hcases as [[_ [stamp ->]] | [r Hr]];
      [ apply curriculumOrder_counters; split; assumption | ].
    split.
    + rewrite (isDrillUnlocked_after _ _ _ _ _ _ Hr);
        [ rewrite H0; reflexivity | apply Hk; left; reflexivity ].
    + intros id next Hf. destruct (followingDrill_In _ _ Hf) as [Hid Hnext].
      rewrite (isDrillUnlocked_after _ _ _ _ _ next Hr) by (apply Hk, Hnext).
      rewrite (isDrillCompleted_after _ _ _ _ _ id Hr).
      rewrite (Hn _ _ Hf). f_equal. f_equal.
      apply bool_decide_ext. split.
      * intros Hk'. apply (followingDrill_inj id k next Hf Hk').
      * intros ->. exact Hf.
  - destruct Hcases as [[_ [stamp ->]] | [r Hr]];
      [ apply curriculumOrder_counters; split; assumption | ].
    unfold curriculumOrder, isDrillUnlocked, isDrillCompleted in *.
    rewrite updateScenarioProgress_drills. split; assumption.
Qed.

Lemma curriculumOrder_default : curriculumOrder DEFAULT_PROGRESS.
Proof.
  split; [ reflexivity | ]. intros id next. rewrite followingDrill_table.
  repeat match goal with
         | |- context [String.eqb id ?s] =>
             destruct (String.eqb_spec id s) as [-> | ?];
             [ intros [= <-]; vm_compute; reflexivity | ]
         end.
  discriminate.
Qed.

Lemma curriculumOrder_reachable (l : list Attempt) :
  curriculumOrder (recordAttempts l DEFAULT_PROGRESS).
Proof.
  apply (recordAttempts_invariant
           (fun p => knownIds p /\ curriculumOrder p));
    [ | split; [ apply knownIds_default | apply curriculumOrder_default ] ].
  intros a p [Hk Hc]. split;
    [ apply knownIds_step, Hk | apply curriculumOrder_step; assumption ].
Qed.

(** ** Achievements *)

Lemma award_NoDup (c : bool) (id : string) (l : list string) :
  List.NoDup l -> List.NoDup (award c id l).
Proof.
  intros H. unfold award. destruct c; cbn [andb]; [ | exact H ].
  destruct (includes l id) eqn:E; cbn [negb]; [ exact H | ].
  apply NoDup_ListNoDup, NoDup_app. split; [ apply NoDup_ListNoDup, H | ].
  split; [ | apply NoDup_singleton ].
  intros x Hx Hx'. apply list_elem_of_singleton in Hx'. subst x.
  apply list_elem_of_In, includes_In in Hx. congruence.
Qed.

Lemma achievementsDistinct_step (a : Attempt) (p : Progress) :
  achievementsDistinct p -> achievementsDistinct (recordAttempt a p).
Proof.
  intros [Hd Hs]. pose proof (recordAttempt_cases a p) as Hcases.
  destruct a as [now k stats | now k stats];
    cbn [recordAttempt namesInherited] in *; cbv zeta in Hcases.
  - destruct Hcases as [[_ [stamp ->]] | [r Hr]];
      [ apply achievementsDistinct_counters; split; assumption | ].
    destruct (updateDrillProgress_fields now k stats p r Hr)
      as (_ & _ & _ & _ & _ & Ha & _ & _ & Hsa & _).
    cbv zeta in Ha. unfold achievementsDistinct. rewrite Ha, Hsa.
    split; [ | exact Hs ].
    destruct (newlyPassesDrill k stats r); [ | exact Hd ].
    repeat apply award_NoDup. exact Hd.
  - destruct Hcases as [[_ [stamp ->]] | [r Hr]];
      [ apply achievementsDistinct_counters; split; assumption | ].
    destruct (updateScenarioProgress_fields now k stats p r Hr)
      as (_ & _ & Hdr & _ & _ & _ & Ha).
    cbv zeta in Ha. unfold achievementsDistinct. rewrite Ha, Hdr.
    split; [ exact Hd | ].
    destruct (newlyPassesScenario k stats r); [ | exact Hs ].
    repeat apply award_NoDup. exact Hs.
Qed.

(** ** Attempt counters *)

Lemma sum_bump (f : string -> Z) (k : string) (l : list string) :
  List.NoDup l ->
  fold_right Z.add 0
    (List.map (fun x => f x + (if bool_decide (x = k) then 1 else 0)) l) =
  fold_right Z.add 0 (List.map f l)
  + (if existsb (String.eqb k) l then 1 else 0).
Proof.
  induction 1 as [ | x l Hx Hnd IH]; cbn [List.map fold_right existsb];
    [ reflexivity | ].
  rewrite IH. destruct (bool_decide_reflect (x = k)) as [-> | Hne].
  - rewrite String.eqb_refl. cbn [orb].
    destruct (existsb (String.eqb k) l) eqn:E; [ | lia ].
    exfalso. apply Hx. apply (includes_In l k). exact E.
  - destruct (String.eqb_spec k x); [ congruence | ]. cbn [orb]. lia.
Qed.

Lemma drillAttempts_after (now k : string) (stats : Stats) (p : Progress)
    (r : Drill.t) (other : string) :
  drillModules p !! k = Some r ->
  match drillModules (fst (updateDrillProgress now k stats p)) !! other with
  | Some r' => Drill.attempts r'
  | None => 0
  end =
  match drillModules p !! other with
  | Some r0 => Drill.attempts r0
  | None => 0
  end + (if bool_decide (other = k) then 1 else 0).
Proof.
  intros Hr. rewrite (updateDrillProgress_lookup _ _ _ _ _ other Hr).
  destruct (drillModules p !! other) eqn:E; cbn; [ apply drillAfter_attempts | ].
  destruct (bool_decide_reflect (other = k)) as [-> | ];
    [ congruence | reflexivity ].
Qed.

Lemma listed_not_inherited (k : string) :
  In k DRILL_ORDER -> inheritedMember k = false.
Proof.
  unfold DRILL_ORDER. cbn [In].
  intros [<- | [<- | [<- | [<- | [<- | []]]]]]; reflexivity.
Qed.

Lemma attemptsSum_step (a : Attempt) (p : Progress) :
  knownIds p ->
  DrillStage.totalAttempts (drills (recordAttempt a p))
  - drillAttemptsSum (recordAttempt a p) =
  DrillStage.totalAttempts (drills p) - drillAttemptsSum p
  + (if namesInherited a then 1 else 0).
Proof.
  intros [Hk _]. pose proof (recordAttempt_cases a p) as Hcases.
  destruct a as [now k stats | now k stats];
    cbn [recordAttempt namesInherited] in *; cbv zeta in Hcases.
  - destruct Hcases as [[_ [stamp ->]] | [r Hr]].
    { change (drillAttemptsSum (withCounters
                (DrillStage.totalAttempts (drills p)
                 + (if inheritedMember k then 1 else 0)) stamp p))
        with (drillAttemptsSum p).
      cbn [withCounters drills DrillStage.totalAttempts]. lia. }
    destruct (updateDrillProgress_fields now k stats p r Hr)
      as (_ & _ & _ & _ & Ht & _).
    assert (Hin : In k DRILL_ORDER) by (apply Hk; eauto).
    rewrite (listed_not_inherited k Hin), Ht. unfold drillAttemptsSum.
    rewrite (map_ext _ _ (fun other => drillAttempts_after now k stats p r other Hr)).
    rewrite sum_bump.
    + apply (includes_In DRILL_ORDER k) in Hin. unfold includes in Hin.
      rewrite Hin. lia.
    + apply NoDup_ListNoDup. apply (bool_decide_unpack _).
      vm_compute. reflexivity.
  - destruct Hcases as [[_ [stamp ->]] | [r Hr]].
    { change (drillAttemptsSum (withCounters
                (DrillStage.totalAttempts (drills p) + 0) stamp p))
        with (drillAttemptsSum p).
      cbn [withCounters drills DrillStage.totalAttempts]. lia. }
    destruct (updateScenarioProgress_fields now k stats p r Hr)
      as (_ & _ & Hdr & _).
    unfold drillAttemptsSum, drillModules. rewrite Hdr. lia.
Qed.

(** ** The current unit *)

Lemma find_pointwise {A} (f g : A -> bool) (l : list A) :
  (forall x, f x = g x) -> List.find f l = List.find g l.
Proof.
  intros H. induction l as [ | x l IH]; cbn; [ reflexivity | ].
  rewrite H, IH. reflexivity.
Qed.

(** The search of [getCurrentDrill] and [getCurrentScenario] over any order,
    with [u] the unlocked flag and [c] the completed flag of an id. *)
Lemma find_current (u c : string -> bool) (order : list string) (d : string) :
  In d order ->
  let cur :=
    match List.find (fun x => u x && negb (c x)) order with
    | Some x => x
    | None => match List.find u order with Some x => x | None => d end
    end in
  In cur order /\
  (forall x, In x order -> u x = true -> u cur = true) /\
  (c cur = true -> forall x, In x order -> u x = true -> c x = true).
Proof.
  intros Hd. cbv zeta.
  destruct (List.find (fun x => u x && negb (c x)) order) as [x1 | ] eqn:E1.
  - apply find_some in E1 as [Hin Hx]. apply andb_true_iff in Hx as [Hu Hc].
    apply negb_true_iff in Hc. repeat split; auto.
    intros Hc'. congruence.
  - pose proof (find_none _ _ E1) as Hnone.
    assert (Hall : forall x, In x order -> u x = true -> c x = true).
    { intros x Hx Hu. specialize (Hnone x Hx). cbn beta in Hnone.
      rewrite Hu in Hnone.
      cbn in Hnone. apply negb_false_iff in Hnone. exact Hnone. }
    destruct (List.find u order) as [x2 | ] eqn:E2.
    + apply find_some in E2 as [Hin Hu]. repeat split; auto.
    + pose proof (find_none _ _ E2) as Hnone2. repeat split; auto.
      intros x Hx Hu. rewrite (Hnone2 x Hx) in Hu. discriminate.
Qed.

Lemma getCurrentDrill_find (p : Progress) :
  getCurrentDrill p =
  match List.find (fun x => isDrillUnlocked x p && negb (isDrillCompleted x p))
          DRILL_ORDER with
  | Some x => x
  | None => match List.find (fun x => isDrillUnlocked x p) DRILL_ORDER with
            | Some x => x
            | None => "hand-ranking"
            end
  end.
Proof.
  unfold getCurrentDrill.
  rewrite (find_pointwise _
             (fun x => isDrillUnlocked x p && negb (isDrillCompleted x p))).
  - reflexivity.
  - intros x. unfold isDrillUnlocked, isDrillCompleted.
    destruct (drillModules p !! x); reflexivity.
Qed.

Lemma getCurrentScenario_find (p : Progress) :
  getCurrentScenario p =
  match List.find (fun x => scenarioRecordUnlocked x p
                            && negb (isScenarioCompleted x p))
          SCENARIO_ORDER with
  | Some x => x
  | None => match List.find (fun x => scenarioRecordUnlocked x p)
                    SCENARIO_ORDER with
            | Some x => x
            | None => "defend-3bet"
            end
  end.
Proof.
  unfold getCurrentScenario.
  rewrite (find_pointwise _
             (fun x => scenarioRecordUnlocked x p
                       && negb (isScenarioCompleted x p))).
  - reflexivity.
  - intros x. unfold scenarioRecordUnlocked, isScenarioCompleted.
    destruct (scenarioModules p !! x); reflexivity.
Qed.


(** ** Properties of the store over sequences of attempts *)

(** X11. One attempt on a drill the store holds changes the drill records
    in exactly this way: the attempted drill counts one more attempt; when
    the attempt reaches the drill's threshold and the drill was not completed
    before, that drill becomes completed and the drill after it in
    [DRILL_ORDER] becomes unlocked; no other completed or unlocked flag and
    no other attempt counter changes. *)
Theorem drill_attempt_effect (now id : string) (stats : Stats) (p : Progress)
    (r : Drill.t) (other : string) (r0 : Drill.t)
    (Hid : drillModules p !! id = Some r)
    (Hother : drillModules p !! other = Some r0) :
  let newly := newlyPassesDrill id stats r in
  exists r',
    drillModules (fst (updateDrillProgress now id stats p)) !! other = Some r' /\
    Drill.unlocked r' =
      Drill.unlocked r0 || (newly && bool_decide (followingDrill id = Some other)) /\
    Drill.completed r' =
      Drill.completed r0 || (newly && bool_decide (other = id)) /\
    Drill.attempts r' =
      Drill.attempts r0 + (if bool_decide (other = id) then 1 else 0).
Proof.
  cbv zeta. eexists. split.
  - rewrite (updateDrillProgress_lookup _ _ _ _ _ other Hid), Hother.
    reflexivity.
  - split; [ apply drillAfter_unlocked | ].
    split; [ apply drillAfter_completed | apply drillAfter_attempts ].
Qed.

Lemma drill_attempt_effect_witness :
  exists r',
    drillModules (fst (updateDrillProgress "t1" "hand-ranking" sampleStats
                         DEFAULT_PROGRESS)) !! "open-fold" = Some r' /\
    Drill.unlocked r' =
      false || (newlyPassesDrill "hand-ranking" sampleStats (defaultDrill true)
                && bool_decide (followingDrill "hand-ranking" = Some "open-fold")) /\
    Drill.completed r' =
      false || (newlyPassesDrill "hand-ranking" sampleStats (defaultDrill true)
                && bool_decide ("open-fold" = "hand-ranking")) /\
    Drill.attempts r' =
      0 + (if bool_decide ("open-fold" = "hand-ranking") then 1 else 0).
Proof.
  apply (drill_attempt_effect "t1" "hand-ranking" sampleStats DEFAULT_PROGRESS
           (defaultDrill true) "open-fold" (defaultDrill false));
    vm_compute; reflexivity.
Defined.

(** X12. However many attempts were recorded since the default document,
    the store holds a record exactly for the five ids of [DRILL_ORDER]
    (drills) and the six ids of [SCENARIO_ORDER] (scenarios). An attempt
    on any other id changes no record, no flag and no achievement: it
    leaves the document as it is, unless the id names a member every object
    inherits, such as ["constructor"]; then the document is saved with the
    new stamp and, for a drill attempt, with [totalAttempts] raised by
    one. *)
Theorem store_holds_exactly_the_listed_ids (l : list Attempt)
    (now id : string) (stats : Stats) :
  let p := recordAttempts l DEFAULT_PROGRESS in
  (if includes DRILL_ORDER id then is_Some (drillModules p !! id)
   else
     drillModules p !! id = None /\
     fst (updateDrillProgress now id stats p) =
       (if inheritedMember id
        then withCounters (DrillStage.totalAttempts (drills p) + 1)
               (Some now) p
        else p)) /\
  (if includes SCENARIO_ORDER id then is_Some (scenarioModules p !! id)
   else
     scenarioModules p !! id = None /\
     fst (updateScenarioProgress now id stats p) =
       (if inheritedMember id
        then withCounters (DrillStage.totalAttempts (drills p)) (Some now) p
        else p)).
Proof.
  cbv zeta. destruct (knownIds_reachable l) as [Hd Hs]. split.
  - destruct (includes DRILL_ORDER id) eqn:E.
    + apply Hd, includes_In, E.
    + assert (Hnone : drillModules (recordAttempts l DEFAULT_PROGRESS) !! id
                      = None).
      { destruct (drillModules _ !! id) eqn:El; [ | reflexivity ].
        assert (Hin : In id DRILL_ORDER) by (apply Hd; eauto).
        apply includes_In in Hin. congruence. }
      split; [ exact Hnone | ].
      rewrite (updateDrillProgress_missing _ _ _ _ Hnone).
      destruct (inheritedMember id); reflexivity.
  - destruct (includes SCENARIO_ORDER id) eqn:E.
    + apply Hs, includes_In, E.
    + assert (Hnone : scenarioModules (recordAttempts l DEFAULT_PROGRESS) !! id
                      = None).
      { destruct (scenarioModules _ !! id) eqn:El; [ | reflexivity ].
        assert (Hin : In id SCENARIO_ORDER) by (apply Hs; eauto).
        apply includes_In in Hin. congruence. }
      split; [ exact Hnone | ].
      rewrite (updateScenarioProgress_unknown _ _ _ _ Hnone).
      destruct (inheritedMember id); reflexivity.
Qed.

(** X13. The two achievement lists never hold an achievement twice: lists
    without duplicates stay without duplicates over any sequence of
    attempts. *)
Theorem achievements_stay_distinct (l : list Attempt) (p : Progress)
    (Hp : achievementsDistinct p) :
  achievementsDistinct (recordAttempts l p).
Proof.
  apply (recordAttempts_invariant achievementsDistinct
           achievementsDistinct_step), Hp.
Qed.

Lemma achievements_stay_distinct_witness :
  achievementsDistinct
    (recordAttempts
       [DrillAttempt "t1" "hand-ranking" (mkStats (Some 100%Q) (Some 30%Q) (Some 1500%Q));
        DrillAttempt "t2" "open-fold" (mkStats (Some 100%Q) (Some 30%Q) (Some 1500%Q))]
       DEFAULT_PROGRESS).
Proof.
  apply (achievements_stay_distinct _ DEFAULT_PROGRESS).
  split; constructor.
Defined.

(** X14. A drill or scenario marked completed has a best score at or above
    its pass threshold: if that holds of a document, it holds after any
    sequence of attempts. *)
Theorem completed_units_met_their_threshold (l : list Attempt) (p : Progress)
    (Hp : thresholdsMet p) :
  thresholdsMet (recordAttempts l p).
Proof.
  apply (recordAttempts_invariant thresholdsMet thresholdsMet_step), Hp.
Qed.

Lemma completed_units_met_their_threshold_witness :
  thresholdsMet
    (recordAttempts
       [DrillAttempt "t1" "hand-ranking" sampleStats;
        ScenarioAttempt "t2" "bb-defense" sampleStats]
       DEFAULT_PROGRESS).
Proof.
  apply (completed_units_met_their_threshold _ DEFAULT_PROGRESS).
  exact thresholdsMet_default.
Defined.

(** X15. The stage flags follow the records: the drills stage is completed
    exactly when all five drills are, the scenarios stage is unlocked
    exactly when the drills stage is completed, the scenarios stage is
    completed exactly when all six scenarios are, and the full-hands stage
    is unlocked exactly then. A document of which this holds keeps it over
    any sequence of attempts; so [isScenarioUnlocked] answers true only
    when all five drills are completed. *)
Theorem stage_flags_follow_records (l : list Attempt) (p : Progress)
    (Hp : stagesFollowRecords p) :
  let p' := recordAttempts l p in
  stagesFollowRecords p' /\
  forall id, isScenarioUnlocked id p' = true ->
             forall d, In d DRILL_ORDER -> isDrillCompleted d p' = true.
Proof.
  cbv zeta.
  assert (H : stagesFollowRecords (recordAttempts l p))
    by (apply (recordAttempts_invariant stagesFollowRecords
                 stagesFollowRecords_step), Hp).
  split; [ exact H | ]. intros id Hu d Hd.
  destruct H as (H1 & H2 & _).
  rewrite isScenarioUnlocked_record in Hu. apply andb_true_iff in Hu as [Hu _].
  rewrite H2, H1 in Hu.
  change (forallb (fun x => isDrillCompleted x (recordAttempts l p))
            DRILL_ORDER = true) in Hu.
  rewrite forallb_forall in Hu. apply Hu, Hd.
Qed.

Lemma stage_flags_follow_records_witness :
  let p' :=
    recordAttempts
      [DrillAttempt "t1" "hand-ranking" sampleStats;
       DrillAttempt "t2" "open-fold" sampleStats;
       DrillAttempt "t3" "equity-snap" sampleStats;
       DrillAttempt "t4" "range-check" sampleStats;
       DrillAttempt "t5" "position-speed" sampleStats]
      DEFAULT_PROGRESS in
  isScenarioUnlocked "defend-3bet" p' = true /\
  stagesFollowRecords p' /\
  forall id, isScenarioUnlocked id p' = true ->
             forall d, In d DRILL_ORDER -> isDrillCompleted d p' = true.
Proof.
  split; [ vm_compute; reflexivity | ].
  apply (stage_flags_follow_records _ DEFAULT_PROGRESS). repeat split.
Defined.

(** X16. No unlocked flag is ever cleared: over any sequence of attempts a
    drill record, a scenario record, the scenarios stage and the full-hands
    stage stay unlocked once they are, and so do the answers of
    [isDrillUnlocked] and [isScenarioUnlocked]. *)
Theorem unlocked_flags_never_revert (l : list Attempt) (p : Progress) :
  let p' := recordAttempts l p in
  unlockedKept p p' /\
  forall id, Bool.le (isDrillUnlocked id p) (isDrillUnlocked id p') /\
             Bool.le (isScenarioUnlocked id p) (isScenarioUnlocked id p').
Proof.
  cbv zeta. pose proof (unlockedKept_all l p) as H.
  split; [ exact H | ]. intros id. split.
  - apply unlockedKept_drill, H.
  - apply unlockedKept_scenario, H.
Qed.

(** X17. From the default document on, the first drill is always unlocked
    and every later drill of [DRILL_ORDER] is unlocked exactly when the
    drill before it is completed. *)
Theorem drill_unlocked_when_previous_completed (l : list Attempt)
    (id next : string) (Hnext : followingDrill id = Some next) :
  let p := recordAttempts l DEFAULT_PROGRESS in
  isDrillUnlocked "hand-ranking" p = true /\
  isDrillUnlocked next p = isDrillCompleted id p.
Proof.
  cbv zeta. destruct (curriculumOrder_reachable l) as [H0 Hn].
  split; [ exact H0 | apply Hn, Hnext ].
Qed.

Lemma drill_unlocked_when_previous_completed_witness :
  let p := recordAttempts [DrillAttempt "t1" "hand-ranking" sampleStats]
             DEFAULT_PROGRESS in
  isDrillUnlocked "hand-ranking" p = true /\
  isDrillUnlocked "open-fold" p = isDrillCompleted "hand-ranking" p.
Proof.
  apply (drill_unlocked_when_previous_completed
           [DrillAttempt "t1" "hand-ranking" sampleStats]
           "hand-ranking" "open-fold").
  reflexivity.
Defined.

(** X18. From the default document on, [getCurrentDrill] and
    [getCurrentScenario] return an id of their order list whose record is
    unlocked; the unit they return is a completed one only when every
    unlocked unit of the list is completed. *)
Theorem current_unit_is_open (l : list Attempt) :
  let p := recordAttempts l DEFAULT_PROGRESS in
  (In (getCurrentDrill p) DRILL_ORDER /\
   isDrillUnlocked (getCurrentDrill p) p = true /\
   (isDrillCompleted (getCurrentDrill p) p = true ->
    forall id, In id DRILL_ORDER -> isDrillUnlocked id p = true ->
               isDrillCompleted id p = true)) /\
  (In (getCurrentScenario p) SCENARIO_ORDER /\
   scenarioRecordUnlocked (getCurrentScenario p) p = true /\
   (isScenarioCompleted (getCurrentScenario p) p = true ->
    forall id, In id SCENARIO_ORDER -> scenarioRecordUnlocked id p = true ->
               isScenarioCompleted id p = true)).
Proof.
  cbv zeta. pose proof (unlockedKept_all l DEFAULT_PROGRESS) as Hkept. split.
  - rewrite getCurrentDrill_find.
    destruct (find_current
                (fun x => isDrillUnlocked x (recordAttempts l DEFAULT_PROGRESS))
                (fun x => isDrillCompleted x (recordAttempts l DEFAULT_PROGRESS))
                DRILL_ORDER "hand-ranking") as (Hin & Hu & Hc);
      [ left; reflexivity | ].
    split; [ exact Hin | ]. split; [ | exact Hc ].
    apply (Hu "hand-ranking"); [ left; reflexivity | ].
    apply (unlockedKept_drill _ _ "hand-ranking" Hkept).
  - rewrite getCurrentScenario_find.
    destruct (find_current
                (fun x => scenarioRecordUnlocked x
                            (recordAttempts l DEFAULT_PROGRESS))
                (fun x => isScenarioCompleted x
                            (recordAttempts l DEFAULT_PROGRESS))
                SCENARIO_ORDER "defend-3bet") as (Hin & Hu & Hc);
      [ left; reflexivity | ].
    split; [ exact Hin | ]. split; [ | exact Hc ].
    apply (Hu "defend-3bet"); [ left; reflexivity | ].
    apply (unlockedKept_record _ _ "defend-3bet" Hkept).
Qed.

(** X19. From the default document on, the attempt counter of the drills
    stage is the sum of the attempt counters of the five drills plus the
    number of drill attempts that were made on an id naming an inherited
    member (such an attempt is counted by the stage and by no drill); so
    the two agree as long as no attempt names such an id. *)
Theorem total_attempts_is_the_sum (l : list Attempt) :
  let p := recordAttempts l DEFAULT_PROGRESS in
  DrillStage.totalAttempts (drills p) =
  drillAttemptsSum p + Z.of_nat (List.length (List.filter namesInherited l)).
Proof.
  cbv zeta.
  assert (Hgen : forall l p, knownIds p ->
            DrillStage.totalAttempts (drills (recordAttempts l p))
            - drillAttemptsSum (recordAttempts l p) =
            DrillStage.totalAttempts (drills p) - drillAttemptsSum p
            + Z.of_nat (List.length (List.filter namesInherited l))).
  { clear l. unfold recordAttempts.
    induction l as [ | a l IH]; intros p Hk; cbn [fold_left List.filter].
    - cbn. lia.
    - rewrite (IH _ (knownIds_step a p Hk)), (attemptsSum_step a p Hk).
      destruct (namesInherited a); cbn [List.length]; lia. }
  specialize (Hgen l DEFAULT_PROGRESS knownIds_default).
  change (DrillStage.totalAttempts (drills DEFAULT_PROGRESS)) with 0 in Hgen.
  change (drillAttemptsSum DEFAULT_PROGRESS) with 0 in Hgen.
  lia.
Qed.

End StorageInvariants.

(** * Properties of whole sessions of the scenario engine *)

Section SessionProperties.

Import Engine Session.

Context {QuestionData Answer Explanation RangeDisplay : Type}.
Variable cfg : Config QuestionData Answer Explanation RangeDisplay.

Lemma countIf_snoc {A} (f : A -> bool) (l : list A) (x : A) :
  countIf f (l ++ [x])%list = countIf f l + (if f x then 1 else 0).
Proof.
  unfold countIf. rewrite List.filter_app, List.length_app. cbn.
  destruct (f x); cbn; lia.
Qed.

(** An invariant of single calls is an invariant of call sequences. *)
Lemma calls_invariant (I : World QuestionData Answer Explanation -> Prop) :
  (forall c w, I w -> I (call cfg c w)) ->
  forall l w, I w -> I (calls cfg l w).
Proof.
  intros Hstep l. unfold calls.
  induction l as [ | c l IH]; intros w Hw; cbn; [ exact Hw | ].
  apply IH, Hstep, Hw.
Qed.

Lemma tallied_start (now : Q) (stamp : string)
    (w : World QuestionData Answer Explanation) :
  tallied cfg (state (start cfg now stamp w)).
Proof.
  unfold start, nextQuestion, reset, endScenario. cbn.
  destruct (totalQuestions cfg <=? 0); cbn;
    (split; [ reflexivity | split; [ reflexivity | ] ]);
    intros cat; destruct (inheritedMember cat); reflexivity.
Qed.

Lemma tallied_call (c : Call Answer)
    (w : World QuestionData Answer Explanation) :
  tallied cfg (state w) -> tallied cfg (state (call cfg c w)).
Proof.
  intros (Ht & Hc & Hcat). unfold tallied.
  destruct c as [ | now stamp | now answer]; cbn.
  - repeat split; assumption.
  - unfold nextQuestion, endScenario.
    destruct (active (state w)); cbn; [ | repeat split; assumption ].
    destruct (totalQuestions cfg <=? currentQuestion (state w)); cbn;
      repeat split; assumption.
  - unfold submitAnswer.
    destruct (active (state w)); [ | repeat split; assumption ].
    destruct (currentQuestionData (state w)) as [q | ];
      [ | repeat split; assumption ].
    cbn. split; [ | split ].
    + rewrite List.map_app, Ht. reflexivity.
    + rewrite countIf_snoc, Hc. cbn.
      destruct (valid (validateAnswer cfg answer q)); lia.
    + intros cat. specialize (Hcat cat).
      destruct (inheritedMember cat) eqn:Einh.
      * destruct (String.eqb_spec (categoryOf cfg q) cat) as [<- | Hne].
        -- rewrite bumpCategory_lookup, Hcat, Einh. reflexivity.
        -- rewrite bumpCategory_other by exact Hne. exact Hcat.
      * rewrite !countIf_snoc. unfold inCategory at 2 4. cbn.
        destruct (String.eqb_spec (categoryOf cfg q) cat) as [<- | Hne].
        -- rewrite bumpCategory_lookup, Einh.
           destruct (categoryStats (state w) !! categoryOf cfg q) as [c | ];
             cbn [categoryOrZero] in *.
           ++ rewrite Hcat. cbn. reflexivity.
           ++ injection Hcat as <- <-. cbn.
              destruct (valid (validateAnswer cfg answer q)); reflexivity.
        -- rewrite bumpCategory_other by exact Hne.
           rewrite Hcat. cbn. f_equal; lia.
Qed.

Lemma writtenAtMostOnce_start (now : Q) (stamp : string)
    (w : World QuestionData Answer Explanation) :
  writtenAtMostOnce cfg (store w) (start cfg now stamp w).
Proof.
  unfold writtenAtMostOnce, start, nextQuestion, reset, endScenario. cbn.
  destruct (Z.leb_spec (totalQuestions cfg) 0) as [Hle | Hlt]; cbn.
  - split; [ lia | ]. split; [ discriminate | ].
    right. exists stamp. repeat split. lia.
  - split; [ lia | ]. split; [ reflexivity | left; reflexivity ].
Qed.

Lemma writtenAtMostOnce_call (before : Storage.Progress) (c : Call Answer)
    (w : World QuestionData Answer Explanation) :
  writtenAtMostOnce cfg before w -> writtenAtMostOnce cfg before (call cfg c w).
Proof.
  intros (Hq & Hact & Hst).
  destruct (active (state w)) eqn:Eact.
  - specialize (Hact eq_refl).
    destruct c as [ | now stamp | now answer]; cbn.
    + unfold writtenAtMostOnce. cbn.
      split; [ exact Hq | ]. split; [ discriminate | left; exact Hact ].
    + unfold nextQuestion, endScenario. rewrite Eact. cbn.
      destruct (Z.leb_spec (totalQuestions cfg) (currentQuestion (state w)))
        as [Hle | Hlt]; unfold writtenAtMostOnce; cbn.
      * split; [ exact Hq | ]. split; [ discriminate | ].
        right. exists stamp. rewrite Hact. repeat split. lia.
      * split; [ lia | ]. split; [ intros _; exact Hact | left; exact Hact ].
    + unfold submitAnswer. rewrite Eact.
      destruct (currentQuestionData (state w)) as [q | ]; cbn.
      * unfold writtenAtMostOnce. cbn.
        split; [ exact Hq | ]. split; [ intros _; exact Hact | left; exact Hact ].
      * unfold writtenAtMostOnce. rewrite Eact.
        split; [ exact Hq | ]. split; [ intros _; exact Hact | left; exact Hact ].
  - assert (Hsame : call cfg c w = w).
    { change (call cfg c w) with (calls cfg [c] w).
      apply calls_after_stop, Eact. }
    rewrite Hsame. unfold writtenAtMostOnce. rewrite Eact.
    split; [ exact Hq | ]. split; [ discriminate | exact Hst ].
Qed.

(** ** Question times *)

Lemma minQ_le_first (x : Q) (l : list Q) : (minQ x l <= x)%Q.
Proof.
  unfold minQ. revert x. induction l as [ | y l IH]; intros x; cbn.
  - apply Qle_refl.
  - destruct (Qle_bool y x) eqn:E.
    + eapply Qle_trans; [ apply IH | apply Qle_bool_iff, E ].
    + apply IH.
Qed.

Lemma minQ_le_In (x : Q) (l : list Q) (t : Q) :
  In t l -> (minQ x l <= t)%Q.
Proof.
  unfold minQ. revert x. induction l as [ | y l IH]; intros x; cbn;
    [ intros [] | ].
  intros [<- | Hin]; [ | apply IH, Hin ].
  destruct (Qle_bool y x) eqn:E.
  - apply (minQ_le_first y l).
  - eapply Qle_trans; [ apply (minQ_le_first x l) | ].
    apply Qlt_le_weak, Qnot_le_lt. intros Hle.
    apply Qle_bool_iff in Hle. congruence.
Qed.

Lemma minQ_In (x : Q) (l : list Q) : In (minQ x l) (x :: l).
Proof.
  unfold minQ. revert x. induction l as [ | y l IH]; intros x; cbn.
  - left; reflexivity.
  - destruct (Qle_bool y x).
    + right. apply IH.
    + destruct (IH x) as [H | H]; [ left; exact H | right; right; exact H ].
Qed.

Lemma scenarioAfter_attempts (now id : string) (stats : Storage.Stats)
    (other : string) (newly unlock : bool) (r0 : Storage.Scenario.t) :
  Storage.Scenario.attempts
    (StorageQueries.scenarioAfter now id stats other newly unlock r0) =
  Storage.Scenario.attempts r0 + (if bool_decide (other = id) then 1 else 0).
Proof.
  unfold StorageQueries.scenarioAfter, Storage.recordScenarioStats,
    Storage.setScenarioCompleted.
  destruct newly, unlock, (bool_decide ("cold-4bet" = other)),
    (bool_decide (other = id)); cbn; lia.
Qed.

(** X20. At any point of a session, whatever calls the page has made since
    [start], the counters of the engine agree with its answer records: the
    question times are the times of the records, [correct] is the number
    of records marked correct, and for every category the statistics hold
    the number of records of that category and the number of correct ones
    among them. The one exception is a category that names a member every
    object inherits, such as ["constructor"]: the statistics never hold an
    entry for it, however many of its questions were answered. *)
Theorem session_counters_match_answers (now : Q) (stamp : string)
    (w : World QuestionData Answer Explanation) (l : list (Call Answer)) :
  let s := state (calls cfg l (start cfg now stamp w)) in
  questionTimes s = List.map time (answers s) /\
  correct s = countIf isCorrect (answers s) /\
  forall cat,
    if inheritedMember cat then categoryStats s !! cat = None
    else
      categoryOrZero (categoryStats s !! cat) =
      mkCategoryStat (countIf (inCategory cfg cat) (answers s))
        (countIf (fun a => inCategory cfg cat a && isCorrect a) (answers s)).
Proof.
  cbv zeta.
  apply (calls_invariant (fun w => tallied cfg (state w)) tallied_call).
  apply tallied_start.
Qed.

(** X21. A session writes the progress store at most once. Whatever calls
    follow [start], the question counter stays between 0 and
    [totalQuestions]; while the session is active the store is the one the
    session started with; and a store that differs from it was written by one
    [updateScenarioProgress] call of [endScenario], made after the last
    question with the final statistics of the session. So the attempt
    counter of the scenario rises by at most one. *)
Theorem session_writes_store_at_most_once (now : Q) (stamp : string)
    (w : World QuestionData Answer Explanation) (l : list (Call Answer)) :
  let w' := calls cfg l (start cfg now stamp w) in
  0 <= currentQuestion (state w') <= Z.max 0 (totalQuestions cfg) /\
  (active (state w') = true -> store w' = store w) /\
  (store w' = store w \/
   exists stamp',
     active (state w') = false /\
     currentQuestion (state w') = Z.max 0 (totalQuestions cfg) /\
     store w' =
       fst (Storage.updateScenarioProgress stamp' (id cfg)
              (getFinalStats cfg (state w')) (store w))) /\
  match attemptsOf (id cfg) (store w), attemptsOf (id cfg) (store w') with
  | Some a, Some a' => a <= a' <= a + 1
  | None, None => True
  | _, _ => False
  end.
Proof.
  cbv zeta.
  assert (H : writtenAtMostOnce cfg (store w)
                (calls cfg l (start cfg now stamp w))).
  { apply (calls_invariant (writtenAtMostOnce cfg (store w))
             (writtenAtMostOnce_call (store w))).
    apply writtenAtMostOnce_start. }
  destruct H as (Hq & Hact & Hst).
  split; [ exact Hq | ]. split; [ exact Hact | ]. split; [ exact Hst | ].
  destruct Hst as [-> | (stamp' & _ & _ & ->)].
  - destruct (attemptsOf (id cfg) (store w)); [ lia | exact I ].
  - unfold attemptsOf.
    destruct (Storage.scenarioModules (store w) !! id cfg) as [r | ] eqn:E.
    + rewrite (updateScenarioProgress_lookup _ _ _ _ _ (id cfg) E), E. cbn.
      rewrite scenarioAfter_attempts.
      rewrite bool_decide_eq_true_2 by reflexivity. lia.
    + rewrite updateScenarioProgress_unknown by exact E.
      destruct (inheritedMember (id cfg)); cbn [fst].
      * change (Storage.scenarioModules (StorageQueries.withCounters
                  (Storage.DrillStage.totalAttempts
                     (Storage.drills (store w))) (Some stamp') (store w)))
          with (Storage.scenarioModules (store w)).
        rewrite E. exact I.
      * rewrite E. exact I.
Qed.

(** X22. In the final statistics the fastest time is the least of the
    question times: it is one of them and at most every one of them; with
    no question answered both the fastest and the average time are 0. *)
Theorem fastest_time_is_the_least_time
    (s : State QuestionData Answer Explanation) :
  match questionTimes s with
  | [] =>
      fastestTime s = 0%Q /\
      Storage.avgTime (getFinalStats cfg s) = Some 0%Q
  | _ :: _ =>
      In (fastestTime s) (questionTimes s) /\
      forall t, In t (questionTimes s) -> (fastestTime s <= t)%Q
  end.
Proof.
  unfold fastestTime, getFinalStats.
  destruct (questionTimes s) as [ | x l] eqn:E; cbn [Storage.avgTime].
  - split; reflexivity.
  - split; [ apply minQ_In | ].
    intros t [<- | Hin]; [ apply minQ_le_first | apply minQ_le_In, Hin ].
Qed.

End SessionProperties.

(** * Properties of the array helpers, the dealt cards and the sorted hands *)

Section HelpersProperties.

Import BoardGen Helpers.

Lemma swap_Permutation {A} (i j : nat) (l : list A) : swap i j l ≡ₚ l.
Proof.
  unfold swap. destruct (l !! i) as [x | ] eqn:Ei; [ | reflexivity ].
  destruct (l !! j) as [y | ] eqn:Ej; [ | reflexivity ].
  apply Permutation_insert_swap; assumption.
Qed.

Lemma shuffleLoop_permutes {A} (i : nat) (l : list A) (rs : Supply)
    (out : list A) (rest : Supply) :
  shuffleLoop i l rs = Some (out, rest) -> out ≡ₚ l /\ rest = skipn i rs.
Proof.
  revert l rs. induction i as [ | i IH]; intros l rs; cbn [shuffleLoop].
  - intros [= <- <-]. split; reflexivity.
  - unfold bind. destruct (randomIndex (S (S i)) rs) as [[j rs'] | ] eqn:E;
      [ | discriminate ].
    apply randomIndex_Some in E as [_ [r ->]]. intros H.
    apply IH in H as [Hperm ->]. split; [ | reflexivity ].
    rewrite Hperm. apply swap_Permutation.
Qed.

Lemma shuffleLoop_returns {A} (i : nat) (l : list A) (rs : Supply) :
  Forall inUnit rs -> (i <= List.length rs)%nat ->
  exists out, shuffleLoop i l rs = Some (out, skipn i rs).
Proof.
  revert l rs. induction i as [ | i IH]; intros l rs Hunit Hlen;
    cbn [shuffleLoop].
  - exists l. reflexivity.
  - destruct rs as [ | r rs]; [ cbn in Hlen; lia | ].
    apply Forall_cons in Hunit as [Hr Hrs].
    destruct (randomIndex_inUnit (S (S i)) r rs) as (j & E & _);
      [ lia | exact Hr | ].
    unfold bind. rewrite E. apply IH; [ exact Hrs | cbn in Hlen; lia ].
Qed.

(** [shuffleArray] returns, and what it returns is a permutation. *)
Lemma shuffle_total {A} (array : list A) (rs : Supply) :
  Forall inUnit rs -> (List.length array - 1 <= List.length rs)%nat ->
  exists shuffled,
    shuffleArray array rs =
      Some (shuffled, skipn (List.length array - 1) rs) /\
    shuffled ≡ₚ array.
Proof.
  intros Hunit Hlen. unfold shuffleArray.
  destruct (shuffleLoop_returns (List.length array - 1) array rs Hunit Hlen)
    as [out E].
  exists out. split; [ exact E | ].
  apply (shuffleLoop_permutes _ _ _ _ _ E).
Qed.

(** X23. [shuffleArray] returns a permutation of its argument: given
    readings of [Math.random()] in [0,1), one for each element but the
    first, it takes exactly these readings and returns an array that holds
    the same elements the same number of times. *)
Theorem shuffle_is_a_permutation {A} (array : list A) (rs : Supply)
    (Hunit : Forall inUnit rs)
    (Hlen : (List.length array - 1 <= List.length rs)%nat) :
  exists shuffled,
    shuffleArray array rs =
      Some (shuffled, skipn (List.length array - 1) rs) /\
    shuffled ≡ₚ array.
Proof.
  exact (shuffle_total array rs Hunit Hlen).
Qed.

Lemma shuffle_is_a_permutation_witness :
  exists shuffled,
    shuffleArray ["fold"; "call"; "raise"] [(1 # 2); (3 # 4)]%Q =
      Some (shuffled, skipn 2 [(1 # 2); (3 # 4)]%Q) /\
    shuffled ≡ₚ ["fold"; "call"; "raise"].
Proof.
  apply (shuffle_is_a_permutation ["fold"; "call"; "raise"]
           [(1 # 2); (3 # 4)]%Q).
  - repeat constructor; vm_compute; congruence.
  - cbn. lia.
Defined.

(** X24. [randomPickN] returns the first elements of a shuffle: together
    with the elements it leaves out they are a permutation of the array,
    so no element is picked more often than the array holds it. For [n]
    from 0 on it returns [min(n, length)] elements; a negative [n] makes
    [slice] drop the last [-n] elements instead. *)
Theorem randomPickN_picks_without_repeats {A} (array : list A) (n : Z)
    (rs : Supply) (Hunit : Forall inUnit rs)
    (Hlen : (List.length array - 1 <= List.length rs)%nat) :
  exists picked unpicked,
    randomPickN array n rs =
      Some (picked, skipn (List.length array - 1) rs) /\
    (picked ++ unpicked)%list ≡ₚ array /\
    Z.of_nat (List.length picked) =
      (if n <? 0 then Z.max (Z.of_nat (List.length array) + n) 0
       else Z.min n (Z.of_nat (List.length array))).
Proof.
  destruct (shuffle_total array rs Hunit Hlen) as (shuffled & E & Hperm).
  pose proof (Permutation_length Hperm) as Hl.
  set (k := Z.to_nat
              (let len := Z.of_nat (List.length shuffled) in
               let e := Z.min n len in
               if e <? 0 then Z.max (len + e) 0 else Z.min e len)).
  exists (firstn k shuffled), (skipn k shuffled).
  split; [ | split ].
  - unfold randomPickN, bind. rewrite E. reflexivity.
  - rewrite firstn_skipn. exact Hperm.
  - rewrite List.length_firstn. subst k. cbv zeta. rewrite Hl.
    destruct (Z.ltb_spec n 0) as [Hneg | Hpos];
      destruct (Z.ltb_spec (Z.min n (Z.of_nat (List.length array))) 0); lia.
Qed.

Lemma randomPickN_picks_without_repeats_witness :
  exists picked unpicked,
    randomPickN ["fold"; "call"; "raise"] 2 [(1 # 2); (3 # 4)]%Q =
      Some (picked, skipn 2 [(1 # 2); (3 # 4)]%Q) /\
    (picked ++ unpicked)%list ≡ₚ ["fold"; "call"; "raise"] /\
    Z.of_nat (List.length picked) = 2.
Proof.
  apply (randomPickN_picks_without_repeats ["fold"; "call"; "raise"] 2
           [(1 # 2); (3 # 4)]%Q).
  - repeat constructor; vm_compute; congruence.
  - cbn. lia.
Defined.

Lemma floor_index_nonneg (n : nat) (r : Q) :
  (0 <= r)%Q -> 0 <= Qfloor (r * inject_Z (Z.of_nat n))%Q.
Proof.
  intros Hr. change 0 with (Qfloor 0). apply Qfloor_resp_le.
  apply Qmult_le_0_compat; [ exact Hr | ].
  change 0%Q with (inject_Z 0). rewrite <- Zle_Qle. lia.
Qed.

(** X25. [randomPick] on a reading in [0,1) takes that one reading and
    returns an element of the array; on an empty array it returns
    [undefined]. *)
Theorem randomPick_picks_an_element {A} (array : list A) (r : Q)
    (rs : Supply) (Hr : inUnit r) :
  exists o,
    randomPick array (r :: rs) = Some (o, rs) /\
    match o with
    | Some x => In x array
    | None => array = []
    end.
Proof.
  unfold randomPick. cbv zeta.
  pose proof (floor_index_nonneg (List.length array) r (proj1 Hr)) as Hnn.
  apply Z.leb_le in Hnn. rewrite Hnn.
  eexists. split; [ reflexivity | ].
  destruct (Nat.eq_dec (List.length array) 0%nat) as [Hz | Hnz].
  - apply length_zero_iff_nil in Hz. subst array.
    destruct (Z.to_nat _); reflexivity.
  - destruct (indexFor_inUnit (List.length array) r) as (i & E & Hi);
      [ lia | exact Hr | ].
    unfold indexFor in E. cbv zeta in E.
    set (z := Qfloor _) in *. clearbody z.
    destruct (_ && _); [ | discriminate ]. injection E as ->.
    destruct (nth_error array i) as [x | ] eqn:Ex.
    + apply nth_error_In in Ex. exact Ex.
    + apply nth_error_None in Ex. lia.
Qed.

Lemma randomPick_picks_an_element_witness :
  exists o,
    randomPick ["fold"; "call"; "raise"] [(1 # 2)%Q] = Some (o, []) /\
    match o with
    | Some x => In x ["fold"; "call"; "raise"]
    | None => ["fold"; "call"; "raise"] = []
    end.
Proof.
  apply (randomPick_picks_an_element ["fold"; "call"; "raise"] (1 # 2) []).
  split; vm_compute; congruence.
Defined.

End HelpersProperties.

Section HandCardsProperties.

Import Hands BoardGen HandCards.

Lemma parseHand_pair (n : string) (hand : Hand) :
  parseHand n = Some hand ->
  pair hand = Ascii.eqb (rank1 hand) (rank2 hand).
Proof.
  unfold parseHand. destruct (charAt n 0); [ | discriminate ].
  destruct (charAt n 1); [ | discriminate ].
  intros [= <-]. reflexivity.
Qed.

Lemma twoSuits_inUnit (hand : Hand) (r1 r2 : Q) (rs : Supply) :
  inUnit r1 -> inUnit r2 ->
  exists s1 s2,
    twoSuits hand (r1 :: r2 :: rs) =
      Some (Some [mkCard (rank1 hand) s1; mkCard (rank2 hand) s2], rs) /\
    In s1 SUITS /\ In s2 SUITS /\ s1 <> s2.
Proof.
  intros H1 H2.
  destruct (indexFor_inUnit 4 r1) as (i & E1 & Hi); [ lia | exact H1 | ].
  destruct (indexFor_inUnit 3 r2) as (j & E2 & Hj); [ lia | exact H2 | ].
  unfold twoSuits, spliceOne, pick, bind, randomIndex, SUITS.
  cbn [List.length]. rewrite E1.
  destruct i as [ | [ | [ | [ | i] ] ] ]; [ | | | | lia ];
    cbn [at_ nth_error ret firstn skipn app List.length]; rewrite E2;
    (destruct j as [ | [ | [ | j] ] ]; [ | | | lia ]);
    cbn [at_ nth_error ret];
    (eexists; eexists; split; [ reflexivity | ];
     split; [ cbn; tauto | ]; split; [ cbn; tauto | discriminate ]).
Qed.

(** X26. Given two readings of [Math.random()] in [0,1), [getCardsForHand]
    on a notation that [parseHand] accepts returns two cards with the two
    ranks of the hand and suits of [SUITS]; the suits are equal exactly
    for a suited hand that is not a pair, and the two cards are never the
    same card. A suited hand takes one reading, any other hand two. *)
Theorem dealt_cards_fit_the_hand (n : string) (hand : Hand) (r1 r2 : Q)
    (rs : Supply) (Hparse : parseHand n = Some hand)
    (H1 : inUnit r1) (H2 : inUnit r2) :
  exists c1 c2,
    getCardsForHand n (r1 :: r2 :: rs) =
      Some (Some [c1; c2],
            if negb (pair hand) && suited hand then r2 :: rs else rs) /\
    rank c1 = rank1 hand /\ rank c2 = rank2 hand /\
    In (suit c1) SUITS /\ In (suit c2) SUITS /\
    Ascii.eqb (suit c1) (suit c2) = negb (pair hand) && suited hand /\
    c1 <> c2.
Proof.
  unfold getCardsForHand. rewrite Hparse.
  pose proof (parseHand_pair n hand Hparse) as Hpair.
  assert (Htwo : forall b : bool, b = false ->
            exists c1 c2,
              twoSuits hand (r1 :: r2 :: rs) = Some (Some [c1; c2], rs) /\
              rank c1 = rank1 hand /\ rank c2 = rank2 hand /\
              In (suit c1) SUITS /\ In (suit c2) SUITS /\
              Ascii.eqb (suit c1) (suit c2) = b /\ c1 <> c2).
  { intros b ->.
    destruct (twoSuits_inUnit hand r1 r2 rs H1 H2)
      as (s1 & s2 & E & Hs1 & Hs2 & Hne).
    exists (mkCard (rank1 hand) s1), (mkCard (rank2 hand) s2).
    split; [ exact E | ]. cbn [rank suit]. repeat split; try assumption.
    - apply Ascii.eqb_neq, Hne.
    - intros [= _ Heq]. apply Hne. congruence. }
  destruct (pair hand) eqn:Ep; cbn [negb andb].
  - apply Htwo. reflexivity.
  - destruct (suited hand) eqn:Es.
    + destruct (pick_inUnit SUITS r1 (r2 :: rs)) as (s & E & Hs);
        [ discriminate | exact H1 | ].
      unfold bind. rewrite E.
      exists (mkCard (rank1 hand) s), (mkCard (rank2 hand) s).
      split; [ reflexivity | ]. cbn [rank suit]. repeat split; try assumption.
      * apply Ascii.eqb_refl.
      * intros [= Heq]. symmetry in Hpair. apply Ascii.eqb_neq in Hpair.
        apply Hpair, Heq.
    + apply Htwo. reflexivity.
Qed.

Lemma dealt_cards_fit_the_hand_witness :
  exists c1 c2,
    getCardsForHand "AKs" [(1 # 2); (3 # 4)]%Q =
      Some (Some [c1; c2], [(3 # 4)%Q]) /\
    rank c1 = "A"%char /\ rank c2 = "K"%char /\
    In (suit c1) SUITS /\ In (suit c2) SUITS /\
    Ascii.eqb (suit c1) (suit c2) = true /\
    c1 <> c2.
Proof.
  apply (dealt_cards_fit_the_hand "AKs"
           (mkHand "A" "K" true false false "AKs") (1 # 2) (3 # 4) []);
    [ reflexivity | split; vm_compute; congruence
    | split; vm_compute; congruence ].
Defined.

(** ** The equity table and the 169 hands *)

Lemma gridHands_on_table :
  forallb (fun h => existsb (String.eqb h) ALL_HANDS
                    && match lookupKey PREFLOP_EQUITY h with
                       | Some v => negb (Qeq_bool v 0)
                       | None => false
                       end) Ranges.gridHands = true.
Proof. vm_compute. reflexivity. Qed.

(** X27. Every valid notation (two rank letters and at most a shape
    suffix, in either case) normalizes to one of the 169 hands of
    [ALL_HANDS], and that hand has an entry in [PREFLOP_EQUITY]: [getEquity]
    returns the entry and never its default of 30. *)
Theorem valid_hands_have_a_table_equity (n : string)
    (Hvalid : validNotation n = true) :
  exists c e,
    normalizeHand n = Value (Some c) /\
    In c ALL_HANDS /\
    lookupKey PREFLOP_EQUITY c = Some e /\
    getEquity n = Value e.
Proof.
  destruct (valid_normalized_on_grid n Hvalid)
    as (c & row & col & Hnorm & Hrow & Hcol & Hat).
  assert (Hin : In c Ranges.gridHands) by (apply gridHands_In; eauto).
  pose proof gridHands_on_table as Htab.
  rewrite forallb_forall in Htab. specialize (Htab c Hin).
  apply andb_true_iff in Htab as [Hall Heq].
  destruct (lookupKey PREFLOP_EQUITY c) as [e | ] eqn:E; [ | discriminate ].
  exists c, e. split; [ exact Hnorm | ]. split; [ | split; [ exact E | ] ].
  - apply existsb_exists in Hall as (x & Hx & Hxc).
    apply String.eqb_eq in Hxc. subst x. exact Hx.
  - unfold getEquity. rewrite Hnorm. cbn [obind keyOf]. rewrite E.
    unfold orDefault. apply negb_true_iff in Heq. rewrite Heq. reflexivity.
Qed.

Lemma valid_hands_have_a_table_equity_witness :
  exists c e,
    normalizeHand "qks" = Value (Some c) /\
    In c ALL_HANDS /\
    lookupKey PREFLOP_EQUITY c = Some e /\
    getEquity "qks" = Value e.
Proof.
  apply (valid_hands_have_a_table_equity "qks"). reflexivity.
Defined.

(** ** Sorting hands by equity *)

Lemma insertByEquity_Permutation (x : string * Q) (l : list (string * Q)) :
  insertByEquity x l ≡ₚ x :: l.
Proof.
  induction l as [ | y l IH]; cbn [insertByEquity]; [ reflexivity | ].
  destruct (Qle_bool (snd y) (snd x)); [ reflexivity | ].
  rewrite IH. apply Permutation_swap.
Qed.

Lemma sortKeyed_Permutation (l : list (string * Q)) : sortKeyed l ≡ₚ l.
Proof.
  unfold sortKeyed. induction l as [ | x l IH]; cbn [fold_right];
    [ reflexivity | ].
  rewrite insertByEquity_Permutation, IH. reflexivity.
Qed.

Lemma insertByEquity_sorted (x : string * Q) (l : list (string * Q)) :
  StronglySorted (fun a b => (snd b <= snd a)%Q) l ->
  StronglySorted (fun a b => (snd b <= snd a)%Q) (insertByEquity x l).
Proof.
  induction 1 as [ | y l Hl IH Hy]; cbn [insertByEquity].
  - constructor; constructor.
  - destruct (Qle_bool (snd y) (snd x)) eqn:E.
    + apply Qle_bool_iff in E. constructor; [ constructor; assumption | ].
      constructor; [ exact E | ].
      eapply Forall_impl; [ exact Hy | ].
      intros z Hz. cbn beta in *. eapply Qle_trans; eauto.
    + constructor; [ exact IH | ].
      rewrite insertByEquity_Permutation. constructor; [ | exact Hy ].
      apply Qlt_le_weak, Qnot_le_lt. intros Hle.
      apply Qle_bool_iff in Hle. congruence.
Qed.

Lemma sortKeyed_sorted (l : list (string * Q)) :
  StronglySorted (fun a b => (snd b <= snd a)%Q) (sortKeyed l).
Proof.
  unfold sortKeyed. induction l as [ | x l IH]; cbn [fold_right].
  - constructor.
  - apply insertByEquity_sorted, IH.
Qed.

Lemma keyed_sorted_notAfter (l : list (string * Q)) :
  Forall (fun p => getEquity (fst p) = Value (snd p)) l ->
  StronglySorted (fun a b => (snd b <= snd a)%Q) l ->
  StronglySorted notAfter (List.map fst l).
Proof.
  intros Hkeys Hsorted.
  induction Hsorted as [ | x l Hl IH Hx]; cbn [List.map]; [ constructor | ].
  apply Forall_cons in Hkeys as [Hkx Hkl].
  constructor; [ apply IH, Hkl | ].
  apply Forall_map. rewrite List.Forall_forall in *.
  intros y Hy. unfold notAfter, compareHands.
  rewrite Hkx, (Hkl y Hy). cbn [obind].
  eexists. split; [ reflexivity | ].
  specialize (Hx y Hy). cbn beta in Hx. lra.
Qed.

(** X28. [sortHandsByEquity] on hands whose equity can be read returns
    the same hands, each as often as before, ordered by falling equity:
    [compareHands] of an earlier and a later hand of the result is never
    negative. *)
Theorem sorted_hands_fall_in_equity (hands : list string)
    (Hok : Forall (fun h => exists e, getEquity h = Value e) hands) :
  exists sorted,
    sortHandsByEquity hands = Value sorted /\
    sorted ≡ₚ hands /\
    StronglySorted notAfter sorted.
Proof.
  set (g := fun h => (h, match getEquity h with
                         | Value e => e
                         | TypeError => 0%Q
                         end)).
  assert (Hkeyed : omapM (fun h => obind (getEquity h) (fun e => Value (h, e)))
                     hands = Value (List.map g hands)).
  { apply omapM_fixed. eapply Forall_impl; [ exact Hok | ].
    intros h [e He]. cbn beta. unfold g. rewrite He. reflexivity. }
  assert (Hkeys : Forall (fun p => getEquity (fst p) = Value (snd p))
                    (sortKeyed (List.map g hands))).
  { rewrite sortKeyed_Permutation. apply Forall_map.
    eapply Forall_impl; [ exact Hok | ].
    intros h [e He]. cbn. rewrite He. reflexivity. }
  assert (Hfst : List.map fst (List.map g hands) = hands).
  { rewrite List.map_map. cbn. apply List.map_id. }
  assert (Hgen : exists sorted,
            obind (omapM (fun h => obind (getEquity h) (fun e => Value (h, e)))
                     hands)
              (fun keyed => Value (List.map fst (sortKeyed keyed))) =
              Value sorted /\
            sorted ≡ₚ hands /\ StronglySorted notAfter sorted).
  { rewrite Hkeyed. cbn [obind]. eexists. split; [ reflexivity | ]. split.
    - rewrite sortKeyed_Permutation, Hfst. reflexivity.
    - apply keyed_sorted_notAfter; [ exact Hkeys | apply sortKeyed_sorted ]. }
  unfold sortHandsByEquity.
  destruct hands as [ | h1 [ | h2 rest] ]; [ | | exact Hgen ].
  - exists []. repeat split; constructor.
  - exists [h1]. repeat split; repeat constructor.
Qed.

Lemma sorted_hands_fall_in_equity_witness :
  exists sorted,
    sortHandsByEquity ["72o"; "AA"; "kqs"] = Value sorted /\
    sorted ≡ₚ ["72o"; "AA"; "kqs"] /\
    StronglySorted notAfter sorted.
Proof.
  apply (sorted_hands_fall_in_equity ["72o"; "AA"; "kqs"]).
  repeat constructor; eexists; vm_compute; reflexivity.
Defined.

End HandCardsProperties.

Section ScenariosUnlockCheck.

Import Storage StorageQueries.

Lemma forallb_filter_length {A} (f g : A -> bool) (l : list A) :
  forallb f l = true -> (forall x, f x = true -> g x = true) ->
  List.length (List.filter g l) = List.length l.
Proof.
  intros Hall Himp. induction l as [ | x l IH]; cbn in *; [ reflexivity | ].
  apply andb_true_iff in Hall as [Hx Hl].
  rewrite (Himp x Hx). cbn. rewrite (IH Hl). reflexivity.
Qed.

(** X29. [checkScenariosUnlock], the test of three drills with a best score
    of 80 or completed, never goes back from true to false over a sequence
    of attempts; and in a document whose stage flags follow its records it
    answers true whenever the scenarios stage is unlocked. *)
Theorem scenarios_unlock_check_never_reverts (l : list Attempt) (p : Progress)
    (Hp : stagesFollowRecords p) :
  let p' := recordAttempts l p in
  Bool.le (checkScenariosUnlock p) (checkScenariosUnlock p') /\
  Bool.le (ScenarioStage.unlocked (scenarios p')) (checkScenariosUnlock p').
Proof.
  cbv zeta. split.
  - destruct (recordAttempts_keeps l p) as [Hkeep _].
    unfold checkScenariosUnlock.
    destruct (Nat.leb_spec 3 (List.length
                (List.filter (fun id => match drillModules p !! id with
                                        | Some drill =>
                                            Qle_bool 80 (Drill.bestScore drill)
                                            || Drill.completed drill
                                        | None => false
                                        end) DRILL_ORDER))) as [Hge | Hlt];
      [ | exact I ].
    cbn [Bool.le]. apply Nat.leb_le. eapply Nat.le_trans; [ exact Hge | ].
    apply filter_length_mono. intros id Hid. specialize (Hkeep id).
    unfold keeps in Hkeep.
    destruct (drillModules p !! id) as [r | ]; [ | discriminate ].
    destruct (drillModules (recordAttempts l p) !! id) as [r' | ];
      [ | destruct Hkeep ].
    destruct Hkeep as (Hb & _ & _ & Hc).
    apply orb_true_iff in Hid as [Hid | Hid]; apply orb_true_iff.
    + left. apply Qle_bool_iff. apply Qle_bool_iff in Hid.
      eapply Qle_trans; eauto.
    + right. rewrite Hid in Hc. exact Hc.
  - assert (H : stagesFollowRecords (recordAttempts l p))
      by (apply (recordAttempts_invariant stagesFollowRecords
                   stagesFollowRecords_step), Hp).
    destruct H as (H1 & H2 & _).
    destruct (ScenarioStage.unlocked (scenarios (recordAttempts l p)));
      [ | exact I ].
    cbn [Bool.le]. symmetry in H2. rewrite H1 in H2.
    unfold checkScenariosUnlock. apply Nat.leb_le.
    rewrite (forallb_filter_length _ _ _ H2); [ cbn; lia | ].
    intros id Hid. cbn beta in Hid.
    destruct (drillModules (recordAttempts l p) !! id); [ | discriminate ].
    rewrite Hid. apply orb_true_r.
Qed.

Lemma scenarios_unlock_check_never_reverts_witness :
  let p' :=
    recordAttempts
      [DrillAttempt "t1" "hand-ranking" sampleStats;
       DrillAttempt "t2" "open-fold" sampleStats;
       DrillAttempt "t3" "equity-snap" sampleStats]
      DEFAULT_PROGRESS in
  checkScenariosUnlock p' = true /\
  Bool.le (checkScenariosUnlock DEFAULT_PROGRESS) (checkScenariosUnlock p') /\
  Bool.le (ScenarioStage.unlocked (scenarios p')) (checkScenariosUnlock p').
Proof.
  split; [ vm_compute; reflexivity | ].
  apply (scenarios_unlock_check_never_reverts _ DEFAULT_PROGRESS).
  repeat split.
Defined.

End ScenariosUnlockCheck.

Section PositionDifference.

Import Ranges.

Lemma In_map_Some (h : string) (l : list string) :
  In (Some h) (List.map Some l) <-> In h l.
Proof.
  rewrite in_map_iff. split.
  - intros (x & [= ->] & Hx). exact Hx.
  - intros Hx. exists h. split; [ reflexivity | exact Hx ].
Qed.

(** X30. For two positions of the table, [getPositionDifferenceHands]
    returns, without repetition, exactly the hands of the first range that
    the second range lacks; these are the extra hands that
    [getRangeDifference] reports for the first range against the second
    position, and the missing hands it reports are those of the call with
    the positions exchanged. *)
Theorem position_difference_is_range_difference (p1 p2 : string)
    (r1 r2 : list string)
    (H1 : lookupKey OPENING_RANGES p1 = Some r1)
    (H2 : lookupKey OPENING_RANGES p2 = Some r2) :
  (forall h, In h (getPositionDifferenceHands p1 p2) <->
             In h r1 /\ ~ In h r2) /\
  List.NoDup (getPositionDifferenceHands p1 p2) /\
  exists d : Difference,
    getRangeDifference r1 p2 = Value d /\
    extra d ≡ₚ getPositionDifferenceHands p1 p2 /\
    missing d ≡ₚ getPositionDifferenceHands p2 p1.
Proof.
  destruct (range_on_grid _ _ H1) as [Hnd1 Hgrid1].
  destruct (range_on_grid _ _ H2) as [Hnd2 Hgrid2].
  assert (Hdiff : forall a b h,
            In h (List.filter (fun hand => negb (setHas b hand)) a) <->
            In h a /\ ~ In h b).
  { intros a b h. rewrite filter_In, negb_true_iff, <- not_true_iff_false.
    rewrite setHas_In. tauto. }
  unfold getPositionDifferenceHands. rewrite H1, H2.
  split; [ apply Hdiff | ].
  split; [ apply List.NoDup_filter, Hnd1 | ].
  assert (Hnorm : omapM Hands.normalizeHand r1 = Value (List.map Some r1)).
  { apply omapM_fixed, List.Forall_forall. intros h Hh.
    apply gridHands_canonical, Hgrid1, Hh. }
  unfold getRangeDifference. rewrite H2, Hnorm. cbn [obind].
  eexists. split; [ reflexivity | ]. cbn [missing extra]. split.
  - apply NoDup_Permutation.
    + apply NoDup_ListNoDup, List.NoDup_filter, gridHands_NoDup.
    + apply NoDup_ListNoDup, List.NoDup_filter, Hnd1.
    + intros h. rewrite !list_elem_of_In, Hdiff.
      rewrite filter_In, !andb_true_iff, !negb_true_iff.
      rewrite andb_false_iff, negb_false_iff, <- !not_true_iff_false.
      rewrite setHas_In, setOf_In, userHas_newSet, In_map_Some.
      specialize (Hgrid1 h). tauto.
  - apply NoDup_Permutation.
    + apply NoDup_ListNoDup, List.NoDup_filter, gridHands_NoDup.
    + apply NoDup_ListNoDup, List.NoDup_filter, Hnd2.
    + intros h. rewrite !list_elem_of_In, Hdiff.
      rewrite filter_In, andb_true_iff, negb_true_iff.
      rewrite <- not_true_iff_false.
      rewrite setHas_In, setOf_In, userHas_newSet, In_map_Some.
      specialize (Hgrid2 h). tauto.
Qed.

Lemma position_difference_is_range_difference_witness :
  (forall h, In h (getPositionDifferenceHands "BTN" "UTG") <->
             In h (getRangeHands "BTN") /\ ~ In h (getRangeHands "UTG")) /\
  List.NoDup (getPositionDifferenceHands "BTN" "UTG") /\
  exists d : Difference,
    getRangeDifference (getRangeHands "BTN") "UTG" = Value d /\
    extra d ≡ₚ getPositionDifferenceHands "BTN" "UTG" /\
    missing d ≡ₚ getPositionDifferenceHands "UTG" "BTN".
Proof.
  apply (position_difference_is_range_difference "BTN" "UTG"); reflexivity.
Defined.

End PositionDifference.
